(** * The queue service of the task queue (queueservice.js)

    A shallow embedding of [QueueService], the wrapper that manages the
    pending-task queues and the claim, deadline and resolved queues, and
    of [FakeQueueClient], the in-memory queue client of the same file.

    Conventions of the embedding:
    - a [Date] is its [getTime()] value, an integer number of
      milliseconds ([Z]); [Date.now()] is an explicit argument [now] of
      every operation, read once per operation;
    - a promise is the value it settles to: [Ok v] for a fulfilled and
      [Throw e] for a rejected one; an [async] method is a function from
      the state before to its settled result and the state after; a
      field that holds a promise holds what the promise settles to, and
      a handler attached to the promise runs after the assignment;
    - the promises of the client are settled when its methods return, as
      those of the in-memory client are; the members of a [Promise.all]
      over [async] calls then run in this order: first the part of every
      member up to its first [await], then the continuations in order;
      every member runs to its end even when another one has failed;
      the shard calls of [ensurePendingQueue] can fail at different
      stages, and their [Promise.all] rejects with the rejection that
      comes first in time, counted in jobs of the engine's queue, which
      need not be the first of the list. *)

From Stdlib Require Import ZArith Lia Ascii String.
From stdpp Require Import base option list strings gmap fin_maps pretty.

Open Scope Z_scope.

(** ** JavaScript values shared by the service and the client *)

(** An [Error] object with the properties this file reads or attaches. *)
Record JsError := mkError {
  err_message : string;
  err_code : option string;
  err_statusCode : option Z;
  err_note : option string;
  err_queue : option string;
  err_provisionerId : option string;
  err_workerType : option string;
}.

Definition plainError (msg : string) (code : option string) (status : option Z) : JsError :=
  mkError msg code status None None None None.

(** What a failed [assert(...)] throws. *)
Definition AssertionError (msg : string) : JsError :=
  plainError msg (Some "ERR_ASSERTION") None.

(** What reading a property of [undefined] throws. *)
Definition TypeError (msg : string) : JsError :=
  plainError msg None None.

Inductive result (A : Type) : Type :=
| Ok (a : A)
| Throw (e : JsError).
Arguments Ok {A} a.
Arguments Throw {A} e.

Definition is_ok {A} (r : result A) : bool :=
  match r with Ok _ => true | Throw _ => false end.

(** Queue meta-data: a JavaScript object with string values. *)
Abbreviation Metadata := (gmap string string).

(** The value of [getMetadata]: [{metadata, messageCount}]. *)
Record MetadataResult := {
  md_metadata : option Metadata;
  md_messageCount : Z;
}.

(** One element of the value of [getMessages]. *)
Record FetchedMessage := {
  messageText : string;
  messageId : string;
  popReceipt : string;
}.

(** The value of [listQueues]: [{queues, nextMarker}]. *)
Record ListResult := {
  lr_queues : list (string * option Metadata);
  lr_nextMarker : option string;
}.

(** JSON values; numbers are the integers the service puts in messages,
    objects keep their keys in insertion order. *)
#[warnings="-register-all"]
Inductive json : Type :=
| JNull
| JBool (b : bool)
| JNum (n : Z)
| JStr (s : string)
| JArr (l : list json)
| JObj (fields : list (string * json)).

(** [payload.key], [None] for [undefined]. *)
Definition json_get (key : string) (j : json) : option json :=
  match j with
  | JObj fields => snd <$> List.find (λ kv, bool_decide (kv.1 = key)) fields
  | _ => None
  end.

(** The built-ins of the JavaScript runtime and of the npm packages the
    file calls without defining them. *)
Class Runtime := {
  (** [JSON.stringify] *)
  JSON_stringify : json → string;
  (** [JSON.parse], [None] for a [SyntaxError] *)
  JSON_parse : string → option json;
  (** [Buffer.from(s).toString('base64')] *)
  base64_encode : string → string;
  (** [Buffer.from(s, 'base64')], read as text *)
  base64_decode : string → string;
  (** [date.toJSON()] of a valid date *)
  Date_toJSON : Z → string;
  (** [new Date(v).getTime()] for a JSON value or [undefined] ([None]);
      the result is [None] for an invalid date ([NaN]) *)
  Date_new : option json → option Z;
  (** [crypto.createHash('sha256').update(id).digest()], the first 15
      bytes in base32, lower case *)
  hashId : string → string;
  (** [slugid.v4()]: the n-th token of the random stream *)
  slugid_v4 : nat → string;
}.

(** ** Time *)

(** [Math.ceil(x / d)] for integers [x] and positive [d]. *)
Definition ceil_div (x d : Z) : Z := - ((- x) / d).

(** [secondsTo(target, relativeTo)]: seconds until [target], rounded up,
    at least one.  The code computes on the numbers of [getTime()]; the
    integers here agree with it for dates up to 2^53 milliseconds apart,
    where the subtraction is exact, as the dates of a call and the clock
    reading of that call are. *)
Definition secondsTo (target relativeTo : Z) : Z :=
  let delta := ceil_div (target - relativeTo) 1000 in
  Z.max delta 1.

(** Modelled from the spec: [taskcluster.fromNow] of the client library,
    which is not among these sources, at the argument [`${n} seconds`]:
    the date [n] seconds after the clock reading (a visibility delay or
    a TTL counted from the time of the call). *)
Definition fromNow (now n : Z) : Z := now + n * 1000.

(** Modelled from the spec: [taskcluster.fromNowJSON()] of the client
    library, not among these sources: the clock reading as JSON date. *)
Definition fromNowJSON `{Runtime} (now : Z) : string := Date_toJSON now.

(** ** The client interface

    [azure.Queue] and [FakeQueueClient] are used through the same
    methods.  Every method gets the clock reading and the client state
    and settles to a result and a new state. *)
Record QueueClient (S : Type) := {
  createQueue : Z → string → option Metadata → S → result () * S;
  getMetadata : Z → string → S → result MetadataResult * S;
  setMetadata : Z → string → Metadata → S → result () * S;
  (** name, text, visibilityTimeout, messageTTL *)
  putMessage : Z → string → string → Z → Z → S → result () * S;
  (** name, visibilityTimeout, numberOfMessages *)
  getMessages : Z → string → Z → Z → S → result (list FetchedMessage) * S;
  (** name, messageId, popReceipt *)
  deleteMessage : Z → string → string → string → S → result () * S;
  (** name, messageText, messageId, popReceipt, visibilityTimeout *)
  updateMessage : Z → string → string → string → string → Z → S → result () * S;
  (** marker, prefix *)
  listQueues : Z → option string → string → S → result ListResult * S;
  deleteQueue : Z → string → S → result () * S;
}.
Arguments createQueue {S} _.
Arguments getMetadata {S} _.
Arguments setMetadata {S} _.
Arguments putMessage {S} _.
Arguments getMessages {S} _.
Arguments deleteMessage {S} _.
Arguments updateMessage {S} _.
Arguments listQueues {S} _.
Arguments deleteQueue {S} _.

(** A client method call with its arguments. *)
Inductive Call : Type :=
| CreateQueue (name : string) (md : option Metadata)
| GetMetadata (name : string)
| SetMetadata (name : string) (md : Metadata)
| PutMessage (name text : string) (visibilityTimeout messageTTL : Z)
| GetMessages (name : string) (visibilityTimeout numberOfMessages : Z)
| DeleteMessage (name messageId popReceipt : string)
| UpdateMessage (name messageText messageId popReceipt : string) (visibilityTimeout : Z)
| ListQueues (marker : option string) (prefix : string)
| DeleteQueue (name : string).

(** The client state after a call at clock reading [now], whatever the
    call settled to. *)
Definition perform {S} (client : QueueClient S) (now : Z) (c : Call) (s : S) : S :=
  match c with
  | CreateQueue name md => (createQueue client now name md s).2
  | GetMetadata name => (getMetadata client now name s).2
  | SetMetadata name md => (setMetadata client now name md s).2
  | PutMessage name text visibilityTimeout messageTTL =>
      (putMessage client now name text visibilityTimeout messageTTL s).2
  | GetMessages name visibilityTimeout numberOfMessages =>
      (getMessages client now name visibilityTimeout numberOfMessages s).2
  | DeleteMessage name messageId popReceipt =>
      (deleteMessage client now name messageId popReceipt s).2
  | UpdateMessage name messageText messageId popReceipt visibilityTimeout =>
      (updateMessage client now name messageText messageId popReceipt visibilityTimeout s).2
  | ListQueues marker prefix => (listQueues client now marker prefix s).2
  | DeleteQueue name => (deleteQueue client now name s).2
  end.

(** A history of calls, each at its clock reading, oldest first. *)
Definition perform_all {S} (client : QueueClient S) (history : list (Z * Call)) (s : S) : S :=
  foldl (λ s tc, perform client tc.1 tc.2 s) s history.

(** ** FakeQueueClient: the in-memory client *)
Module FakeQueueClient.

(** A stored message; [_popReceipt] is [undefined] until first fetched. *)
Record Message := {
  m_messageText : string;
  m_messageId : string;
  _visibleAfter : Z;
  _expiresAfter : Z;
  _popReceipt : option string;
}.

(** [this.queues], [this.metadata], and how many tokens [slugid.v4()]
    has handed to the client so far. *)
Record t := {
  queues : gmap string (list Message);
  metadata : gmap string Metadata;
  draws : nat;
}.

(** [_reset()], called by the constructor. *)
Definition _reset : t := {| queues := ∅; metadata := ∅; draws := 0 |}.

Definition QueueNotFound : JsError :=
  plainError "Queue not found" (Some "QueueNotFound") (Some 404).

(** [_queue(name)] *)
Definition _queue (name : string) (c : t) : result (list Message * option Metadata) :=
  match queues c !! name with
  | None => Throw QueueNotFound
  | Some queue => Ok (queue, metadata c !! name)
  end.

Definition createQueue (name : string) (md : option Metadata) (c : t) : result () * t :=
  (Ok (), {| queues := <[name := []]> (queues c);
             metadata := <[name := default ∅ md]> (metadata c);
             draws := draws c |}).

Definition getMetadata (name : string) (c : t) : result MetadataResult * t :=
  match _queue name c with
  | Throw e => (Throw e, c)
  | Ok (queue, md) =>
      (Ok {| md_metadata := md; md_messageCount := Z.of_nat (length queue) |}, c)
  end.

(** [Object.assign(metadata, update)]: the keys of [update] win. *)
Definition setMetadata (name : string) (update : Metadata) (c : t) : result () * t :=
  match _queue name c with
  | Throw e => (Throw e, c)
  | Ok (_, None) => (Throw (TypeError "Cannot convert undefined or null to object"), c)
  | Ok (_, Some md) =>
      (Ok (), {| queues := queues c;
                 metadata := <[name := update ∪ md]> (metadata c);
                 draws := draws c |})
  end.

Section WithRuntime.
Context `{Runtime}.

Definition putMessage (now : Z) (name text : string)
    (visibilityTimeout messageTTL : Z) (c : t) : result () * t :=
  match _queue name c with
  | Throw e => (Throw e, c)
  | Ok (queue, _) =>
      let msg := {| m_messageText := text;
                    m_messageId := slugid_v4 (draws c);
                    _visibleAfter := fromNow now visibilityTimeout;
                    _expiresAfter := fromNow now messageTTL;
                    _popReceipt := None |} in
      (Ok (), {| queues := <[name := queue ++ [msg]]> (queues c);
                 metadata := metadata c;
                 draws := S (draws c) |})
  end.

(** [msg._visibleAfter = visibilityTime; msg._popReceipt = receipt] *)
Definition leased (visibilityTime : Z) (receipt : string) (msg : Message) : Message :=
  {| m_messageText := m_messageText msg;
     m_messageId := m_messageId msg;
     _visibleAfter := visibilityTime;
     _expiresAfter := _expiresAfter msg;
     _popReceipt := Some receipt |}.

(** What [getMessages] hands out for a stored message. *)
Definition handed_out (receipt : string) (msg : Message) : FetchedMessage :=
  {| messageText := m_messageText msg;
     messageId := m_messageId msg;
     popReceipt := receipt |}.

(** [now > msg._visibleAfter && now <= msg._expiresAfter] *)
Definition visible (now : Z) (msg : Message) : bool :=
  (now >? _visibleAfter msg) && (now <=? _expiresAfter msg).

(** The [for (let msg of queue)] loop of [getMessages]: [rv] is the
    result so far, [d] the number of tokens drawn so far.  The loop
    stops after the push that brings [rv] to [numberOfMessages]. *)
Fixpoint getMessages_loop (now visibilityTime numberOfMessages : Z)
    (queue : list Message) (rv : list FetchedMessage) (d : nat)
    : list Message * list FetchedMessage * nat :=
  match queue with
  | [] => ([], rv, d)
  | msg :: rest =>
      if visible now msg then
        let receipt := slugid_v4 d in
        let rv' := rv ++ [handed_out receipt msg] in
        if Z.of_nat (length rv') =? numberOfMessages then
          (leased visibilityTime receipt msg :: rest, rv', S d)
        else
          let '(rest', out, d') :=
            getMessages_loop now visibilityTime numberOfMessages rest rv' (S d) in
          (leased visibilityTime receipt msg :: rest', out, d')
      else
        let '(rest', out, d') :=
          getMessages_loop now visibilityTime numberOfMessages rest rv d in
        (msg :: rest', out, d')
  end.

Definition getMessages (now : Z) (name : string)
    (visibilityTimeout numberOfMessages : Z) (c : t)
    : result (list FetchedMessage) * t :=
  match _queue name c with
  | Throw e => (Throw e, c)
  | Ok (queue, _) =>
      let visibilityTime := fromNow now visibilityTimeout in
      let '(queue', rv, d) :=
        getMessages_loop now visibilityTime numberOfMessages queue [] (draws c) in
      (Ok rv, {| queues := <[name := queue']> (queues c);
                 metadata := metadata c;
                 draws := d |})
  end.

End WithRuntime.

Definition receiptMismatch : JsError :=
  AssertionError "Expected values to be loosely equal".

(** The [queue.filter] of [deleteMessage]; the [assert.equal] inside
    the callback aborts the whole filter. *)
Fixpoint deleteMessage_filter (messageId popReceipt : string)
    (queue : list Message) : result (list Message) :=
  match queue with
  | [] => Ok []
  | m :: rest =>
      if bool_decide (m_messageId m = messageId) then
        if bool_decide (_popReceipt m = Some popReceipt) then
          deleteMessage_filter messageId popReceipt rest
        else Throw receiptMismatch
      else
        match deleteMessage_filter messageId popReceipt rest with
        | Ok rest' => Ok (m :: rest')
        | Throw e => Throw e
        end
  end.

Definition deleteMessage (name messageId popReceipt : string) (c : t)
    : result () * t :=
  match _queue name c with
  | Throw e => (Throw e, c)
  | Ok (queue, _) =>
      match deleteMessage_filter messageId popReceipt queue with
      | Throw e => (Throw e, c)
      | Ok queue' =>
          (Ok (), {| queues := <[name := queue']> (queues c);
                     metadata := metadata c;
                     draws := draws c |})
      end
  end.

(** [msg.messageText = messageText; msg._visibleAfter = visibleAfter] *)
Definition updated (visibleAfter : Z) (messageText : string) (msg : Message) : Message :=
  {| m_messageText := messageText;
     m_messageId := m_messageId msg;
     _visibleAfter := visibleAfter;
     _expiresAfter := _expiresAfter msg;
     _popReceipt := _popReceipt msg |}.

(** The [queue.forEach] of [updateMessage]: messages are changed in
    place, so the changes made before a failed [assert.equal] stay. *)
Fixpoint updateMessage_forEach (visibleAfter : Z) (messageText messageId popReceipt : string)
    (queue : list Message) : list Message * option JsError :=
  match queue with
  | [] => ([], None)
  | msg :: rest =>
      if bool_decide (m_messageId msg ≠ messageId) then
        let '(rest', e) :=
          updateMessage_forEach visibleAfter messageText messageId popReceipt rest in
        (msg :: rest', e)
      else if bool_decide (_popReceipt msg = Some popReceipt) then
        let '(rest', e) :=
          updateMessage_forEach visibleAfter messageText messageId popReceipt rest in
        (updated visibleAfter messageText msg :: rest', e)
      else (msg :: rest, Some receiptMismatch)
  end.

Definition updateMessage (now : Z) (name messageText messageId popReceipt : string)
    (visibilityTimeout : Z) (c : t) : result () * t :=
  match _queue name c with
  | Throw e => (Throw e, c)
  | Ok (queue, _) =>
      let '(queue', e) :=
        updateMessage_forEach (fromNow now visibilityTimeout)
          messageText messageId popReceipt queue in
      (match e with None => Ok () | Some e => Throw e end,
       {| queues := <[name := queue']> (queues c);
          metadata := metadata c;
          draws := draws c |})
  end.

(** [listQueues] ignores the marker and the prefix and returns every
    queue in one page. *)
Definition listQueues (c : t) : result ListResult * t :=
  (Ok {| lr_queues := (λ kv : string * list Message, (kv.1, metadata c !! kv.1))
                        <$> map_to_list (queues c);
         lr_nextMarker := None |}, c).

Definition deleteQueue (name : string) (c : t) : result () * t :=
  (Ok (), {| queues := delete name (queues c);
             metadata := delete name (metadata c);
             draws := draws c |}).

End FakeQueueClient.

(** The in-memory client behind the client interface. *)
Definition fakeClient `{Runtime} : QueueClient FakeQueueClient.t := {|
  createQueue := λ _ name md, FakeQueueClient.createQueue name md;
  getMetadata := λ _ name, FakeQueueClient.getMetadata name;
  setMetadata := λ _ name update, FakeQueueClient.setMetadata name update;
  putMessage := FakeQueueClient.putMessage;
  getMessages := FakeQueueClient.getMessages;
  deleteMessage := λ _ name messageId popReceipt,
    FakeQueueClient.deleteMessage name messageId popReceipt;
  updateMessage := FakeQueueClient.updateMessage;
  listQueues := λ _ _ _, FakeQueueClient.listQueues;
  deleteQueue := λ _ name, FakeQueueClient.deleteQueue name;
|}.

(** ** Priorities *)

Inductive Priority : Type :=
| highest | very_high | high | medium | low | very_low | lowest.

#[global] Instance Priority_eq_dec : EqDecision Priority.
Proof. solve_decision. Defined.

(** The JavaScript string of a priority. *)
Definition priority_name (p : Priority) : string :=
  match p with
  | highest => "highest" | very_high => "very-high" | high => "high"
  | medium => "medium" | low => "low" | very_low => "very-low"
  | lowest => "lowest"
  end.

(** Priority to constant for use in queue name. *)
Definition PRIORITY_TO_CONSTANT : list (Priority * string) :=
  [(highest, "7"); (very_high, "6"); (high, "5"); (medium, "4");
   (low, "3"); (very_low, "2"); (lowest, "1")].

(** Priority in order of priority from high to low. *)
Definition PRIORITIES : list Priority :=
  [highest; very_high; high; medium; low; very_low; lowest].

(** An object keyed by priority, in insertion order. *)
Abbreviation Names := (list (Priority * string)).

(** [queueNames[priority]]; a missing key reads [undefined], which the
    client receives as the queue name "undefined". *)
Definition names_get (names : Names) (p : Priority) : string :=
  default "undefined" (snd <$> List.find (λ kv, bool_decide (kv.1 = p)) names).

(** ** Identifiers *)

Definition is_alnum (c : Ascii.ascii) : bool :=
  let n := Ascii.nat_of_ascii c in
  ((48 <=? n) && (n <=? 57) || (65 <=? n) && (n <=? 90) || (97 <=? n) && (n <=? 122))%nat.

Fixpoint string_forall (f : Ascii.ascii → bool) (s : string) : bool :=
  match s with
  | EmptyString => true
  | String c rest => f c && string_forall f rest
  end.

(** [/^[A-Za-z0-9_-]{1,38}$/.test(s)] *)
Definition is_identifier (s : string) : bool :=
  (1 <=? String.length s)%nat && (String.length s <=? 38)%nat &&
  string_forall (λ c, is_alnum c || bool_decide (c = "_"%char) || bool_decide (c = "-"%char)) s.

(** [/^[A-Za-z0-9][A-Za-z0-9-]*$/.test(s)] *)
Definition is_prefix_syntax (s : string) : bool :=
  match s with
  | EmptyString => false
  | String c rest =>
      is_alnum c && string_forall (λ c, is_alnum c || bool_decide (c = "-"%char)) rest
  end.

(** [!x] for a string or [undefined]. *)
Definition falsy (x : option string) : bool :=
  match x with
  | None => true
  | Some s => bool_decide (s = "")
  end.

(** ** QueueService *)
Module QueueService.

(** The [options] of the constructor. *)
Record Options := {
  opt_prefix : string;
  opt_claimQueue : string;
  opt_resolvedQueue : string;
  opt_deadlineQueue : string;
  opt_deadlineDelay : option Z;
}.

(** The task description [putPendingMessage] reads. *)
Record Task := {
  task_taskId : string;
  task_provisionerId : string;
  task_workerType : string;
  task_deadline : Z;
  task_priority : Priority;
}.

(** An entry of [countPendingCache]: [{count, lastUpdated}], the promise
    [count] being what it settles to. *)
Record CountEntry := {
  count : result Z;
  lastUpdated : Z;
}.

Section Service.
Context `{Runtime} {S : Type} (client : QueueClient S).

(** The fields of a [QueueService] object, the state of its client, and
    what the object has sent out: [calls] is the journal of the client
    methods called so far, [reported] what went to
    [monitor.reportError], [console] the arguments of [console.log]. *)
Record World := {
  client_state : S;
  calls : list Call;
  prefix : string;
  (** [this.queues]: under a key, [undefined] ([None]) or a promise *)
  queues : gmap string (option (result Names));
  claimQueue : string;
  (** [null] ([None]) or the promise of [createQueue] *)
  claimQueueReady : option (result ());
  resolvedQueue : string;
  resolvedQueueReady : option (result ());
  deadlineQueue : string;
  deadlineDelay : Z;
  deadlineQueueReady : option (result ());
  countPendingCache : gmap string CountEntry;
  reported : list JsError;
  console : list (Z * string);
  slugs : nat;
}.

Definition with_client (c : S) (call : Call) (w : World) : World :=
  {| client_state := c; calls := calls w ++ [call]; prefix := prefix w;
     queues := queues w; claimQueue := claimQueue w;
     claimQueueReady := claimQueueReady w; resolvedQueue := resolvedQueue w;
     resolvedQueueReady := resolvedQueueReady w; deadlineQueue := deadlineQueue w;
     deadlineDelay := deadlineDelay w; deadlineQueueReady := deadlineQueueReady w;
     countPendingCache := countPendingCache w; reported := reported w;
     console := console w; slugs := slugs w |}.

Definition with_queues (q : gmap string (option (result Names))) (w : World) : World :=
  {| client_state := client_state w; calls := calls w; prefix := prefix w;
     queues := q; claimQueue := claimQueue w;
     claimQueueReady := claimQueueReady w; resolvedQueue := resolvedQueue w;
     resolvedQueueReady := resolvedQueueReady w; deadlineQueue := deadlineQueue w;
     deadlineDelay := deadlineDelay w; deadlineQueueReady := deadlineQueueReady w;
     countPendingCache := countPendingCache w; reported := reported w;
     console := console w; slugs := slugs w |}.

Definition with_ready (claim resolved dl : option (result ())) (w : World) : World :=
  {| client_state := client_state w; calls := calls w; prefix := prefix w;
     queues := queues w; claimQueue := claimQueue w;
     claimQueueReady := claim; resolvedQueue := resolvedQueue w;
     resolvedQueueReady := resolved; deadlineQueue := deadlineQueue w;
     deadlineDelay := deadlineDelay w; deadlineQueueReady := dl;
     countPendingCache := countPendingCache w; reported := reported w;
     console := console w; slugs := slugs w |}.

Definition with_countPendingCache (c : gmap string CountEntry) (w : World) : World :=
  {| client_state := client_state w; calls := calls w; prefix := prefix w;
     queues := queues w; claimQueue := claimQueue w;
     claimQueueReady := claimQueueReady w; resolvedQueue := resolvedQueue w;
     resolvedQueueReady := resolvedQueueReady w; deadlineQueue := deadlineQueue w;
     deadlineDelay := deadlineDelay w; deadlineQueueReady := deadlineQueueReady w;
     countPendingCache := c; reported := reported w;
     console := console w; slugs := slugs w |}.

Definition with_reported (e : JsError) (w : World) : World :=
  {| client_state := client_state w; calls := calls w; prefix := prefix w;
     queues := queues w; claimQueue := claimQueue w;
     claimQueueReady := claimQueueReady w; resolvedQueue := resolvedQueue w;
     resolvedQueueReady := resolvedQueueReady w; deadlineQueue := deadlineQueue w;
     deadlineDelay := deadlineDelay w; deadlineQueueReady := deadlineQueueReady w;
     countPendingCache := countPendingCache w; reported := reported w ++ [e];
     console := console w; slugs := slugs w |}.

Definition with_console (runId : Z) (task : string) (w : World) : World :=
  {| client_state := client_state w; calls := calls w; prefix := prefix w;
     queues := queues w; claimQueue := claimQueue w;
     claimQueueReady := claimQueueReady w; resolvedQueue := resolvedQueue w;
     resolvedQueueReady := resolvedQueueReady w; deadlineQueue := deadlineQueue w;
     deadlineDelay := deadlineDelay w; deadlineQueueReady := deadlineQueueReady w;
     countPendingCache := countPendingCache w; reported := reported w;
     console := console w ++ [(runId, task)]; slugs := slugs w |}.

Definition with_slug_drawn (w : World) : World :=
  {| client_state := client_state w; calls := calls w; prefix := prefix w;
     queues := queues w; claimQueue := claimQueue w;
     claimQueueReady := claimQueueReady w; resolvedQueue := resolvedQueue w;
     resolvedQueueReady := resolvedQueueReady w; deadlineQueue := deadlineQueue w;
     deadlineDelay := deadlineDelay w; deadlineQueueReady := deadlineQueueReady w;
     countPendingCache := countPendingCache w; reported := reported w;
     console := console w; slugs := Datatypes.S (slugs w) |}.

(** *** The monad of the methods: a state and a settled result *)

Definition M (A : Type) : Type := World → result A * World.

Definition ret {A} (a : A) : M A := λ w, (Ok a, w).

Definition throw {A} (e : JsError) : M A := λ w, (Throw e, w).

Definition bind {A B} (m : M A) (k : A → M B) : M B := λ w,
  match m w with
  | (Ok a, w') => k a w'
  | (Throw e, w') => (Throw e, w')
  end.

(** [try { m } catch (err) { handler }] around awaited calls. *)
Definition try_catch {A} (m : M A) (handler : JsError → M A) : M A := λ w,
  match m w with
  | (Ok a, w') => (Ok a, w')
  | (Throw e, w') => handler e w'
  end.

Notation "'let*' x ':=' m 'in' k" := (bind m (λ x, k))
  (at level 10, x name, m at level 100, k at level 200).

(** [assert(cond, msg)] *)
Definition assert (cond : bool) (msg : string) : M () :=
  if cond then ret () else throw (AssertionError msg).

(** A client method call: run it on the client state, note it in the
    journal. *)
Definition call {A} (c : Call) (method : S → result A * S) : M A := λ w,
  let '(r, s) := method (client_state w) in (r, with_client s c w).

Definition reportError (e : JsError) : M () := λ w, (Ok (), with_reported e w).

(** The constructor, around the client it is given. *)
Definition constructor (options : Options) (c : S) : result World :=
  if negb (is_prefix_syntax (opt_prefix options)) then
    Throw (AssertionError "Invalid prefix")
  else if negb (String.length (opt_prefix options) <=? 6)%nat then
    Throw (AssertionError "Prefix is too long")
  else if bool_decide (opt_resolvedQueue options = "") then
    Throw (AssertionError "A resolvedQueue name must be given")
  else if bool_decide (opt_claimQueue options = "") then
    Throw (AssertionError "A claimQueue name must be given")
  else if bool_decide (opt_deadlineQueue options = "") then
    Throw (AssertionError "A deadlineQueue name must be given")
  else
    Ok {| client_state := c; calls := []; prefix := opt_prefix options;
          queues := ∅; claimQueue := opt_claimQueue options;
          claimQueueReady := None; resolvedQueue := opt_resolvedQueue options;
          resolvedQueueReady := None; deadlineQueue := opt_deadlineQueue options;
          deadlineDelay := default (10 * 60 * 1000) (opt_deadlineDelay options);
          deadlineQueueReady := None; countPendingCache := ∅; reported := [];
          console := []; slugs := 0 |}.

Definition gets {A} (f : World → A) : M A := λ w, (Ok (f w), w).

Definition lift {A} (r : result A) : M A := λ w, (r, w).

(** [list.map(f)] with a callback that may throw. *)
Fixpoint map_result {A B} (f : A → result B) (l : list A) : result (list B) :=
  match l with
  | [] => Ok []
  | a :: rest =>
      match f a with
      | Throw e => Throw e
      | Ok b =>
          match map_result f rest with
          | Throw e => Throw e
          | Ok bs => Ok (b :: bs)
          end
      end
  end.

(** Run every member to its end, one after the other. *)
Fixpoint settle {A} (members : list (M A)) (w : World) : list (result A) * World :=
  match members with
  | [] => ([], w)
  | m :: rest =>
      let '(r, w1) := m w in
      let '(rs, w2) := settle rest w1 in
      (r :: rs, w2)
  end.

(** What [Promise.all] settles to over promises that settle in the
    order of the list: the values, or the first rejection. *)
Fixpoint first_rejection {A} (rs : list (result A)) : result (list A) :=
  match rs with
  | [] => Ok []
  | Throw e :: _ => Throw e
  | Ok a :: rest =>
      match first_rejection rest with
      | Throw e => Throw e
      | Ok l => Ok (a :: l)
      end
  end.

(** [Promise.all] over promises that are already under way. *)
Definition Promise_all {A} (members : list (M A)) : M (list A) := λ w,
  let '(rs, w') := settle members w in (first_rejection rs, w').

(** The members of a [Promise.all] over calls of an [async] function
    whose body is a client call, an [await] of it, and a continuation:
    what each member settles to. *)
Definition settle_async {A B} (members : list (M A * (result A → M B))) (w : World)
    : list (result B) * World :=
  let '(awaited, w1) := settle (fst <$> members) w in
  settle (zip_with (λ mb r, mb.2 r) members awaited) w1.

(** The job of the engine's queue in which each of these members
    settles, counted from the job in which its [await] is over: [jobs]
    gives it from what the awaited call settled to. *)
Definition settled_at {A B} (members : list (M A * (result A → M B)))
    (jobs : result A → nat) (w : World) : list nat :=
  jobs <$> (settle (fst <$> members) w).1.

(** The rejection that comes first in time among [(t, e)] and the
    members [rs], each with the job in which it settles; promises that
    settle in the same job do so in the order of the list. *)
Fixpoint earliest {A} (t : nat) (e : JsError) (rs : list (nat * result A)) : JsError :=
  match rs with
  | [] => e
  | (t', Throw e') :: rest =>
      if (t' <? t)%nat then earliest t' e' rest else earliest t e rest
  | (_, Ok _) :: rest => earliest t e rest
  end.

(** What [Promise.all] settles to over members that settle at different
    times: the values, or the rejection that comes first in time. *)
Fixpoint first_rejection_in_time {A} (rs : list (nat * result A)) : result (list A) :=
  match rs with
  | [] => Ok []
  | (t, Throw e) :: rest => Throw (earliest t e rest)
  | (_, Ok a) :: rest =>
      match first_rejection_in_time rest with
      | Throw e => Throw e
      | Ok l => Ok (a :: l)
      end
  end.

Definition Promise_all_async {A B} (members : list (M A * (result A → M B)))
    (jobs : result A → nat) : M (list B) := λ w,
  let '(rs, w') := settle_async members w in
  (first_rejection_in_time (zip (settled_at members jobs w) rs), w').

(** *** Messages *)

(** An element of the value of [_getMessages]; the two bound client
    methods take the clock reading of the time they are called. *)
Record ReceivedMessage := {
  payload : json;
  remove : Z → M ();
  release : Z → M ();
}.

Definition SyntaxError : JsError := plainError "Unexpected token in JSON" None None.

Definition _putMessage (now : Z) (queue : string) (message : json)
    (visibility ttl : Z) : M () :=
  let text := base64_encode (JSON_stringify message) in
  call (PutMessage queue text visibility ttl)
       (putMessage client now queue text visibility ttl).

Definition received (queue : string) (msg : FetchedMessage) : result ReceivedMessage :=
  match JSON_parse (base64_decode (messageText msg)) with
  | None => Throw SyntaxError
  | Some p =>
      Ok {| payload := p;
            remove := λ now,
              call (DeleteMessage queue (messageId msg) (popReceipt msg))
                   (deleteMessage client now queue (messageId msg) (popReceipt msg));
            release := λ now,
              call (UpdateMessage queue (messageText msg) (messageId msg) (popReceipt msg) 0)
                   (updateMessage client now queue (messageText msg) (messageId msg)
                      (popReceipt msg) 0) |}
  end.

Definition _getMessages (now : Z) (queue : string) (visibility count : Z)
    : M (list ReceivedMessage) :=
  let* messages := call (GetMessages queue visibility count)
                        (getMessages client now queue visibility count) in
  lift (map_result (received queue) messages).

(** [payload.key]; reading a property of [null] throws. *)
Definition prop (key : string) (payload : json) : result (option json) :=
  match payload with
  | JNull => Throw (TypeError "Cannot read properties of null")
  | _ => Ok (json_get key payload)
  end.

(** *** The claim, resolved and deadline queues *)

(** Ensure existence of the claim queue.  The promise of [createQueue]
    with its [catch] is stored in [claimQueueReady] as soon as the call
    is made; when it rejects, the handler of the [catch] sets the field
    back to [null]. *)
Definition ensureClaimQueue (now : Z) : M () := λ w,
  match claimQueueReady w with
  | Some ready => (ready, w)
  | None =>
      let '(ready, w1) := call (CreateQueue (claimQueue w) None)
                               (createQueue client now (claimQueue w) None) w in
      let w2 := with_ready (Some ready) (resolvedQueueReady w1) (deadlineQueueReady w1) w1 in
      match ready with
      | Ok _ => (ready, w2)
      | Throw err => (Throw err, with_ready None (resolvedQueueReady w2) (deadlineQueueReady w2) w2)
      end
  end.

(** Ensure existence of the resolved task queue, in the same way. *)
Definition ensureResolvedQueue (now : Z) : M () := λ w,
  match resolvedQueueReady w with
  | Some ready => (ready, w)
  | None =>
      let '(ready, w1) := call (CreateQueue (resolvedQueue w) None)
                               (createQueue client now (resolvedQueue w) None) w in
      let w2 := with_ready (claimQueueReady w1) (Some ready) (deadlineQueueReady w1) w1 in
      match ready with
      | Ok _ => (ready, w2)
      | Throw err => (Throw err, with_ready (claimQueueReady w2) None (deadlineQueueReady w2) w2)
      end
  end.

(** Ensure existence of the deadline queue, in the same way. *)
Definition ensureDeadlineQueue (now : Z) : M () := λ w,
  match deadlineQueueReady w with
  | Some ready => (ready, w)
  | None =>
      let '(ready, w1) := call (CreateQueue (deadlineQueue w) None)
                               (createQueue client now (deadlineQueue w) None) w in
      let w2 := with_ready (claimQueueReady w1) (resolvedQueueReady w1) (Some ready) w1 in
      match ready with
      | Ok _ => (ready, w2)
      | Throw err => (Throw err, with_ready (claimQueueReady w2) (resolvedQueueReady w2) None w2)
      end
  end.

Definition truthy (s : string) : bool := negb (bool_decide (s = "")).

(** Enqueue message to become visible when claim has expired.  The
    assertions on the types of [runId] and [takenUntil] hold by typing. *)
Definition putClaimMessage (now : Z) (taskId : string) (runId takenUntil : Z) : M () :=
  let* _ := assert (truthy taskId) "taskId must be given" in
  let* _ := ensureClaimQueue now in
  let* queue := gets claimQueue in
  _putMessage now queue
    (JObj [("taskId", JStr taskId); ("runId", JNum runId);
           ("takenUntil", JStr (Date_toJSON takenUntil))])
    (secondsTo takenUntil now) (7 * 24 * 60 * 60).

(** Enqueue message ensure the dependency resolver handles the
    resolution. *)
Definition putResolvedMessage (now : Z) (taskId taskGroupId schedulerId resolution : string)
    : M () :=
  let* _ := assert (truthy taskId) "taskId must be given" in
  let* _ := assert (truthy taskGroupId) "taskGroupId must be given" in
  let* _ := assert (truthy schedulerId) "schedulerId must be given" in
  let* _ := assert (bool_decide (resolution = "completed")
                    || bool_decide (resolution = "failed")
                    || bool_decide (resolution = "exception"))
                   "resolution must be completed, failed or exception" in
  let* _ := ensureResolvedQueue now in
  let* queue := gets resolvedQueue in
  _putMessage now queue
    (JObj [("taskId", JStr taskId); ("taskGroupId", JStr taskGroupId);
           ("schedulerId", JStr schedulerId); ("resolution", JStr resolution)])
    0 (7 * 24 * 60 * 60).

(** Enqueue message to become visible when deadline has expired. *)
Definition putDeadlineMessage (now : Z) (taskId taskGroupId schedulerId : string)
    (deadline : Z) : M () :=
  let* _ := assert (truthy taskId) "taskId must be given" in
  let* _ := assert (truthy taskGroupId) "taskGroupId must be given" in
  let* _ := assert (truthy schedulerId) "schedulerId must be given" in
  let* _ := ensureDeadlineQueue now in
  let* delay := gets (λ w, deadlineDelay w / 1000) in
  let* queue := gets deadlineQueue in
  _putMessage now queue
    (JObj [("taskId", JStr taskId); ("taskGroupId", JStr taskGroupId);
           ("schedulerId", JStr schedulerId); ("deadline", JStr (Date_toJSON deadline))])
    (secondsTo deadline now + delay) (7 * 24 * 60 * 60).


Record ResolvedMessage := {
  rm_taskId : option json;
  rm_taskGroupId : option json;
  rm_schedulerId : option json;
  rm_resolution : option json;
  rm_remove : Z → M ();
}.



(** Poll resolved queue. *)
Definition pollResolvedQueue (now : Z) : M (list ResolvedMessage) :=
  let* _ := ensureResolvedQueue now in
  let* queue := gets resolvedQueue in
  let* messages := _getMessages now queue (10 * 60) 32 in
  lift (map_result (λ m,
    match prop "taskId" (payload m), prop "taskGroupId" (payload m),
          prop "schedulerId" (payload m), prop "resolution" (payload m) with
    | Ok t, Ok g, Ok s, Ok r =>
        Ok {| rm_taskId := t; rm_taskGroupId := g; rm_schedulerId := s;
              rm_resolution := r; rm_remove := remove m |}
    | Throw e, _, _, _ | _, Throw e, _, _ | _, _, Throw e, _ | _, _, _, Throw e => Throw e
    end) messages).


(** *** The pending queues *)

(** The meta-data object the service writes. *)
Definition fresh_metadata (now : Z) (provisionerId workerType : string) : Metadata :=
  <["provisioner_id" := provisionerId]>
    (<["worker_type" := workerType]> (<["last_used" := fromNowJSON now]> ∅)).

(** The test "meta-data is up-to-date" of [_ensureQueueAndMetadata]. *)
Definition up_to_date (now : Z) (provisionerId workerType : string) (metadata : Metadata)
    : bool :=
  let lastUsed := Date_new (JStr <$> metadata !! "last_used") in
  bool_decide (metadata !! "provisioner_id" = Some provisionerId)
  && bool_decide (metadata !! "worker_type" = Some workerType)
  && match lastUsed with
     | None => false
     | Some t => t >? now - 23 * 60 * 60 * 1000
     end.

Definition annotate (queue provisionerId workerType : string) (err : JsError) : JsError :=
  mkError (err_message err) (err_code err) (err_statusCode err) (err_note err)
          (Some queue) (Some provisionerId) (Some workerType).

Definition with_note (note : string) (err : JsError) : JsError :=
  mkError (err_message err) (err_code err) (err_statusCode err) (Some note)
          (err_queue err) (err_provisionerId err) (err_workerType err).

(** The [catch (err)] block of [_ensureQueueAndMetadata]. *)
Definition _ensureQueueAndMetadata_catch (now : Z) (queue provisionerId workerType : string)
    (err : JsError) : M () :=
  if bool_decide (err_code err ≠ Some "QueueNotFound")
     && bool_decide (err_statusCode err ≠ Some 404) then
    throw err
  else
    try_catch
      (call (CreateQueue queue (Some (fresh_metadata now provisionerId workerType)))
            (createQueue client now queue (Some (fresh_metadata now provisionerId workerType))))
      (λ err,
        if bool_decide (err_code err ≠ Some "QueueAlreadyExists") then
          let* _ := reportError (annotate queue provisionerId workerType err) in
          throw (annotate queue provisionerId workerType err)
        else ret ()).

(** [_ensureQueueAndMetadata] from the point where the [await] of
    [getMetadata] has settled to [r]. *)
Definition _ensureQueueAndMetadata_resume (now : Z) (queue provisionerId workerType : string)
    (r : result MetadataResult) : M () :=
  match r with
  | Throw err => _ensureQueueAndMetadata_catch now queue provisionerId workerType err
  | Ok res =>
      match md_metadata res with
      | None =>
          _ensureQueueAndMetadata_catch now queue provisionerId workerType
            (TypeError "Cannot read properties of undefined")
      | Some metadata =>
          if up_to_date now provisionerId workerType metadata then ret ()
          else
            call (SetMetadata queue (fresh_metadata now provisionerId workerType))
                 (setMetadata client now queue (fresh_metadata now provisionerId workerType))
      end
  end.

(** The job in which the promise of [_ensureQueueAndMetadata] settles,
    counted from the one in which the [await] of [getMetadata] is over
    with [r]: that job when the body returns or throws there, the next
    one when it has awaited [createQueue], and the one after that when
    it returns the promise of [setMetadata] (a promise returned from an
    [async] function is first taken up and then passed on). *)
Definition _ensureQueueAndMetadata_jobs (now : Z) (provisionerId workerType : string)
    (r : result MetadataResult) : nat :=
  let catch (err : JsError) : nat :=
    if bool_decide (err_code err ≠ Some "QueueNotFound")
       && bool_decide (err_statusCode err ≠ Some 404) then 0%nat else 1%nat in
  match r with
  | Throw err => catch err
  | Ok res =>
      match md_metadata res with
      | None => catch (TypeError "Cannot read properties of undefined")
      | Some metadata =>
          if up_to_date now provisionerId workerType metadata then 0%nat else 2%nat
      end
  end.

(** The call [this.client.getMetadata(queue)], not yet awaited. *)
Definition getMetadata_call (now : Z) (queue : string) : M MetadataResult :=
  call (GetMetadata queue) (getMetadata client now queue).

(** Ensure that queue with given name exists and has correct
    meta-data. *)
Definition _ensureQueueAndMetadata (now : Z) (queue provisionerId workerType : string)
    : M () := λ w,
  let '(r, w') := getMetadata_call now queue w in
  _ensureQueueAndMetadata_resume now queue provisionerId workerType r w'.

(** [namePrefix] of [ensurePendingQueue]. *)
Definition namePrefix (prefix provisionerId workerType : string) : string :=
  prefix +:+ "-" +:+ hashId provisionerId +:+ "-" +:+ hashId workerType +:+ "-".

(** Mapping from priority to queue name. *)
Definition queue_names (prefix provisionerId workerType : string) : Names :=
  (λ kv : Priority * string, (kv.1, namePrefix prefix provisionerId workerType +:+ kv.2))
    <$> PRIORITY_TO_CONSTANT.

(** The calls [this._ensureQueueAndMetadata(queueName, provisionerId,
    workerType)], one per queue name. *)
Definition shards (now : Z) (provisionerId workerType : string) (names : Names)
    : list (M MetadataResult * (result MetadataResult → M ())) :=
  (λ kv : Priority * string,
     (getMetadata_call now kv.2,
      _ensureQueueAndMetadata_resume now kv.2 provisionerId workerType))
    <$> names.

(** The part of [ensurePendingQueue] after the look-up in the cache.
    The promise is stored under the key as soon as it is made; when it
    rejects, the handler of its [catch] reports the error and puts
    [undefined] in its place. *)
Definition ensurePendingQueue_create (now : Z) (provisionerId workerType : string)
    : M Names :=
  let id := provisionerId +:+ "/" +:+ workerType in
  let* _ := assert (is_identifier provisionerId) "Expected provisionerId to be an identifier" in
  let* _ := assert (is_identifier workerType) "Expected workerType to be an identifier" in
  let* prefix := gets prefix in
  let names := queue_names prefix provisionerId workerType in
  λ w,
    let '(all, w1) :=
      Promise_all_async (shards now provisionerId workerType names)
        (_ensureQueueAndMetadata_jobs now provisionerId workerType) w in
    let promise :=
      match all with
      | Ok _ => Ok names
      | Throw err => Throw (with_note "Failed to ensure azure queue in queueservice.js" err)
      end in
    let w2 := with_queues (<[id := Some promise]> (queues w1)) w1 in
    match promise with
    | Ok names => (Ok names, w2)
    | Throw err =>
        let w3 := with_reported err w2 in
        (Throw err, with_queues (<[id := None]> (queues w3)) w3)
    end.

(** Ensure existence of a queue. *)
Definition ensurePendingQueue (now : Z) (provisionerId workerType : string) : M Names := λ w,
  let id := provisionerId +:+ "/" +:+ workerType in
  match queues w !! id with
  | Some (Some promise) => (promise, w)
  | _ => ensurePendingQueue_create now provisionerId workerType w
  end.

(** The filter "meta-data is missing or 10 days old" of
    [deleteUnusedWorkerQueues]. *)
Definition marked_for_deletion (deleteIfNotUsedSince : Z) (metadata : Metadata) : bool :=
  let lastUsed := Date_new (JStr <$> metadata !! "last_used") in
  falsy (metadata !! "provisioner_id")
  || falsy (metadata !! "worker_type")
  || match lastUsed with
     | None => true
     | Some t => t <? deleteIfNotUsedSince
     end.

(** [queues.filter(({metadata}) => ...)]; the callback throws on a queue
    listed without meta-data. *)
Fixpoint filter_marked (deleteIfNotUsedSince : Z) (listed : list (string * option Metadata))
    : result (list (string * Metadata)) :=
  match listed with
  | [] => Ok []
  | (name, None) :: _ => Throw (TypeError "Cannot read properties of undefined")
  | (name, Some metadata) :: rest =>
      match filter_marked deleteIfNotUsedSince rest with
      | Throw e => Throw e
      | Ok rest' =>
          if marked_for_deletion deleteIfNotUsedSince metadata
          then Ok ((name, metadata) :: rest')
          else Ok rest'
      end
  end.

(** The continuations of the members of the [Promise.all] of
    [deleteUnusedWorkerQueues], each from its settled [getMetadata];
    [deleted] is the shared counter. *)
Fixpoint delete_if_empty (now : Z) (members : list (string * result MetadataResult))
    (deleted : Z) (w : World) : result Z * World :=
  match members with
  | [] => (Ok deleted, w)
  | (name, Throw e) :: rest =>
      let '(_, w') := delete_if_empty now rest deleted w in (Throw e, w')
  | (name, Ok res) :: rest =>
      if md_messageCount res >? 0 then delete_if_empty now rest deleted w
      else
        match call (DeleteQueue name) (deleteQueue client now name) w with
        | (Ok _, w1) => delete_if_empty now rest (deleted + 1) w1
        | (Throw e, w1) =>
            let '(_, w') := delete_if_empty now rest deleted w1 in (Throw e, w')
        end
  end.

(** One round of the [do ... while (marker)] loop: the next marker and
    the counter. *)
Definition deleteUnusedWorkerQueues_page (now deleteIfNotUsedSince : Z)
    (marker : option string) (deleted : Z) : M (option string * Z) :=
  let* prefix := gets prefix in
  let* listed := call (ListQueues marker (prefix +:+ "-"))
                      (listQueues client now marker (prefix +:+ "-")) in
  let* marked := lift (filter_marked deleteIfNotUsedSince (lr_queues listed)) in
  λ w,
    let '(counts, w1) := settle ((λ q : string * Metadata, getMetadata_call now q.1) <$> marked) w in
    match delete_if_empty now (zip (fst <$> marked) counts) deleted w1 with
    | (Ok deleted', w2) => (Ok (lr_nextMarker listed, deleted'), w2)
    | (Throw e, w2) => (Throw e, w2)
    end.

(** The loop, for at most [pages] rounds; [None] when the client keeps
    handing out markers beyond that. *)
Fixpoint deleteUnusedWorkerQueues_loop (pages : nat) (now deleteIfNotUsedSince : Z)
    (marker : option string) (deleted : Z) (w : World) : option (result Z * World) :=
  match pages with
  | O => None
  | Datatypes.S pages' =>
      match deleteUnusedWorkerQueues_page now deleteIfNotUsedSince marker deleted w with
      | (Throw e, w') => Some (Throw e, w')
      | (Ok (marker', deleted'), w') =>
          if falsy marker' then Some (Ok deleted', w')
          else deleteUnusedWorkerQueues_loop pages' now deleteIfNotUsedSince marker' deleted' w'
      end
  end.

(** Remove all worker queues not used since [now - 10 days].  Returns
    number of queues deleted. *)
Definition deleteUnusedWorkerQueues (pages : nat) (now : Z) (w : World)
    : option (result Z * World) :=
  deleteUnusedWorkerQueues_loop pages now (now - 10 * 24 * 60 * 60 * 1000) None 0 w.

(** [slugid.v4()] in the service. *)
Definition slugid : M string := λ w, (Ok (slugid_v4 (slugs w)), with_slug_drawn w).

(** Enqueue message about a new pending task in appropriate queue.
    [validateTask] and the assertion on [runId] check types only, which
    hold by typing. *)
Definition putPendingMessage (now : Z) (task : Task) (runId : Z) : M () :=
  let* queueNames := ensurePendingQueue now (task_provisionerId task) (task_workerType task) in
  let timeToDeadline := secondsTo (task_deadline task) now in
  if timeToDeadline =? 0 then
    λ w, (Ok (), with_console runId (task_taskId task) w)
  else
    let* hintId := slugid in
    _putMessage now (names_get queueNames (task_priority task))
      (JObj [("taskId", JStr (task_taskId task)); ("runId", JNum runId);
             ("hintId", JStr hintId)])
      0 timeToDeadline.

Record PendingMessage := {
  pm_taskId : option json;
  pm_runId : option json;
  pm_hintId : option json;
  pm_remove : Z → M ();
  pm_release : Z → M ();
}.

(** The [poll(count)] function of one queue. *)
Definition poll (queue : string) (now count : Z) : M (list PendingMessage) :=
  let* messages := _getMessages now queue (5 * 60) (Z.min count 32) in
  lift (map_result (λ m,
    match prop "taskId" (payload m), prop "runId" (payload m),
          prop "hintId" (payload m) with
    | Ok t, Ok r, Ok h =>
        Ok {| pm_taskId := t; pm_runId := r; pm_hintId := h;
              pm_remove := remove m; pm_release := release m |}
    | Throw e, _, _ | _, Throw e, _ | _, _, Throw e => Throw e
    end) messages).

(** Return pending queues as list of poll(count) in order of priority. *)
Definition pendingQueues (now : Z) (provisionerId workerType : string)
    : M (list (Z → Z → M (list PendingMessage))) :=
  let* queueNames := ensurePendingQueue now provisionerId workerType in
  let queues := names_get queueNames <$> PRIORITIES in
  ret (poll <$> queues).

(** The body of the refresh of [countPendingMessages]. *)
Definition count_refresh (now : Z) (provisionerId workerType : string) : M Z :=
  let* queueNames := ensurePendingQueue now provisionerId workerType in
  let* results := Promise_all ((λ kv : Priority * string, getMetadata_call now kv.2) <$> queueNames) in
  ret (foldr Z.add 0 (md_messageCount <$> results)).

(** Returns promise for number of messages pending in pending task
    queue. *)
Definition countPendingMessages (now : Z) (provisionerId workerType : string) : M Z := λ w,
  let cacheKey := provisionerId +:+ "/" +:+ workerType in
  let entry := default {| count := Ok 0; lastUpdated := 0 |}
                       (countPendingCache w !! cacheKey) in
  let w := with_countPendingCache (<[cacheKey := entry]> (countPendingCache w)) w in
  if now - lastUpdated entry >? 20 * 1000 then
    let '(r, w') := count_refresh now provisionerId workerType w in
    (r, with_countPendingCache
          (<[cacheKey := {| count := r; lastUpdated := now |}]> (countPendingCache w')) w')
  else (count entry, w).

End Service.
End QueueService.

(** ** A runtime to compute with

    Concrete built-ins for evaluating the methods on examples: JSON text
    for the values whose strings need no escape, base64 over the bytes of
    a string, ISO dates as [toJSON] prints them.  [hashId] stands in for
    the SHA-256 digest, [slugid_v4] numbers its tokens. *)
Module ExampleRuntime.

Definition quote : ascii := ascii_of_nat 34.

Fixpoint join (sep : string) (l : list string) : string :=
  match l with
  | [] => ""
  | [s] => s
  | s :: rest => s +:+ sep +:+ join sep rest
  end.

Fixpoint stringify (j : json) : string :=
  match j with
  | JNull => "null"
  | JBool true => "true"
  | JBool false => "false"
  | JNum n => pretty n
  | JStr s => String quote s +:+ String quote ""
  | JArr l => "[" +:+ join "," (stringify <$> l) +:+ "]"
  | JObj fields =>
      "{" +:+ join "," ((λ kv : string * json,
                          String quote kv.1 +:+ String quote ":" +:+ stringify kv.2)
                        <$> fields) +:+ "}"
  end.

Definition is_digit (c : ascii) : bool :=
  ((48 <=? nat_of_ascii c) && (nat_of_ascii c <=? 57))%nat.

Definition digit (c : ascii) : Z := Z.of_nat (nat_of_ascii c) - 48.

(** The characters up to the closing quote, and what follows it. *)
Fixpoint read_string (cs : list ascii) : option (string * list ascii) :=
  match cs with
  | [] => None
  | c :: rest =>
      if bool_decide (c = quote) then Some ("", rest)
      else '(s, rest') ← read_string rest; Some (String c s, rest')
  end.

Fixpoint read_digits (acc : Z) (cs : list ascii) : Z * list ascii :=
  match cs with
  | c :: rest => if is_digit c then read_digits (10 * acc + digit c) rest else (acc, cs)
  | [] => (acc, [])
  end.

Definition starts (word : string) (cs : list ascii) : option (list ascii) :=
  let w := list_ascii_of_string word in
  if bool_decide (take (length w) cs = w) then Some (drop (length w) cs) else None.

(** A recursive-descent reader; [fuel] bounds the nesting and the number
    of elements. *)
Fixpoint read_value (fuel : nat) (cs : list ascii) : option (json * list ascii) :=
  match fuel with
  | O => None
  | Datatypes.S fuel =>
      let fix read_elements (n : nat) (cs : list ascii) : option (list json * list ascii) :=
        match n with
        | O => None
        | Datatypes.S n =>
            '(v, cs) ← read_value fuel cs;
            match cs with
            | "," :: cs => '(vs, cs) ← read_elements n cs; Some (v :: vs, cs)
            | "]" :: cs => Some ([v], cs)
            | _ => None
            end
        end%char in
      let fix read_fields (n : nat) (cs : list ascii)
          : option (list (string * json) * list ascii) :=
        match n with
        | O => None
        | Datatypes.S n =>
            match cs with
            | c :: cs =>
                if bool_decide (c = quote) then
                  '(k, cs) ← read_string cs;
                  match cs with
                  | ":" :: cs =>
                      '(v, cs) ← read_value fuel cs;
                      match cs with
                      | "," :: cs => '(kvs, cs) ← read_fields n cs; Some ((k, v) :: kvs, cs)
                      | "}" :: cs => Some ([(k, v)], cs)
                      | _ => None
                      end
                  | _ => None
                  end
                else None
            | [] => None
            end
        end%char in
      match cs with
      | "[" :: "]" :: cs => Some (JArr [], cs)
      | "[" :: cs => '(vs, cs) ← read_elements fuel cs; Some (JArr vs, cs)
      | "{" :: "}" :: cs => Some (JObj [], cs)
      | "{" :: cs => '(kvs, cs) ← read_fields fuel cs; Some (JObj kvs, cs)
      | "-" :: c :: cs =>
          if is_digit c then let '(n, cs) := read_digits 0 (c :: cs) in Some (JNum (- n), cs)
          else None
      | c :: cs' =>
          if bool_decide (c = quote) then
            '(s, cs) ← read_string cs'; Some (JStr s, cs)
          else if is_digit c then
            let '(n, cs) := read_digits 0 cs in Some (JNum n, cs)
          else
            match starts "null" cs, starts "true" cs, starts "false" cs with
            | Some cs, _, _ => Some (JNull, cs)
            | _, Some cs, _ => Some (JBool true, cs)
            | _, _, Some cs => Some (JBool false, cs)
            | _, _, _ => None
            end
      | [] => None
      end%char
  end.

Definition parse (s : string) : option json :=
  match read_value (Datatypes.S (String.length s)) (list_ascii_of_string s) with
  | Some (j, []) => Some j
  | _ => None
  end.

(** *** base64 *)

Definition alphabet : list ascii :=
  list_ascii_of_string "ABCDEFGHIJKLMNOPQRSTUVWXYZabcdefghijklmnopqrstuvwxyz0123456789+/".

Definition sextet (n : Z) : ascii := default "="%char (alphabet !! Z.to_nat n).

Fixpoint index_of (c : ascii) (l : list ascii) : option Z :=
  match l with
  | [] => None
  | x :: rest => if bool_decide (x = c) then Some 0 else Z.succ <$> index_of c rest
  end.

Definition byte (c : ascii) : Z := Z.of_nat (nat_of_ascii c).

Fixpoint encode_bytes (cs : list ascii) : list ascii :=
  match cs with
  | [] => []
  | [a] =>
      [sextet (byte a / 4); sextet (byte a mod 4 * 16); "="; "="]%char
  | [a; b] =>
      [sextet (byte a / 4); sextet (byte a mod 4 * 16 + byte b / 16);
       sextet (byte b mod 16 * 4); "="%char]
  | a :: b :: c :: rest =>
      sextet (byte a / 4) :: sextet (byte a mod 4 * 16 + byte b / 16)
      :: sextet (byte b mod 16 * 4 + byte c / 64) :: sextet (byte c mod 64)
      :: encode_bytes rest
  end.

Definition chr (n : Z) : ascii := ascii_of_nat (Z.to_nat n).

Fixpoint decode_chars (fuel : nat) (cs : list ascii) : list ascii :=
  match fuel, cs with
  | Datatypes.S fuel, a :: b :: c :: d :: rest =>
      match index_of a alphabet, index_of b alphabet, index_of c alphabet,
            index_of d alphabet with
      | Some a, Some b, Some c, Some d =>
          chr (a * 4 + b / 16) :: chr (b mod 16 * 16 + c / 4) :: chr (c mod 4 * 64 + d)
          :: decode_chars fuel rest
      | Some a, Some b, Some c, None =>
          [chr (a * 4 + b / 16); chr (b mod 16 * 16 + c / 4)]
      | Some a, Some b, None, _ => [chr (a * 4 + b / 16)]
      | _, _, _, _ => []
      end
  | _, _ => []
  end.

Definition encode (s : string) : string :=
  string_of_list_ascii (encode_bytes (list_ascii_of_string s)).

Definition decode (s : string) : string :=
  string_of_list_ascii (decode_chars (String.length s) (list_ascii_of_string s)).

(** *** ISO dates *)

(** Days since 1970-01-01 to year, month, day and back (proleptic
    Gregorian calendar). *)
Definition civil_from_days (z : Z) : Z * Z * Z :=
  let z := z + 719468 in
  let era := z / 146097 in
  let doe := z - era * 146097 in
  let yoe := (doe - doe / 1460 + doe / 36524 - doe / 146096) / 365 in
  let doy := doe - (365 * yoe + yoe / 4 - yoe / 100) in
  let mp := (5 * doy + 2) / 153 in
  let d := doy - (153 * mp + 2) / 5 + 1 in
  let m := if mp <? 10 then mp + 3 else mp - 9 in
  let y := yoe + era * 400 + (if m <=? 2 then 1 else 0) in
  (y, m, d).

Definition days_from_civil (y m d : Z) : Z :=
  let y := if m <=? 2 then y - 1 else y in
  let era := y / 400 in
  let yoe := y - era * 400 in
  let doy := (153 * (if m >? 2 then m - 3 else m + 9) + 2) / 5 + d - 1 in
  let doe := yoe * 365 + yoe / 4 - yoe / 100 + doy in
  era * 146097 + doe - 719468.

Definition digits (width : nat) (n : Z) : string :=
  let s := pretty n in
  string_of_list_ascii (replicate (width - String.length s) "0"%char) +:+ s.

Definition toJSON (t : Z) : string :=
  let '(y, m, d) := civil_from_days (t / 86400000) in
  let r := t mod 86400000 in
  digits 4 y +:+ "-" +:+ digits 2 m +:+ "-" +:+ digits 2 d +:+ "T"
  +:+ digits 2 (r / 3600000) +:+ ":" +:+ digits 2 (r / 60000 mod 60) +:+ ":"
  +:+ digits 2 (r / 1000 mod 60) +:+ "." +:+ digits 3 (r mod 1000) +:+ "Z".

Definition number (cs : list ascii) : option Z :=
  if forallb is_digit cs then Some (read_digits 0 cs).1 else None.

(** [YYYY-MM-DDTHH:MM:SS.mmmZ] and nothing else. *)
Definition parse_date (s : string) : option Z :=
  let cs := list_ascii_of_string s in
  if bool_decide (length cs = 24%nat)
     && bool_decide ((λ i, default "0"%char (cs !! i)) <$> [4; 7; 10; 13; 16; 19; 23]%nat
                     = list_ascii_of_string "--T::.Z") then
    y ← number (take 4 cs);
    m ← number (take 2 (drop 5 cs));
    d ← number (take 2 (drop 8 cs));
    hh ← number (take 2 (drop 11 cs));
    mm ← number (take 2 (drop 14 cs));
    ss ← number (take 2 (drop 17 cs));
    ms ← number (take 3 (drop 20 cs));
    Some (days_from_civil y m d * 86400000 + hh * 3600000 + mm * 60000 + ss * 1000 + ms)
  else None.

Definition new_Date (v : option json) : option Z :=
  match v with
  | Some (JStr s) => parse_date s
  | Some (JNum n) => Some n
  | Some JNull => Some 0
  | Some (JBool b) => Some (if b then 1 else 0)
  | _ => None
  end.

#[export] Instance runtime : Runtime := {|
  JSON_stringify := stringify;
  JSON_parse := parse;
  base64_encode := encode;
  base64_decode := decode;
  Date_toJSON := toJSON;
  Date_new := new_Date;
  hashId := λ id, "h" +:+ id;
  slugid_v4 := λ n, "slug" +:+ pretty n;
|}.

End ExampleRuntime.

(** ** Example worlds *)
Module Examples.
Import QueueService.
#[export] Existing Instance ExampleRuntime.runtime.

Definition options : Options := {|
  opt_prefix := "wq";
  opt_claimQueue := "claim-queue";
  opt_resolvedQueue := "resolved-queue";
  opt_deadlineQueue := "deadline-queue";
  opt_deadlineDelay := None;
|}.

(** A fresh service around a client in state [c]; the constructor
    accepts [options]. *)
Definition world_on {S} (c : S) : World (S := S) :=
  match constructor options c with
  | Ok w => w
  | Throw _ =>
      {| client_state := c; calls := []; prefix := "";
         queues := ∅; claimQueue := ""; claimQueueReady := None;
         resolvedQueue := ""; resolvedQueueReady := None; deadlineQueue := "";
         deadlineDelay := 0; deadlineQueueReady := None; countPendingCache := ∅;
         reported := []; console := []; slugs := 0 |}
  end.

(** A fresh service over a fresh in-memory client. *)
Definition world0 : World (S := FakeQueueClient.t) := world_on FakeQueueClient._reset.

(** The state after a method, whatever it settled to. *)
Definition after {S A} (m : M (S := S) A) (w : World) : World := (m w).2.

Definition task1 (deadline : Z) : Task := {|
  task_taskId := "task-1";
  task_provisionerId := "prov1";
  task_workerType := "wt1";
  task_deadline := deadline;
  task_priority := medium;
|}.

Definition overloaded : JsError :=
  plainError "The server is busy" (Some "ServerBusy") (Some 503).

(** A client that fails every call. *)
Definition failingClient : QueueClient () := {|
  createQueue := λ _ _ _ s, (Throw overloaded, s);
  getMetadata := λ _ _ s, (Throw overloaded, s);
  setMetadata := λ _ _ _ s, (Throw overloaded, s);
  putMessage := λ _ _ _ _ _ s, (Throw overloaded, s);
  getMessages := λ _ _ _ _ s, (Throw overloaded, s);
  deleteMessage := λ _ _ _ _ s, (Throw overloaded, s);
  updateMessage := λ _ _ _ _ _ _ s, (Throw overloaded, s);
  listQueues := λ _ _ _ s, (Throw overloaded, s);
  deleteQueue := λ _ _ s, (Throw overloaded, s);
|}.

(** A client on which every creation loses the race: the queue is not
    found, and then it exists already. *)
Definition racingClient : QueueClient () := {|
  createQueue := λ _ _ _ s,
    (Throw (plainError "The specified queue already exists"
              (Some "QueueAlreadyExists") (Some 409)), s);
  getMetadata := λ _ _ s, (Throw (plainError "" None (Some 404)), s);
  setMetadata := λ _ _ _ s, (Throw overloaded, s);
  putMessage := λ _ _ _ _ _ s, (Throw overloaded, s);
  getMessages := λ _ _ _ _ s, (Throw overloaded, s);
  deleteMessage := λ _ _ _ _ s, (Throw overloaded, s);
  updateMessage := λ _ _ _ _ _ _ s, (Throw overloaded, s);
  listQueues := λ _ _ _ s, (Throw overloaded, s);
  deleteQueue := λ _ _ s, (Throw overloaded, s);
|}.

(** The pending queue of medium priority of [task1]. *)
Definition medium_queue : string := "wq-hprov1-hwt1-4".

(** The queue family of [task1], ensured at time 100000, then a pending
    message put one second later for a deadline at 900000. *)
Definition world_family : World (S := FakeQueueClient.t) :=
  after (countPendingMessages fakeClient 100000 "prov1" "wt1") world0.

Definition world_pending : World (S := FakeQueueClient.t) :=
  after (putPendingMessage fakeClient 101000 (task1 900000) 0) world_family.

(** A queue whose meta-data has a recent [last_used] and nothing else. *)
Definition history_unnamed : list (Z * Call) :=
  [(1000000, CreateQueue "wq-x" (Some (<["last_used" := Date_toJSON 1000000]> ∅)))].

Definition world_unnamed : World (S := FakeQueueClient.t) :=
  world_on (perform_all fakeClient history_unnamed FakeQueueClient._reset).

(** [n] claim messages, run ids [0] to [n - 1], all put at time 1000 for
    a claim that ends at time 5000. *)
Fixpoint claims (n : nat) : World (S := FakeQueueClient.t) :=
  match n with
  | O => world0
  | Datatypes.S n => after (putClaimMessage fakeClient 1000 "task-1" (Z.of_nat n) 5000) (claims n)
  end.

(** What a settled method returned, or the default. *)
Definition returned {S A} (d : A) (r : result A * World (S := S)) : A :=
  match r.1 with Ok a => a | Throw _ => d end.

(** A queue "q" and a message put on it at time 1000 with a TTL of one
    hour. *)
Definition payload1 : json := JObj [("a", JNum 1)].

Definition history_queue : list (Z * Call) := [(0, CreateQueue "q" None)].

Definition world_queue : World (S := FakeQueueClient.t) :=
  world_on (perform_all fakeClient history_queue FakeQueueClient._reset).

Definition world_put : World (S := FakeQueueClient.t) :=
  after (_putMessage fakeClient 1000 "q" payload1 0 3600) world_queue.





(** A resolved message put at time 1000 on a fresh service. *)
Definition world_resolved : World (S := FakeQueueClient.t) :=
  after (putResolvedMessage fakeClient 1000 "task-1" "group-1" "sched-1" "completed") world0.

(** The queue family of [task1] ensured at time 100000 on a fresh
    service, and a pending message put at that time for a deadline at
    900000. *)
Definition world_ensured : World (S := FakeQueueClient.t) :=
  after (ensurePendingQueue fakeClient 100000 "prov1" "wt1") world0.

Definition world_task : World (S := FakeQueueClient.t) :=
  after (putPendingMessage fakeClient 100000 (task1 900000) 0) world0.

(** The one message of the queue "q" of [world_put] as it is stored, and
    as the fetch at time 2000 with a lease of 300 seconds hands it
    out. *)
Definition stored_first : FakeQueueClient.Message :=
  default {| FakeQueueClient.m_messageText := "none"; FakeQueueClient.m_messageId := "none";
             FakeQueueClient._visibleAfter := 0; FakeQueueClient._expiresAfter := 0;
             FakeQueueClient._popReceipt := None |}
          (head (default [] (FakeQueueClient.queues (client_state world_put) !! "q"))).

Definition lease_fetch : result (list FetchedMessage) * FakeQueueClient.t :=
  FakeQueueClient.getMessages 2000 "q" 300 1 (client_state world_put).

Definition leased_first : FetchedMessage :=
  default {| messageText := "none"; messageId := "none"; popReceipt := "none" |}
          (head (match lease_fetch.1 with Ok l => l | Throw _ => [] end)).

(** A service around the client that fails every call. *)
Definition world_failing : World (S := ()) := world_on ().

Definition beingDeleted : JsError :=
  plainError "The specified queue is being deleted" (Some "QueueBeingDeleted") (Some 409).

(** A client on which the queue of highest priority of [task1] is not
    found and cannot be created, and every other call fails. *)
Definition stagedClient : QueueClient () := {|
  createQueue := λ _ _ _ s, (Throw beingDeleted, s);
  getMetadata := λ _ name s,
    if bool_decide (name = "wq-hprov1-hwt1-7") then (Throw FakeQueueClient.QueueNotFound, s)
    else (Throw overloaded, s);
  setMetadata := λ _ _ _ s, (Throw overloaded, s);
  putMessage := λ _ _ _ _ _ s, (Throw overloaded, s);
  getMessages := λ _ _ _ _ s, (Throw overloaded, s);
  deleteMessage := λ _ _ _ _ s, (Throw overloaded, s);
  updateMessage := λ _ _ _ _ _ _ s, (Throw overloaded, s);
  listQueues := λ _ _ _ s, (Throw overloaded, s);
  deleteQueue := λ _ _ s, (Throw overloaded, s);
|}.

(** A client whose first [createQueue] fails and whose later ones
    succeed; its state counts the calls of [createQueue]. *)
Definition recoveringClient : QueueClient nat := {|
  createQueue := λ _ _ _ s,
    (match s with O => Throw overloaded | _ => Ok () end, Datatypes.S s);
  getMetadata := λ _ _ s, (Throw overloaded, s);
  setMetadata := λ _ _ _ s, (Throw overloaded, s);
  putMessage := λ _ _ _ _ _ s, (Throw overloaded, s);
  getMessages := λ _ _ _ _ s, (Throw overloaded, s);
  deleteMessage := λ _ _ _ _ s, (Throw overloaded, s);
  updateMessage := λ _ _ _ _ _ _ s, (Throw overloaded, s);
  listQueues := λ _ _ _ s, (Throw overloaded, s);
  deleteQueue := λ _ _ s, (Throw overloaded, s);
|}.

Definition world_recovering : World (S := nat) := world_on O.

(** A queue "q" whose meta-data names [task1]'s identifiers and has a
    [last_used] of time 5000000000. *)
Definition history_ahead : list (Z * Call) :=
  [(5000000000, CreateQueue "q" (Some (fresh_metadata 5000000000 "prov1" "wt1")))].

Definition world_ahead : World (S := FakeQueueClient.t) :=
  world_on (perform_all fakeClient history_ahead FakeQueueClient._reset).

End Examples.

(** * Specification vocabulary *)

Import QueueService.

(** ** The service *)

Section ServiceVocabulary.
Context `{Runtime} {S : Type} (client : QueueClient S).

(** The range of the time value of a [Date], and two dates whose
    difference is a number that JavaScript has exactly. *)
Definition valid_date (t : Z) : Prop := Z.abs t ≤ 8640000000000000.

Definition exact_difference (target relativeTo : Z) : Prop :=
  Z.abs (target - relativeTo) ≤ 2 ^ 53.

(** The "queue not found" condition of the [catch] block. *)
Definition not_found (err : JsError) : Prop :=
  err_code err = Some "QueueNotFound" ∨ err_statusCode err = Some 404.

(** The meta-data is there, names both identifiers, and its [last_used]
    is a valid date later than 23 hours before [now]; a date after [now]
    is one. *)
Definition metadata_current now (provisionerId workerType : string) (r : result MetadataResult)
    : Prop :=
  ∃ res metadata t,
    r = Ok res ∧ md_metadata res = Some metadata
    ∧ metadata !! "provisioner_id" = Some provisionerId
    ∧ metadata !! "worker_type" = Some workerType
    ∧ Date_new (JStr <$> metadata !! "last_used") = Some t
    ∧ now - 23 * 60 * 60 * 1000 < t.

(** What the [catch] block of [_ensureQueueAndMetadata] receives, if
    anything: the rejection of [getMetadata], or the error of reading
    the meta-data of a result that has none. *)
Definition caught (r : result MetadataResult) (err : JsError) : Prop :=
  r = Throw err
  ∨ ∃ res, r = Ok res ∧ md_metadata res = None
           ∧ err = TypeError "Cannot read properties of undefined".

(** Among promises given with the job in which each settles, the one at
    position [i] rejects with [e] in job [t], and no other rejects
    before it: not in an earlier job, and not in the same job from an
    earlier position. *)
Definition comes_first {A} (rs : list (nat * result A)) (i t : nat) (e : JsError) : Prop :=
  rs !! i = Some (t, Throw e)
  ∧ ∀ j t' e', rs !! j = Some (t', Throw e') → (t < t')%nat ∨ (t = t' ∧ (i ≤ j)%nat).

(** The cache holds a promise for the key. *)
Definition cached (w : World (S := S)) (id : string) : Prop :=
  ∃ promise, queues w !! id = Some (Some promise).

(** Every promise the cache holds is fulfilled, with a queue name for
    each of the seven priorities. *)
Definition cache_sound (w : World (S := S)) : Prop :=
  ∀ id promise, queues w !! id = Some (Some promise) →
    ∃ names, promise = Ok names ∧ fst <$> names = PRIORITIES.

(** How [poll] presents a message the client handed out: the three
    properties of the decoded payload, [remove] bound to [deleteMessage]
    and [release] bound to [updateMessage] with visibility timeout 0. *)
Definition presents (queue : string) (f : FetchedMessage) (pm : PendingMessage (S := S)) : Prop :=
  ∃ payload,
    JSON_parse (base64_decode (messageText f)) = Some payload
    ∧ pm_taskId pm = json_get "taskId" payload
    ∧ pm_runId pm = json_get "runId" payload
    ∧ pm_hintId pm = json_get "hintId" payload
    ∧ pm_remove pm
      = (λ now, call (DeleteMessage queue (messageId f) (popReceipt f))
                     (deleteMessage client now queue (messageId f) (popReceipt f)))
    ∧ pm_release pm
      = (λ now, call (UpdateMessage queue (messageText f) (messageId f) (popReceipt f) 0)
                     (updateMessage client now queue (messageText f) (messageId f)
                        (popReceipt f) 0)).

End ServiceVocabulary.

(** ** The in-memory client *)

Section ClientVocabulary.
Context `{Runtime}.

Implicit Types (c : FakeQueueClient.t) (m : FakeQueueClient.Message)
  (queue : list FakeQueueClient.Message) (now : Z) (name : string).

(** [m] is in the queue [name] of the client. *)
Definition stored c name m : Prop :=
  ∃ queue, FakeQueueClient.queues c !! name = Some queue ∧ m ∈ queue.

(** The message put by [putMessage]. *)
Definition put_message now (text : string) (vis ttl : Z) c : FakeQueueClient.Message :=
  {| FakeQueueClient.m_messageText := text;
     FakeQueueClient.m_messageId := slugid_v4 (FakeQueueClient.draws c);
     FakeQueueClient._visibleAfter := fromNow now vis;
     FakeQueueClient._expiresAfter := fromNow now ttl;
     FakeQueueClient._popReceipt := None |}.

(** The states of the client after any history of calls. *)
Inductive reachable : FakeQueueClient.t → Prop :=
| reachable_reset : reachable FakeQueueClient._reset
| reachable_perform now call c :
    reachable c → reachable (perform fakeClient now call c).

(** Every stored message has a token of the stream, drawn already, as
    its id. *)
Definition drawn c : Prop :=
  ∀ name m, stored c name m →
    ∃ k, (k < FakeQueueClient.draws c)%nat ∧ FakeQueueClient.m_messageId m = slugid_v4 k.

(** Every queue has its meta-data. *)
Definition described c : Prop :=
  ∀ name, is_Some (FakeQueueClient.queues c !! name)
          → is_Some (FakeQueueClient.metadata c !! name).

(** No message of the queue has the id. *)
Definition absent (id : string) c name : Prop :=
  ∀ m, stored c name m → FakeQueueClient.m_messageId m ≠ id.

(** Every message of the queue with the id is invisible until [gate] at
    least and has never been handed out. *)
Definition gated (id : string) (gate : Z) c name : Prop :=
  ∀ m, stored c name m → FakeQueueClient.m_messageId m = id →
    gate ≤ FakeQueueClient._visibleAfter m ∧ FakeQueueClient._popReceipt m = None.

(** Every message of the queue with the id has the text. *)
Definition carries (id text : string) c name : Prop :=
  ∀ m, stored c name m → FakeQueueClient.m_messageId m = id →
    FakeQueueClient.m_messageText m = text.

(** The id is a token drawn already. *)
Definition spent (id : string) c : Prop :=
  ∃ k, (k < FakeQueueClient.draws c)%nat ∧ id = slugid_v4 k.


(** What [getMetadata] answers for a queue of the client. *)
Definition reading c name : MetadataResult :=
  {| md_metadata := FakeQueueClient.metadata c !! name;
     md_messageCount :=
       Z.of_nat (length (default [] (FakeQueueClient.queues c !! name))) |}.

(** The names of the queues a round deletes: those whose count is not
    above zero. *)
Definition emptied (counts : list (string * MetadataResult)) : list string :=
  fst <$> filter (λ x, ¬ (0 < md_messageCount x.2)) counts.

(** The meta-data names both identifiers and a valid [last_used] not
    more than 10 days before [now]. *)
Definition in_use now (md : Metadata) : Prop :=
  falsy (md !! "provisioner_id") = false
  ∧ falsy (md !! "worker_type") = false
  ∧ ∃ t, Date_new (JStr <$> md !! "last_used") = Some t
         ∧ now - 10 * 24 * 60 * 60 * 1000 ≤ t.

(** Within a queue, no two messages have the same id. *)
Definition unique c : Prop :=
  ∀ name queue, FakeQueueClient.queues c !! name = Some queue
    → NoDup (FakeQueueClient.m_messageId <$> queue).

(** Every message of the queue with the id of [f] carries the receipt
    of [f]. *)
Definition holds_receipt (f : FetchedMessage) c name : Prop :=
  ∀ m, stored c name m → FakeQueueClient.m_messageId m = messageId f →
    FakeQueueClient._popReceipt m = Some (popReceipt f).


(** Every message of the queue with the id stays invisible until [gate]
    at least. *)
Definition hidden (id : string) (gate : Z) c name : Prop :=
  ∀ m, stored c name m → FakeQueueClient.m_messageId m = id →
    gate ≤ FakeQueueClient._visibleAfter m.

(** Every message of the queue with the id expires at [expiry]. *)
Definition expires (id : string) (expiry : Z) c name : Prop :=
  ∀ m, stored c name m → FakeQueueClient.m_messageId m = id →
    FakeQueueClient._expiresAfter m = expiry.

(** The call is not an [updateMessage] for the id: it does not release
    a message with the id. *)
Definition keeps_lease (id : string) (call : Call) : Prop :=
  match call with
  | UpdateMessage _ _ id' _ _ => id' ≠ id
  | _ => True
  end.

(** The call does not take the message with the id out of the queue: it
    is no [deleteMessage] for the id on the queue and no [deleteQueue]
    or [createQueue] of the queue. *)
Definition keeps_message name (id : string) (call : Call) : Prop :=
  match call with
  | DeleteMessage name' id' _ => name' ≠ name ∨ id' ≠ id
  | DeleteQueue name' => name' ≠ name
  | CreateQueue name' _ => name' ≠ name
  | _ => True
  end.

End ClientVocabulary.

(** ** Proof automation *)

(** Put [<$>] back where [simpl] has unfolded it. *)
Ltac refold_fmap :=
  repeat match goal with
         | |- context [list_fmap ?A ?B ?f ?l] =>
             progress change (list_fmap A B f l) with (f <$> l)
         | Hyp : context [list_fmap ?A ?B ?f ?l] |- _ =>
             progress change (list_fmap A B f l) with (f <$> l) in Hyp
         end.

(** Close a goal about closed terms by evaluation. *)
Ltac evaluate :=
  repeat match goal with |- _ ∧ _ => split end;
  lazymatch goal with
  | |- @eq ?A _ ?b => vm_cast_no_check (@eq_refl A b)
  | _ => vm_compute; first [reflexivity | discriminate | exact I | intro; discriminate]
  end.

(** Close a goal about closed terms by bringing both sides to normal
    form. *)
Ltac normalise :=
  repeat match goal with |- _ ∧ _ => split end;
  vm_compute; first [reflexivity | discriminate | exact I | intro; discriminate].

(** * Properties *)

(** ** Seconds to a date *)

Lemma ceil_div_spec (x : Z) :
  x ≤ ceil_div x 1000 * 1000 ∧ ceil_div x 1000 * 1000 < x + 1000.
Proof.
  unfold ceil_div.
  pose proof (Z.div_mod (- x) 1000 ltac:(lia)) as Hdm.
  pose proof (Z.mod_pos_bound (- x) 1000 ltac:(lia)) as Hb.
  lia.
Qed.

Lemma secondsTo_ge_1 (target now : Z) : 1 ≤ secondsTo target now.
Proof. unfold secondsTo. lia. Qed.

Lemma secondsTo_past (target now : Z) : target ≤ now → secondsTo target now = 1.
Proof.
  intros Hpast. unfold secondsTo.
  pose proof (ceil_div_spec (target - now)). lia.
Qed.

(** The date [secondsTo] seconds from now is not before the target. *)
Lemma secondsTo_covers (target now : Z) : target ≤ fromNow now (secondsTo target now).
Proof.
  unfold fromNow, secondsTo.
  pose proof (ceil_div_spec (target - now)). lia.
Qed.

(** For a target in the future it is less than a second after it. *)
Lemma secondsTo_margin (target now : Z) :
  now < target → fromNow now (secondsTo target now) < target + 1000.
Proof.
  unfold fromNow, secondsTo. intros Hfuture.
  pose proof (ceil_div_spec (target - now)). lia.
Qed.

Section Generic.
Context `{Runtime} {S : Type} (client : QueueClient S).

Implicit Types (w : World (S := S)) (now : Z).

Lemma call_calls {A} (c : Call) (method : S → result A * S) w :
  calls (call c method w).2 = calls w ++ [c].
Proof. unfold call. destruct (method _); reflexivity. Qed.

Lemma call_spec {A} (c : Call) (method : S → result A * S) w :
  call c method w = ((method (client_state w)).1,
                     with_client (method (client_state w)).2 c w).
Proof. unfold call. destruct (method _); reflexivity. Qed.

(** Once its queue family is there, [putPendingMessage] goes on to
    [putMessage] whatever the deadline: the time to the deadline is never
    zero. *)
Lemma putPendingMessage_publishes now task runId w names w1 :
  ensurePendingQueue client now (task_provisionerId task) (task_workerType task) w
    = (Ok names, w1) →
  putPendingMessage client now task runId w
  = _putMessage client now (names_get names (task_priority task))
      (JObj [("taskId", JStr (task_taskId task)); ("runId", JNum runId);
             ("hintId", JStr (slugid_v4 (slugs w1)))])
      0 (secondsTo (task_deadline task) now) (with_slug_drawn w1).
Proof.
  intros Hensure. unfold putPendingMessage, bind. rewrite Hensure.
  pose proof (secondsTo_ge_1 (task_deadline task) now) as Hpos.
  destruct (Z.eqb_spec (secondsTo (task_deadline task) now) 0) as [Hz|_]; [lia|].
  reflexivity.
Qed.

(** C1, what the code does: for every task whose deadline is at or
    before the current time, [putPendingMessage], once the queue family
    is ensured, calls [putMessage] on the shard of the task's priority
    with a TTL of one second and logs nothing: the publish is not
    dropped.  The test [timeToDeadline === 0] cannot succeed because
    [secondsTo] is at least one. *)
Theorem putPendingMessage_after_deadline_publishes now task runId w names w1 :
  task_deadline task ≤ now →
  ensurePendingQueue client now (task_provisionerId task) (task_workerType task) w
    = (Ok names, w1) →
  let w2 := (putPendingMessage client now task runId w).2 in
  (∃ text, calls w2
           = calls w1 ++ [PutMessage (names_get names (task_priority task)) text 0 1])
  ∧ console w2 = console w1.
Proof.
  intros Hpast Hensure w2. subst w2.
  rewrite (putPendingMessage_publishes _ _ _ _ _ _ Hensure).
  rewrite (secondsTo_past _ _ Hpast).
  unfold _putMessage. rewrite call_spec. simpl. eauto.
Qed.

(** *** [putResolvedMessage] *)





(** *** [_ensureQueueAndMetadata] *)

Lemma up_to_date_spec now provisionerId workerType (metadata : Metadata) :
  up_to_date now provisionerId workerType metadata = true ↔
  metadata !! "provisioner_id" = Some provisionerId
  ∧ metadata !! "worker_type" = Some workerType
  ∧ ∃ t, Date_new (JStr <$> metadata !! "last_used") = Some t
         ∧ now - 23 * 60 * 60 * 1000 < t.
Proof.
  unfold up_to_date. rewrite !andb_true_iff, !bool_decide_eq_true.
  destruct (Date_new _) as [t|].
  - rewrite Z.gtb_lt. split.
    + intros [[? ?] ?]. eauto.
    + intros (? & ? & t' & [= <-] & ?). done.
  - split; [intros [_ [=]] | intros (_ & _ & t & [=] & _)].
Qed.

Lemma not_found_test (err : JsError) :
  bool_decide (err_code err ≠ Some "QueueNotFound")
  && bool_decide (err_statusCode err ≠ Some 404) = false ↔ not_found err.
Proof.
  unfold not_found. rewrite andb_false_iff, !bool_decide_eq_false.
  split.
  - intros [Hn|Hn]; [left|right]; by apply dec_stable.
  - intros [He|He]; [left|right]; intros Hne; by apply Hne.
Qed.

(** From the settled [getMetadata] on, [_ensureQueueAndMetadata] takes
    one of three ways: it stops when the meta-data is current, it calls
    [setMetadata] when other meta-data is there, and it goes through the
    [catch] block with what the block receives. *)
Lemma ensureQueueAndMetadata_resume_cases now queue provisionerId workerType
    (r : result MetadataResult) w :
  let fresh := fresh_metadata now provisionerId workerType in
  let resumed := _ensureQueueAndMetadata_resume client now queue provisionerId workerType r w in
  (metadata_current now provisionerId workerType r ∧ resumed = (Ok (), w))
  ∨ (¬ metadata_current now provisionerId workerType r
     ∧ ((∃ res metadata, r = Ok res ∧ md_metadata res = Some metadata
           ∧ resumed = call (SetMetadata queue fresh) (setMetadata client now queue fresh) w)
        ∨ (∃ err, caught r err
             ∧ resumed
               = _ensureQueueAndMetadata_catch client now queue provisionerId workerType err w))).
Proof.
  intros fresh resumed. subst resumed. unfold _ensureQueueAndMetadata_resume, metadata_current.
  destruct r as [res|err].
  - destruct (md_metadata res) as [metadata|] eqn:Hmd.
    + destruct (up_to_date now provisionerId workerType metadata) eqn:Hup.
      * left. apply up_to_date_spec in Hup as (Hp & Hw & t & Ht & Hlt).
        split; [|done]. exists res, metadata, t. done.
      * right. split; [|left; eauto].
        intros (res' & metadata' & t & [= <-] & Hmd' & Hp & Hw & Ht & Hlt).
        rewrite Hmd in Hmd'. injection Hmd' as <-.
        assert (up_to_date now provisionerId workerType metadata = true) as Hup'.
        { apply up_to_date_spec. eauto. }
        congruence.
    + right. split.
      * intros (res' & metadata' & t & [= <-] & Hmd' & _). congruence.
      * right. eexists. split; [|done]. right. eauto.
  - right. split.
    + intros (res' & metadata' & t & [=] & _).
    + right. exists err. split; [by left|done].
Qed.

(** The four ways through the [catch] block. *)
Lemma ensureQueueAndMetadata_catch_cases now queue provisionerId workerType err w :
  let fresh := fresh_metadata now provisionerId workerType in
  let caught := _ensureQueueAndMetadata_catch client now queue provisionerId workerType err w in
  let created :=
    call (CreateQueue queue (Some fresh)) (createQueue client now queue (Some fresh)) w in
  (¬ not_found err → caught = (Throw err, w))
  ∧ (not_found err →
     (created.1 = Ok () → caught = created)
     ∧ (∀ err', created.1 = Throw err' → err_code err' = Some "QueueAlreadyExists" →
          caught = (Ok (), created.2))
     ∧ (∀ err', created.1 = Throw err' → err_code err' ≠ Some "QueueAlreadyExists" →
          caught = (Throw (annotate queue provisionerId workerType err'),
                    with_reported (annotate queue provisionerId workerType err') created.2))).
Proof.
  intros fresh caught0 created. subst caught0 created fresh.
  unfold _ensureQueueAndMetadata_catch. split.
  - intros Hnf. destruct (_ && _) eqn:Htest; [done|].
    by apply not_found_test in Htest.
  - intros Hnf. apply not_found_test in Hnf. rewrite Hnf.
    unfold try_catch, bind, reportError, throw, ret.
    destruct (call _ _ w) as [[[]|e] w1]; cbn [fst snd].
    + split; [done|]. split; intros err' [=].
    + split; [done|]. split; intros err' [= <-] Hcode.
      * by rewrite bool_decide_eq_false_2 by (intros ?; done).
      * by rewrite bool_decide_eq_true_2.
Qed.

(** C4, as the code has it.  After its one call of [getMetadata],
    [_ensureQueueAndMetadata] makes no further client call in two cases
    and in these only: the meta-data is there, names the two identifiers
    and has a valid [last_used] later than 23 hours before now, and then
    the method returns without error; or the call failed with an error
    that is not a "queue not found" condition (or gave no meta-data
    object), and then the method throws that error.  With other meta-data
    it is the call [setMetadata] with fresh meta-data, whose result it
    settles to.  On a "queue not found" error (by code or by status 404)
    it is the call [createQueue] with the fresh meta-data: when that
    succeeds the method returns, when it fails with [QueueAlreadyExists]
    the method returns without error and reports nothing, and any other
    failure is annotated, reported and thrown. *)
Theorem ensureQueueAndMetadata_cases now queue provisionerId workerType w :
  let fresh := fresh_metadata now provisionerId workerType in
  let got := getMetadata_call client now queue w in
  let done := _ensureQueueAndMetadata client now queue provisionerId workerType w in
  got = ((getMetadata client now queue (client_state w)).1,
         with_client (getMetadata client now queue (client_state w)).2 (GetMetadata queue) w)
  ∧ (calls done.2 = calls w ++ [GetMetadata queue]
     ↔ metadata_current now provisionerId workerType got.1
       ∨ ∃ err, caught got.1 err ∧ ¬ not_found err)
  ∧ (metadata_current now provisionerId workerType got.1 → done = (Ok (), got.2))
  ∧ (∀ err, caught got.1 err → ¬ not_found err → done = (Throw err, got.2))
  ∧ (∀ res metadata,
       got.1 = Ok res → md_metadata res = Some metadata →
       ¬ metadata_current now provisionerId workerType got.1 →
       done = call (SetMetadata queue fresh) (setMetadata client now queue fresh) got.2
       ∧ calls done.2 = calls w ++ [GetMetadata queue; SetMetadata queue fresh])
  ∧ (∀ err,
       caught got.1 err → not_found err →
       let created :=
         call (CreateQueue queue (Some fresh)) (createQueue client now queue (Some fresh)) got.2 in
       calls done.2 = calls w ++ [GetMetadata queue; CreateQueue queue (Some fresh)]
       ∧ (created.1 = Ok () → done = created)
       ∧ (∀ err', created.1 = Throw err' → err_code err' = Some "QueueAlreadyExists" →
            done = (Ok (), created.2) ∧ reported done.2 = reported w)
       ∧ (∀ err', created.1 = Throw err' → err_code err' ≠ Some "QueueAlreadyExists" →
            done = (Throw (annotate queue provisionerId workerType err'),
                    with_reported (annotate queue provisionerId workerType err') created.2))).
Proof.
  intros fresh got done. subst done got.
  unfold _ensureQueueAndMetadata.
  pose proof (call_calls (GetMetadata queue) (getMetadata client now queue) w) as Hcalls.
  pose proof (call_spec (GetMetadata queue) (getMetadata client now queue) w) as Hgot.
  fold (getMetadata_call client now queue) in Hcalls, Hgot.
  split; [exact Hgot|].
  assert (reported (getMetadata_call client now queue w).2 = reported w) as Hrep
    by (by rewrite Hgot).
  clear Hgot.
  destruct (getMetadata_call client now queue w) as [r w1]. cbn [fst snd] in *.
  assert (∀ (A : Type) (c : Call) (method : S → result A * S),
            calls (call c method w1).2 ≠ calls w ++ [GetMetadata queue]) as Hmore.
  { intros A c method Hc. rewrite call_calls, Hcalls in Hc.
    apply (f_equal length) in Hc. rewrite !length_app in Hc. simpl in Hc. lia. }
  assert (∀ err, not_found err →
            calls (_ensureQueueAndMetadata_catch client now queue provisionerId workerType
                     err w1).2
            = calls w ++ [GetMetadata queue; CreateQueue queue (Some fresh)]) as Hcreate.
  { intros err Hnf.
    destruct (ensureQueueAndMetadata_catch_cases now queue provisionerId workerType err w1)
      as [_ Hcatch].
    destruct (Hcatch Hnf) as (Hok & Hexists & Hother). fold fresh in Hok, Hexists, Hother.
    pose proof (call_calls (CreateQueue queue (Some fresh))
                  (createQueue client now queue (Some fresh)) w1) as Hc.
    rewrite Hcalls, <- app_assoc in Hc.
    destruct (call (CreateQueue queue (Some fresh)) _ w1) as [[[]|e] w2] eqn:Hcr;
      cbn [fst snd] in *.
    - by rewrite Hok.
    - destruct (decide (err_code e = Some "QueueAlreadyExists")) as [Hcode|Hcode].
      + by rewrite (Hexists e eq_refl Hcode).
      + by rewrite (Hother e eq_refl Hcode). }
  destruct (ensureQueueAndMetadata_resume_cases now queue provisionerId workerType r w1)
    as [[Hcur Hdone]|[Hstale [(res & metadata & -> & Hmd & Hdone)|(err & Hcaught & Hdone)]]];
    fold fresh in Hdone; rewrite Hdone; clear Hdone.
  - split; [split; [by left|done]|]. split; [done|].
    split; [|split].
    + intros err [->|(res & -> & Hmd & ->)] _;
        destruct Hcur as (res' & metadata & t & [= <-] & Hmd' & _); congruence.
    + intros res metadata -> Hmd Hstale. done.
    + intros err [->|(res & -> & Hmd & ->)] _;
        destruct Hcur as (res' & metadata & t & [= <-] & Hmd' & _); congruence.
  - split; [|split; [done|split; [|split]]].
    + split; [intros Hc; by apply Hmore in Hc|].
      intros [Hcur|(err & [[=]|(res' & [= <-] & Hmd' & _)] & _)]; [done|congruence].
    + intros err [[=]|(res' & [= <-] & Hmd' & _)]. congruence.
    + intros res' metadata' [= <-] _ _. split; [done|].
      by rewrite call_calls, Hcalls, <- app_assoc.
    + intros err [[=]|(res' & [= <-] & Hmd' & _)]. congruence.
  - assert (∀ err', caught r err' → err' = err) as Hsame.
    { intros err' Hc'.
      destruct Hcaught as [->|(res & -> & Hmd & ->)], Hc' as [Heq|(res' & Heq & Hmd' & ->)];
        congruence. }
    destruct (ensureQueueAndMetadata_catch_cases now queue provisionerId workerType err w1)
      as [Hthrow Hcatch]. fold fresh in Hcatch.
    split; [|split; [done|split; [|split]]].
    + split.
      * intros Hc. right. exists err. split; [done|]. intros Hnf.
        rewrite (Hcreate err Hnf) in Hc. apply app_inv_head in Hc. done.
      * intros [Hcur|(err' & Hc' & Hnf)]; [done|].
        apply Hsame in Hc' as ->. by rewrite (Hthrow Hnf).
    + intros err' Hc' Hnf. apply Hsame in Hc' as ->. by apply Hthrow.
    + intros res metadata -> Hmd _.
      destruct Hcaught as [[=]|(res' & [= <-] & Hmd' & _)]. congruence.
    + intros err' Hc' Hnf. apply Hsame in Hc' as ->.
      destruct (Hcatch Hnf) as (Hok & Hexists & Hother).
      split; [by apply Hcreate|]. split; [done|]. split; [|done].
      intros err' Hcr Hcode. rewrite (Hexists err' Hcr Hcode). split; [done|].
      cbn [snd]. rewrite call_spec. cbn [snd reported with_client]. done.
Qed.

(** *** [Promise.all] *)

Lemma settle_length {A} (members : list (M (S := S) A)) w :
  length (settle members w).1 = length members.
Proof.
  revert w. induction members as [|m members IH]; intros w; [done|].
  simpl. destruct (m w) as [r w1]. specialize (IH w1).
  destruct (settle members w1) as [rs w2]. simpl in *. by rewrite IH.
Qed.

Lemma settle_async_length {A B} (members : list (M (S := S) A * (result A → M B))) w :
  length (settle_async members w).1 = length members.
Proof.
  unfold settle_async.
  pose proof (settle_length (fst <$> members) w) as Hlen.
  destruct (settle (fst <$> members) w) as [awaited w1]. cbn [fst] in Hlen.
  rewrite settle_length, length_zip_with, Hlen, length_fmap. lia.
Qed.

Lemma settled_at_length {A B} (members : list (M (S := S) A * (result A → M B)))
    (jobs : result A → nat) w :
  length (settled_at members jobs w) = length members.
Proof. unfold settled_at. by rewrite length_fmap, settle_length, length_fmap. Qed.

Lemma first_rejection_Throw {A} (rs : list (result A)) :
  (∃ e, Throw e ∈ rs) ↔ ∃ e, first_rejection rs = Throw e.
Proof.
  induction rs as [|[a|e] rs IH]; simpl.
  - split; intros [e He]; [by apply elem_of_nil in He | done].
  - split.
    + intros [e He]. apply elem_of_cons in He as [[=]|He].
      destruct IH as [IH _]. destruct (IH (ex_intro _ e He)) as [e' ->]. eauto.
    + destruct (first_rejection rs); [by intros [? [=]]|].
      intros _. destruct IH as [_ IH]. destruct IH as [e' He']; [eauto|].
      exists e'. by right.
  - split; intros _; [eauto | exists e; by left].
Qed.

(** Without a rejection the order in time plays no part. *)
Lemma first_rejection_in_time_Ok {A} (times : list nat) (rs : list (result A)) (l : list A) :
  length times = length rs → first_rejection rs = Ok l →
  first_rejection_in_time (zip times rs) = Ok l.
Proof.
  revert times l. induction rs as [|[a|e] rs IH]; intros [|t times] l Hlen; try done.
  simpl. destruct (first_rejection rs) as [l'|] eqn:Hrs; [|done].
  intros [= <-]. rewrite (IH times l'); [done|by injection Hlen|done].
Qed.

Lemma earliest_comes_first {A} (pre rest : list (nat * result A)) (i t : nat) (e : JsError) :
  comes_first pre i t e →
  ∃ i' t', comes_first (pre ++ rest) i' t' (earliest t e rest).
Proof.
  revert pre i t e. induction rest as [|[t' [a|e']] rest IH]; intros pre i t e Hfirst.
  - rewrite app_nil_r. eauto.
  - simpl. rewrite cons_middle, app_assoc. apply (IH _ i).
    destruct Hfirst as [Hi Hmin]. split; [by apply lookup_app_l_Some|].
    intros j t'' e'' Hj. apply lookup_app_Some in Hj as [Hj|[Hlen Hj]]; [eauto|].
    by apply list_lookup_singleton_Some in Hj as [_ [=]].
  - simpl. rewrite cons_middle, app_assoc. destruct Hfirst as [Hi Hmin].
    destruct (Nat.ltb_spec t' t) as [Hlt|Hge].
    + apply (IH _ (length pre)). split.
      * rewrite lookup_app_r by lia. by rewrite Nat.sub_diag.
      * intros j t'' e'' Hj. apply lookup_app_Some in Hj as [Hj|[Hlen Hj]].
        -- destruct (Hmin _ _ _ Hj); left; lia.
        -- apply list_lookup_singleton_Some in Hj as [Hz [= <- <-]].
           right. split; [done|lia].
    + apply (IH _ i). split; [by apply lookup_app_l_Some|].
      intros j t'' e'' Hj. apply lookup_app_Some in Hj as [Hj|[Hlen Hj]]; [eauto|].
      apply list_lookup_singleton_Some in Hj as [Hz [= <- <-]].
      apply lookup_lt_Some in Hi. destruct (decide (t = t')); [right|left]; lia.
Qed.

Lemma first_rejection_in_time_after {A} (pre rest : list (nat * result A)) (e : JsError) :
  Forall (λ x, is_ok x.2 = true) pre →
  first_rejection_in_time rest = Throw e →
  ∃ i t, comes_first (pre ++ rest) i t e.
Proof.
  revert pre. induction rest as [|[t [a|e0]] rest IH]; intros pre Hpre; simpl; [done|..].
  - destruct (first_rejection_in_time rest) as [l|e'] eqn:Hrest; [done|].
    intros [= <-]. rewrite cons_middle, app_assoc. apply IH; [|done].
    apply Forall_app. split; [done|]. by apply Forall_singleton.
  - intros [= <-]. rewrite cons_middle, app_assoc.
    apply (earliest_comes_first _ _ (length pre)). split.
    + rewrite lookup_app_r by lia. by rewrite Nat.sub_diag.
    + intros j t' e' Hj. apply lookup_app_Some in Hj as [Hj|[Hlen Hj]].
      * rewrite Forall_lookup in Hpre. by apply Hpre in Hj.
      * apply list_lookup_singleton_Some in Hj as [Hz [= <- <-]]. right. split; [done|lia].
Qed.

Lemma first_rejection_in_time_values {A} (times : list nat) (rs : list (result A))
    (l : list A) :
  length times = length rs → first_rejection_in_time (zip times rs) = Ok l →
  first_rejection rs = Ok l.
Proof.
  revert times l. induction rs as [|[a|e] rs IH]; intros [|t times] l Hlen; try done.
  simpl. destruct (first_rejection_in_time (zip times rs)) as [l'|] eqn:Hz; [|done].
  intros [= <-]. rewrite (IH times l'); [done|by injection Hlen|done].
Qed.

(** A rejected [Promise.all] carries the rejection that came first in
    time. *)
Lemma first_rejection_in_time_Throw {A} (times : list nat) (rs : list (result A)) :
  length times = length rs → (∃ e, Throw e ∈ rs) →
  ∃ i t e, first_rejection_in_time (zip times rs) = Throw e
           ∧ comes_first (zip times rs) i t e.
Proof.
  intros Hlen Hrej.
  destruct (first_rejection_in_time (zip times rs)) as [l|e] eqn:Hall.
  - apply (first_rejection_in_time_values _ _ _ Hlen) in Hall.
    apply first_rejection_Throw in Hrej as [e He]. congruence.
  - destruct (first_rejection_in_time_after [] _ e (Forall_nil_2 _) Hall) as (i & t & Hfirst).
    eauto.
Qed.

(** *** [ensurePendingQueue] *)

Lemma queue_names_full (prefix provisionerId workerType : string) :
  fst <$> queue_names prefix provisionerId workerType = PRIORITIES
  ∧ ∀ pr c, (pr, c) ∈ PRIORITY_TO_CONSTANT →
      names_get (queue_names prefix provisionerId workerType) pr
      = namePrefix prefix provisionerId workerType +:+ c.
Proof.
  split; [reflexivity|].
  intros pr c Hin. unfold PRIORITY_TO_CONSTANT in Hin.
  rewrite !elem_of_cons, elem_of_nil in Hin.
  repeat destruct Hin as [[= -> ->]|Hin]; try reflexivity. done.
Qed.

Lemma ensurePendingQueue_miss now provisionerId workerType w :
  ¬ cached w (provisionerId +:+ "/" +:+ workerType) →
  ensurePendingQueue client now provisionerId workerType w
  = ensurePendingQueue_create client now provisionerId workerType w.
Proof.
  intros Hmiss. unfold ensurePendingQueue.
  destruct (queues w !! _) as [[promise|]|] eqn:Hq; try done.
  exfalso. apply Hmiss. by exists promise.
Qed.

Lemma ensurePendingQueue_create_eq now provisionerId workerType w :
  is_identifier provisionerId = true → is_identifier workerType = true →
  let id := provisionerId +:+ "/" +:+ workerType in
  let names := queue_names (prefix w) provisionerId workerType in
  let members := shards client now provisionerId workerType names in
  let settled := settle_async members w in
  let times :=
    settled_at members (_ensureQueueAndMetadata_jobs now provisionerId workerType) w in
  ensurePendingQueue_create client now provisionerId workerType w
  = match first_rejection_in_time (zip times settled.1) with
    | Ok _ => (Ok names, with_queues (<[id := Some (Ok names)]> (queues settled.2)) settled.2)
    | Throw err =>
        let err := with_note "Failed to ensure azure queue in queueservice.js" err in
        (Throw err,
         with_queues (<[id := None]> (queues settled.2)) (with_reported err settled.2))
    end.
Proof.
  intros Hp Hw id names members settled times. subst settled times.
  unfold ensurePendingQueue_create, bind, assert, gets, ret, Promise_all_async.
  rewrite Hp, Hw. cbv beta iota zeta. fold id names members.
  destruct (settle_async members w) as [rs w']. cbn [fst snd].
  destruct (first_rejection_in_time _) as [l|e]; [done|].
  cbn [queues with_queues with_reported]. by rewrite insert_insert_eq.
Qed.

Lemma ensureQueueAndMetadata_resume_queues now queue provisionerId workerType
    (r : result MetadataResult) w :
  queues (_ensureQueueAndMetadata_resume client now queue provisionerId workerType r w).2
  = queues w.
Proof.
  assert (∀ err w0,
            queues (_ensureQueueAndMetadata_catch client now queue provisionerId workerType
                      err w0).2 = queues w0) as Hcatch.
  { intros err w0.
    unfold _ensureQueueAndMetadata_catch, try_catch, bind, reportError, throw, ret.
    destruct (_ && _); [done|]. rewrite call_spec.
    destruct (createQueue _ _ _ _ _).1; [done|]. by destruct (bool_decide _). }
  unfold _ensureQueueAndMetadata_resume. destruct r as [res|err]; [|apply Hcatch].
  destruct (md_metadata res); [|apply Hcatch].
  destruct (up_to_date _ _ _ _); [done|]. by rewrite call_spec.
Qed.

Lemma settle_queues {A} (members : list (M (S := S) A)) w :
  Forall (λ m, ∀ w0, queues (m w0).2 = queues w0) members →
  queues (settle members w).2 = queues w.
Proof.
  intros Hkeep. revert w. induction Hkeep as [|m members Hm _ IH]; intros w; [done|].
  simpl. specialize (Hm w). destruct (m w) as [r w1]. specialize (IH w1).
  destruct (settle members w1) as [rs w2]. simpl in *. congruence.
Qed.

(** The shard calls leave the cache alone. *)
Lemma shards_queues now provisionerId workerType (names : Names) w :
  queues (settle_async (shards client now provisionerId workerType names) w).2 = queues w.
Proof.
  unfold settle_async.
  pose proof (settle_queues (fst <$> shards client now provisionerId workerType names) w)
    as Hfirst.
  destruct (settle (fst <$> _) w) as [awaited w1]. cbn [snd] in Hfirst.
  rewrite settle_queues, Hfirst; [done|..].
  - apply Forall_fmap, Forall_forall. intros mb Hmb w0.
    apply list_elem_of_fmap in Hmb as ([pr q] & -> & _). cbn.
    unfold getMetadata_call. by rewrite call_spec.
  - apply Forall_forall. intros m Hm.
    apply elem_of_zip_with in Hm as (mb & r & -> & Hmb & _).
    apply list_elem_of_fmap in Hmb as ([pr q] & -> & _). cbn.
    intros w0. apply ensureQueueAndMetadata_resume_queues.
Qed.

Lemma no_rejection_Ok {A} (rs : list (result A)) :
  (∀ e, Throw e ∉ rs) → ∃ l, first_rejection rs = Ok l.
Proof.
  intros Hnone. destruct (first_rejection rs) as [l|e] eqn:Hrs; [eauto|].
  destruct (first_rejection_Throw rs) as [_ Hrej].
  destruct Hrej as [e' He']; [eauto|]. by apply Hnone in He'.
Qed.

(** C8: in [ensurePendingQueue] a promise in the cache is returned as it
    is, without any client call.  Otherwise, with well-formed
    identifiers, the promise made is stored under the key, and when one
    of the seven shard calls fails it rejects: the error thrown is the
    rejection that came first in time among the shards, with the note
    attached, it is reported, and the handler puts [undefined] in the
    place of the promise, so that the next call goes through the
    creation again.  When no shard call fails, the value returned is the
    map from all seven priorities to the queue names, the cache holds
    it, and the next call returns it from there.  A cache that holds
    fulfilled promises of full name maps only stays so: no later call
    gets a failure or a partial map from it. *)
Theorem ensurePendingQueue_cache now provisionerId workerType w :
  let note := "Failed to ensure azure queue in queueservice.js" in
  let id := provisionerId +:+ "/" +:+ workerType in
  let names := queue_names (prefix w) provisionerId workerType in
  let members := shards client now provisionerId workerType names in
  let settled := settle_async members w in
  let times :=
    settled_at members (_ensureQueueAndMetadata_jobs now provisionerId workerType) w in
  let done := ensurePendingQueue client now provisionerId workerType w in
  (∀ promise, queues w !! id = Some (Some promise) → done = (promise, w))
  ∧ (cache_sound w →
     cache_sound done.2
     ∧ ∀ err, done.1 = Throw err →
         ¬ cached done.2 id
         ∧ ∀ now', ensurePendingQueue client now' provisionerId workerType done.2
                   = ensurePendingQueue_create client now' provisionerId workerType done.2)
  ∧ (¬ cached w id → is_identifier provisionerId = true → is_identifier workerType = true →
     ((∃ e, Throw e ∈ settled.1) →
        ∃ i t e,
          comes_first (zip times settled.1) i t e
          ∧ done.1 = Throw (with_note note e)
          ∧ reported done.2 = reported settled.2 ++ [with_note note e]
          ∧ client_state done.2 = client_state settled.2
          ∧ queues done.2 = <[id := None]> (queues w)
          ∧ ∀ now', ensurePendingQueue client now' provisionerId workerType done.2
                    = ensurePendingQueue_create client now' provisionerId workerType done.2)
     ∧ ((∀ e, Throw e ∉ settled.1) →
        done.1 = Ok names
        ∧ reported done.2 = reported settled.2
        ∧ client_state done.2 = client_state settled.2
        ∧ queues done.2 = <[id := Some (Ok names)]> (queues w)
        ∧ fst <$> names = PRIORITIES
        ∧ (∀ pr c, (pr, c) ∈ PRIORITY_TO_CONSTANT →
             names_get names pr = namePrefix (prefix w) provisionerId workerType +:+ c)
        ∧ ∀ now', ensurePendingQueue client now' provisionerId workerType done.2
                  = (Ok names, done.2))).
Proof.
  intros note id names members settled times done. subst done.
  assert (length times = length settled.1) as Hlen.
  { subst times settled. by rewrite settled_at_length, settle_async_length. }
  pose proof (shards_queues now provisionerId workerType names w) as Hkeep.
  fold members settled in Hkeep.
  assert (¬ cached w id → is_identifier provisionerId = true →
          is_identifier workerType = true →
          ensurePendingQueue client now provisionerId workerType w
          = match first_rejection_in_time (zip times settled.1) with
            | Ok _ =>
                (Ok names, with_queues (<[id := Some (Ok names)]> (queues w)) settled.2)
            | Throw err =>
                (Throw (with_note note err),
                 with_queues (<[id := None]> (queues w))
                   (with_reported (with_note note err) settled.2))
            end) as Hcreate.
  { intros Hmiss Hp Hw. rewrite (ensurePendingQueue_miss _ _ _ _ Hmiss).
    rewrite (ensurePendingQueue_create_eq _ _ _ _ Hp Hw). cbv zeta.
    fold id names members settled times. by rewrite Hkeep. }
  split; [|split].
  - intros promise Hhit. unfold ensurePendingQueue. fold id. by rewrite Hhit.
  - intros Hsound.
    destruct (queues w !! id) as [[promise|]|] eqn:Hq.
    { unfold ensurePendingQueue. fold id. rewrite Hq. split; [done|].
      intros err Herr. cbn [fst] in Herr. subst promise.
      by destruct (Hsound id _ Hq) as (names' & [=] & _). }
    all: assert (¬ cached w id) as Hmiss by (intros [promise Hc]; congruence).
    all: clear Hq; revert Hmiss Hsound Hcreate; generalize (queues w !! id); intros _.
    all: intros Hmiss Hsound Hcreate.
    all: assert (∀ w', queues w' !! id = Some None ∨ queues w' = queues w →
                   ¬ cached w' id
                   ∧ ∀ now', ensurePendingQueue client now' provisionerId workerType w'
                             = ensurePendingQueue_create client now' provisionerId
                                 workerType w') as Hout.
    1,3: intros w' Hw'; assert (¬ cached w' id) as Hmiss';
         [|split; [done|intros now'; by apply ensurePendingQueue_miss]].
    1,2: destruct Hw' as [Hc|Hc]; intros [promise Hc'];
         [|rewrite Hc in Hc'; apply Hmiss; by exists promise]; congruence.
    all: destruct (is_identifier provisionerId) eqn:Hp;
           [destruct (is_identifier workerType) eqn:Hw|].
    all: try (assert (∃ msg, ensurePendingQueue client now provisionerId workerType w
                             = (Throw (AssertionError msg), w)) as [msg ->]
                by (rewrite (ensurePendingQueue_miss _ _ _ _ Hmiss);
                    unfold ensurePendingQueue_create, bind, assert, throw, ret;
                    rewrite Hp, ?Hw; eauto);
              cbn [fst snd]; split; [done|]; intros err _; apply Hout; by right).
    all: rewrite (Hcreate Hmiss eq_refl eq_refl).
    all: destruct (first_rejection_in_time _) as [l|e]; cbn [fst snd].
    all: split; [|try done; intros err _; apply Hout; left;
                  cbn [queues with_queues with_reported]; by rewrite lookup_insert_eq].
    all: intros id' promise Hc; cbn [queues with_queues with_reported] in Hc.
    all: apply lookup_insert_Some in Hc as [[_ Heq]|[_ Hc]]; [|by apply (Hsound id')].
    all: first [discriminate Heq
               |injection Heq as <-; exists names; split; [done|apply queue_names_full]].
  - intros Hmiss Hp Hw. rewrite (Hcreate Hmiss Hp Hw). split.
    + intros Hrej.
      destruct (first_rejection_in_time_Throw times settled.1 Hlen Hrej)
        as (i & t & e & -> & Hfirst).
      exists i, t, e. cbn [fst snd reported client_state queues with_queues with_reported].
      repeat (split; [done|]).
      intros now'. apply ensurePendingQueue_miss. intros [promise Hc].
      cbn [queues with_queues with_reported] in Hc. by rewrite lookup_insert_eq in Hc.
    + intros Hnone. destruct (no_rejection_Ok _ Hnone) as [l Hl].
      rewrite (first_rejection_in_time_Ok _ _ _ Hlen Hl).
      cbn [fst snd reported client_state queues with_queues].
      repeat (split; [done|]).
      destruct (queue_names_full (prefix w) provisionerId workerType) as [Hfull Hget].
      repeat (split; [done|]).
      intros now'. unfold ensurePendingQueue. fold id.
      cbn [queues with_queues]. by rewrite lookup_insert_eq.
Qed.

(** *** [countPendingMessages] *)

(** The refresh, once the queue family and the seven meta-data reads have
    succeeded, is the sum of the message counts. *)
Lemma count_refresh_sum now provisionerId workerType w names w1 results w2 :
  ensurePendingQueue client now provisionerId workerType w = (Ok names, w1) →
  Promise_all ((λ kv : Priority * string, getMetadata_call client now kv.2) <$> names) w1
    = (Ok results, w2) →
  count_refresh client now provisionerId workerType w
  = (Ok (foldr Z.add 0 (md_messageCount <$> results)), w2).
Proof.
  intros Hensure Hall. unfold count_refresh, bind, ret.
  by rewrite Hensure, Hall.
Qed.


(** *** [pendingQueues] *)

Lemma map_result_Forall2 {A B} (f : A → result B) (l : list A) (l' : list B) :
  map_result f l = Ok l' ↔ Forall2 (λ a b, f a = Ok b) l l'.
Proof.
  revert l'. induction l as [|a l IH]; intros l'; simpl.
  - split; [intros [= <-]; constructor | by inversion 1].
  - destruct (f a) as [b|e] eqn:Hfa.
    + destruct (map_result f l) as [bs|e].
      * split.
        -- intros [= <-]. constructor; [done|]. by apply IH.
        -- inversion 1 as [|? b' ? bs' Hb Hbs]; subst.
           apply IH in Hbs. congruence.
      * split; [done|]. inversion 1 as [|? b' ? bs' Hb Hbs]; subst.
        by apply IH in Hbs.
    + split; [done|]. inversion 1; congruence.
Qed.

(** [poll(count)] is one [getMessages] call, for [min(count, 32)]
    messages and a visibility timeout of 300 seconds; what it returns
    presents the messages of that call one by one. *)
Lemma poll_spec queue now count w :
  let got := getMessages client now queue 300 (Z.min count 32) (client_state w) in
  let done := poll client queue now count w in
  done.2 = with_client got.2 (GetMessages queue 300 (Z.min count 32)) w
  ∧ (∀ e, got.1 = Throw e → done.1 = Throw e)
  ∧ (∀ msgs, done.1 = Ok msgs →
       ∃ fetched, got.1 = Ok fetched ∧ Forall2 (presents client queue) fetched msgs).
Proof.
  intros got done. subst got done.
  unfold poll, _getMessages, bind, lift. rewrite call_spec.
  change (5 * 60) with 300.
  destruct (getMessages client now queue 300 (Z.min count 32) (client_state w))
    as [[fetched|e] s]; cbn [fst snd].
  2: { split; [done|]. split; [by intros e' [= <-]|done]. }
  split; [|split; [done|]].
  - by destruct (map_result (received client queue) fetched).
  - intros msgs Hmsgs. exists fetched. split; [done|].
    destruct (map_result (received client queue) fetched) as [rms|e] eqn:Hrms; [|done].
    cbn [fst] in Hmsgs.
    destruct (map_result _ rms) as [pms|e] eqn:Hpms; [|done].
    cbn [fst] in Hmsgs. injection Hmsgs as <-.
    apply map_result_Forall2 in Hrms. apply map_result_Forall2 in Hpms.
    clear -Hrms Hpms. revert pms Hpms.
    induction Hrms as [|f rm fetched rms Hf _ IH]; intros pms Hpms.
    + inversion Hpms. constructor.
    + inversion Hpms as [|? pm ? pms' Hpm Hpms']; subst. constructor; [|by apply IH].
      unfold received in Hf.
      destruct (JSON_parse (base64_decode (messageText f))) as [payload|] eqn:Hparse;
        [|done].
      injection Hf as <-. exists payload. cbn [QueueService.payload remove release] in Hpm.
      unfold prop in Hpm. destruct payload; try done.
      all: by injection Hpm as <-.
Qed.

(** *** [_getMessages] and the polls of the expiration queues *)

(** [_getMessages] is one [getMessages] call; what it returns wraps the
    messages of that call one by one. *)
Lemma _getMessages_spec queue now visibility count w :
  let got := getMessages client now queue visibility count (client_state w) in
  let done := _getMessages client now queue visibility count w in
  done.2 = with_client got.2 (GetMessages queue visibility count) w
  ∧ (∀ msgs, done.1 = Ok msgs →
       ∃ fetched, got.1 = Ok fetched
         ∧ Forall2 (λ f rm, received client queue f = Ok rm) fetched msgs).
Proof.
  intros got done. subst got done.
  unfold _getMessages, bind, lift. rewrite call_spec.
  destruct (getMessages client now queue visibility count (client_state w))
    as [[fetched|e] s]; cbn [fst snd]; [|done].
  split; [by destruct (map_result (received client queue) fetched)|].
  intros msgs Hmsgs. exists fetched. split; [done|].
  destruct (map_result (received client queue) fetched) as [rms|e] eqn:Hrms; [|done].
  cbn [fst] in Hmsgs. injection Hmsgs as <-. by apply map_result_Forall2.
Qed.

Lemma received_payload queue (f : FetchedMessage) rm :
  received client queue f = Ok rm →
  JSON_parse (base64_decode (messageText f)) = Some (payload rm)
  ∧ remove rm = (λ now, call (DeleteMessage queue (messageId f) (popReceipt f))
                             (deleteMessage client now queue (messageId f) (popReceipt f)))
  ∧ release rm
    = (λ now, call (UpdateMessage queue (messageText f) (messageId f) (popReceipt f) 0)
                   (updateMessage client now queue (messageText f) (messageId f)
                      (popReceipt f) 0)).
Proof.
  unfold received. destruct (JSON_parse _) as [p|]; [|done]. by intros [= <-].
Qed.

Lemma Forall2_elem_of_l {A B} (P : A → B → Prop) (l : list A) (k : list B) (a : A) :
  Forall2 P l k → a ∈ l → ∃ b, b ∈ k ∧ P a b.
Proof.
  intros HP [i Hi]%list_elem_of_lookup.
  destruct (Forall2_lookup_l _ _ _ _ _ HP Hi) as (b & Hb & Hab).
  exists b. split; [by eapply list_elem_of_lookup_2|done].
Qed.



End Generic.

(** ** The in-memory client *)

Section Fake.
Context `{Runtime}.

Abbreviation Message := FakeQueueClient.Message.
Abbreviation visible := FakeQueueClient.visible.
Abbreviation leased := FakeQueueClient.leased.
Abbreviation updated := FakeQueueClient.updated.
Abbreviation handed_out := FakeQueueClient.handed_out.

Implicit Types (c : FakeQueueClient.t) (m : Message) (queue : list Message)
  (now : Z) (name : string).

(** *** The loop of [getMessages] *)

Lemma getMessages_loop_spec now vt n queue rv d queue' out d' :
  FakeQueueClient.getMessages_loop now vt n queue rv d = (queue', out, d') →
  (d ≤ d')%nat
  ∧ ∃ new, out = rv ++ new
    ∧ Forall2 (λ m m', m' = m
                 ∨ (visible now m = true
                    ∧ ∃ k, (d ≤ k < d')%nat ∧ m' = leased vt (slugid_v4 k) m
                           ∧ handed_out (slugid_v4 k) m ∈ new)) queue queue'
    ∧ Forall (λ f, ∃ m k, m ∈ queue ∧ visible now m = true ∧ (d ≤ k < d')%nat
                          ∧ f = handed_out (slugid_v4 k) m) new.
Proof.
  revert rv d queue' out d'.
  induction queue as [|m queue IH]; intros rv d queue' out d'; simpl.
  - intros [= <- <- <-]. split; [lia|]. exists []. rewrite app_nil_r.
    split; [done|]. split; constructor.
  - destruct (visible now m) eqn:Hvis.
    + destruct (Z.of_nat (length (rv ++ [handed_out (slugid_v4 d) m])) =? n).
      * intros [= <- <- <-]. split; [lia|].
        exists [handed_out (slugid_v4 d) m]. split; [done|]. split.
        -- constructor.
           ++ right. split; [done|]. exists d. split; [lia|]. split; [done|]. by left.
           ++ clear. induction queue; constructor; [by left|done].
        -- constructor; [|constructor]. exists m, d. split; [by left|]. split; [done|].
           split; [lia|done].
      * destruct (FakeQueueClient.getMessages_loop now vt n queue _ (S d))
          as [[rest' out'] d''] eqn:Hloop.
        intros [= <- <- <-].
        apply IH in Hloop as (Hd & new & -> & Hrel & Hnew).
        split; [lia|]. exists (handed_out (slugid_v4 d) m :: new).
        split; [by rewrite <- app_assoc|]. split.
        -- constructor.
           ++ right. split; [done|]. exists d. split; [lia|]. split; [done|]. by left.
           ++ eapply Forall2_impl; [exact Hrel|]. intros m1 m2 [->|(Hv & k & Hk & -> & Hin)].
              ** by left.
              ** right. split; [done|]. exists k. split; [lia|]. split; [done|]. by right.
        -- constructor.
           ++ exists m, d. split; [by left|]. split; [done|]. split; [lia|done].
           ++ eapply Forall_impl; [exact Hnew|]. intros f (m1 & k & Hin & Hv & Hk & ->).
              exists m1, k. split; [by right|]. split; [done|]. split; [lia|done].
    + destruct (FakeQueueClient.getMessages_loop now vt n queue rv d)
        as [[rest' out'] d''] eqn:Hloop.
      intros [= <- <- <-].
      apply IH in Hloop as (Hd & new & -> & Hrel & Hnew).
      split; [lia|]. exists new. split; [done|]. split.
      * constructor; [by left|done].
      * eapply Forall_impl; [exact Hnew|]. intros f (m1 & k & Hin & Hv & Hk & ->).
        exists m1, k. split; [by right|]. done.
Qed.

(** With a limit of at least one, the loop hands out at most that many
    messages. *)
Lemma getMessages_loop_bound now vt n queue rv d :
  Z.of_nat (length rv) < n →
  Z.of_nat (length (FakeQueueClient.getMessages_loop now vt n queue rv d).1.2) ≤ n.
Proof.
  revert rv d. induction queue as [|m queue IH]; intros rv d Hrv; simpl; [lia|].
  destruct (visible now m).
  - destruct (Z.eqb_spec (Z.of_nat (length (rv ++ [handed_out (slugid_v4 d) m]))) n)
      as [Heq|Hne]; simpl; [lia|].
    specialize (IH (rv ++ [handed_out (slugid_v4 d) m]) (S d)).
    destruct (FakeQueueClient.getMessages_loop now vt n queue _ (S d)) as [[rest' out'] d''].
    simpl in *. apply IH. rewrite length_app in *. simpl in *. lia.
  - specialize (IH rv d Hrv).
    by destruct (FakeQueueClient.getMessages_loop now vt n queue rv d) as [[rest' out'] d''].
Qed.

(** A visible message is handed out, and leased, when fewer visible
    messages than the limit come before it in the queue. *)
Lemma getMessages_loop_delivers now vt n pre m post rv d :
  visible now m = true →
  Z.of_nat (length rv + length (filter (λ m, visible now m) pre)) < n →
  let done := FakeQueueClient.getMessages_loop now vt n (pre ++ m :: post) rv d in
  ∃ k, handed_out (slugid_v4 k) m ∈ done.1.2
    ∧ done.1.1 !! length pre = Some (leased vt (slugid_v4 k) m)
    ∧ length done.1.1 = length (pre ++ m :: post).
Proof.
  intros Hvis. revert rv d.
  induction pre as [|m0 pre IH]; intros rv d Hlimit; simpl.
  - rewrite Hvis.
    destruct (Z.of_nat (length (rv ++ [handed_out (slugid_v4 d) m])) =? n).
    + exists d. simpl. split; [|done].
      apply elem_of_app. right. by left.
    + destruct (FakeQueueClient.getMessages_loop now vt n post _ (S d))
        as [[rest' out'] d''] eqn:Hloop.
      pose proof Hloop as Hspec.
      apply getMessages_loop_spec in Hspec as (_ & new & -> & Hrel & _).
      exists d. simpl. split; [|split; [done|]].
      * rewrite <- app_assoc. apply elem_of_app. right. by left.
      * f_equal. symmetry. by eapply Forall2_length.
  - rewrite filter_cons in Hlimit.
    destruct (visible now m0) eqn:Hvis0.
    + rewrite decide_True in Hlimit by done. simpl in Hlimit.
      destruct (Z.eqb_spec (Z.of_nat (length (rv ++ [handed_out (slugid_v4 d) m0]))) n)
        as [Heq|Hne].
      { rewrite length_app in Heq. simpl in Heq. lia. }
      specialize (IH (rv ++ [handed_out (slugid_v4 d) m0]) (S d)).
      destruct (FakeQueueClient.getMessages_loop now vt n (pre ++ m :: post) _ (S d))
        as [[rest' out'] d''] eqn:Hloop.
      simpl in *. destruct IH as (k & Hin & Hat & Hlen).
      { rewrite length_app. simpl. lia. }
      exists k. split; [done|]. split; [done|]. by rewrite Hlen.
    + rewrite decide_False in Hlimit by (by intros []).
      specialize (IH rv d Hlimit).
      destruct (FakeQueueClient.getMessages_loop now vt n (pre ++ m :: post) rv d)
        as [[rest' out'] d''] eqn:Hloop.
      simpl in *. destruct IH as (k & Hin & Hat & Hlen).
      exists k. split; [done|]. split; [done|]. by rewrite Hlen.
Qed.

(** *** [deleteMessage] and [updateMessage] *)

Lemma deleteMessage_filter_Ok (id pop : string) queue queue' :
  FakeQueueClient.deleteMessage_filter id pop queue = Ok queue' →
  queue' = filter (λ m, FakeQueueClient.m_messageId m ≠ id) queue.
Proof.
  revert queue'. induction queue as [|m queue IH]; intros queue'; simpl.
  - by intros [= <-].
  - rewrite filter_cons. case_bool_decide as Hid.
    + rewrite decide_False by (intros Hne; by apply Hne).
      case_bool_decide; [|done]. apply IH.
    + rewrite decide_True by done.
      destruct (FakeQueueClient.deleteMessage_filter id pop queue) as [rest|e]; [|done].
      intros [= <-]. f_equal. by apply IH.
Qed.

(** The filter goes through when every message with the id carries the
    receipt, and fails otherwise. *)
Lemma deleteMessage_filter_total (id pop : string) queue :
  (Forall (λ m, FakeQueueClient.m_messageId m = id
                → FakeQueueClient._popReceipt m = Some pop) queue
   ∧ FakeQueueClient.deleteMessage_filter id pop queue
     = Ok (filter (λ m, FakeQueueClient.m_messageId m ≠ id) queue))
  ∨ ((∃ m, m ∈ queue ∧ FakeQueueClient.m_messageId m = id
           ∧ FakeQueueClient._popReceipt m ≠ Some pop)
     ∧ FakeQueueClient.deleteMessage_filter id pop queue
       = Throw FakeQueueClient.receiptMismatch).
Proof.
  induction queue as [|m queue IH]; simpl.
  - left. split; [constructor|done].
  - rewrite filter_cons. case_bool_decide as Hid.
    + rewrite decide_False by (intros Hne; by apply Hne).
      case_bool_decide as Hpop.
      * destruct IH as [[Hall ->]|[(m' & Hin & Hm') ->]].
        -- left. split; [|done]. by constructor.
        -- right. split; [|done]. exists m'. split; [by right|done].
      * right. split; [|done]. exists m. split; [by left|done].
    + rewrite decide_True by done.
      destruct IH as [[Hall ->]|[(m' & Hin & Hm') ->]].
      * left. split; [|done]. by constructor.
      * right. split; [|done]. exists m'. split; [by right|done].
Qed.

Lemma updateMessage_forEach_spec (va : Z) (text id pop : string) queue queue' e :
  FakeQueueClient.updateMessage_forEach va text id pop queue = (queue', e) →
  Forall2 (λ m m', m' = m
             ∨ (FakeQueueClient.m_messageId m = id
                ∧ FakeQueueClient._popReceipt m = Some pop
                ∧ m' = updated va text m)) queue queue'.
Proof.
  revert queue' e. induction queue as [|m queue IH]; intros queue' e; simpl.
  - intros [= <- <-]. constructor.
  - case_bool_decide as Hid.
    + destruct (FakeQueueClient.updateMessage_forEach va text id pop queue)
        as [rest' e'] eqn:Hrest.
      intros [= <- <-]. constructor; [by left|]. by eapply IH.
    + case_bool_decide as Hpop.
      * destruct (FakeQueueClient.updateMessage_forEach va text id pop queue)
          as [rest' e'] eqn:Hrest.
        intros [= <- <-]. constructor; [by right|]. by eapply IH.
      * intros [= <- <-]. clear. induction (m :: queue); constructor; [by left|done].
Qed.


(** *** What a call can do to the stored messages *)

Lemma perform_draws now (call : Call) c :
  (FakeQueueClient.draws c ≤ FakeQueueClient.draws (perform fakeClient now call c))%nat.
Proof.
  destruct call; simpl; try done.
  - unfold FakeQueueClient.getMetadata. destruct (FakeQueueClient._queue _ _) as [[]|]; done.
  - unfold FakeQueueClient.setMetadata.
    destruct (FakeQueueClient._queue _ _) as [[? []]|]; done.
  - unfold FakeQueueClient.putMessage.
    destruct (FakeQueueClient._queue _ _) as [[]|]; simpl; lia.
  - unfold FakeQueueClient.getMessages.
    destruct (FakeQueueClient._queue _ _) as [[queue ?]|]; [|done].
    destruct (FakeQueueClient.getMessages_loop _ _ _ _ _ _) as [[queue' out] d'] eqn:Hloop.
    apply getMessages_loop_spec in Hloop as [Hd _]. done.
  - unfold FakeQueueClient.deleteMessage.
    destruct (FakeQueueClient._queue _ _) as [[queue ?]|]; [|done].
    by destruct (FakeQueueClient.deleteMessage_filter _ _ _).
  - unfold FakeQueueClient.updateMessage.
    destruct (FakeQueueClient._queue _ _) as [[queue ?]|]; [|done].
    by destruct (FakeQueueClient.updateMessage_forEach _ _ _ _ _).
Qed.

Lemma _queue_Ok name c queue md :
  FakeQueueClient._queue name c = Ok (queue, md) →
  FakeQueueClient.queues c !! name = Some queue.
Proof.
  unfold FakeQueueClient._queue. destruct (FakeQueueClient.queues c !! name); [|done].
  by intros [= -> _].
Qed.

(** A message stored after a call was stored before it, or was put by
    the call, or is a visible message leased by the call, or a message
    updated by the call under its own receipt. *)
Lemma perform_stored now (call : Call) c name m' :
  stored (perform fakeClient now call c) name m' →
  stored c name m'
  ∨ (∃ text vis ttl, call = PutMessage name text vis ttl
       ∧ m' = put_message now text vis ttl c
       ∧ FakeQueueClient.draws (perform fakeClient now call c)
         = Datatypes.S (FakeQueueClient.draws c))
  ∨ (∃ vis n m k, call = GetMessages name vis n ∧ stored c name m
       ∧ visible now m = true
       ∧ (FakeQueueClient.draws c ≤ k
          < FakeQueueClient.draws (perform fakeClient now call c))%nat
       ∧ m' = leased (fromNow now vis) (slugid_v4 k) m)
  ∨ (∃ text id pop vis m, call = UpdateMessage name text id pop vis
       ∧ stored c name m
       ∧ FakeQueueClient.m_messageId m = id ∧ FakeQueueClient._popReceipt m = Some pop
       ∧ m' = updated (fromNow now vis) text m).
Proof.
  intros (queue' & Hq' & Hin). revert Hq'.
  destruct call as [name0 md|name0|name0 md|name0 text vis ttl|name0 vis n
                   |name0 id pop|name0 text id pop vis|marker pfx|name0]; simpl.
  - destruct (decide (name0 = name)) as [->|Hne].
    + rewrite lookup_insert_eq. intros [= <-]. by apply elem_of_nil in Hin.
    + rewrite lookup_insert_ne by done. intros Hq. left. by exists queue'.
  - unfold FakeQueueClient.getMetadata.
    destruct (FakeQueueClient._queue _ _) as [[]|]; intros Hq; left; by exists queue'.
  - unfold FakeQueueClient.setMetadata.
    destruct (FakeQueueClient._queue _ _) as [[? []]|]; intros Hq; left; by exists queue'.
  - unfold FakeQueueClient.putMessage.
    destruct (FakeQueueClient._queue name0 c) as [[queue md]|] eqn:Hq0;
      [|intros Hq; left; by exists queue'].
    apply _queue_Ok in Hq0. simpl.
    destruct (decide (name0 = name)) as [->|Hne].
    + rewrite lookup_insert_eq. intros [= <-].
      apply elem_of_app in Hin as [Hin|Hin].
      * left. by exists queue.
      * right. left. apply list_elem_of_singleton in Hin as ->.
        by exists text, vis, ttl.
    + rewrite lookup_insert_ne by done. intros Hq. left. by exists queue'.
  - unfold FakeQueueClient.getMessages.
    destruct (FakeQueueClient._queue name0 c) as [[queue md]|] eqn:Hq0;
      [|intros Hq; left; by exists queue'].
    apply _queue_Ok in Hq0.
    destruct (FakeQueueClient.getMessages_loop _ _ _ _ _ _) as [[queue1 out] d'] eqn:Hloop.
    simpl. apply getMessages_loop_spec in Hloop as (Hd & new & _ & Hrel & _).
    destruct (decide (name0 = name)) as [->|Hne].
    + rewrite lookup_insert_eq. intros [= <-].
      apply list_elem_of_lookup in Hin as [i Hi].
      destruct (Forall2_lookup_r _ _ _ _ _ Hrel Hi) as (m & Hm & [->|(Hv & k & Hk & -> & _)]).
      * left. exists queue. split; [done|]. by eapply list_elem_of_lookup_2.
      * right. right. left. exists vis, n, m, k. split; [done|].
        split; [exists queue; split; [done|by eapply list_elem_of_lookup_2]|]. done.
    + rewrite lookup_insert_ne by done. intros Hq. left. by exists queue'.
  - unfold FakeQueueClient.deleteMessage.
    destruct (FakeQueueClient._queue name0 c) as [[queue md]|] eqn:Hq0;
      [|intros Hq; left; by exists queue'].
    apply _queue_Ok in Hq0.
    destruct (FakeQueueClient.deleteMessage_filter id pop queue) as [queue1|e] eqn:Hdel;
      [|intros Hq; left; by exists queue'].
    apply deleteMessage_filter_Ok in Hdel as ->. simpl.
    destruct (decide (name0 = name)) as [->|Hne].
    + rewrite lookup_insert_eq. intros [= <-]. apply list_elem_of_filter in Hin as [_ Hin].
      left. by exists queue.
    + rewrite lookup_insert_ne by done. intros Hq. left. by exists queue'.
  - unfold FakeQueueClient.updateMessage.
    destruct (FakeQueueClient._queue name0 c) as [[queue md]|] eqn:Hq0;
      [|intros Hq; left; by exists queue'].
    apply _queue_Ok in Hq0.
    destruct (FakeQueueClient.updateMessage_forEach _ _ _ _ _) as [queue1 e] eqn:Hupd.
    simpl. apply updateMessage_forEach_spec in Hupd.
    destruct (decide (name0 = name)) as [->|Hne].
    + rewrite lookup_insert_eq. intros [= <-].
      apply list_elem_of_lookup in Hin as [i Hi].
      destruct (Forall2_lookup_r _ _ _ _ _ Hupd Hi) as (m & Hm & [->|(Hid & Hpop & ->)]).
      * left. exists queue. split; [done|]. by eapply list_elem_of_lookup_2.
      * right. right. right. exists text, id, pop, vis, m. split; [done|].
        split; [exists queue; split; [done|by eapply list_elem_of_lookup_2]|]. done.
    + rewrite lookup_insert_ne by done. intros Hq. left. by exists queue'.
  - intros Hq. left. by exists queue'.
  - destruct (decide (name0 = name)) as [->|Hne].
    + by rewrite lookup_delete_eq.
    + rewrite lookup_delete_ne by done. intros Hq. left. by exists queue'.
Qed.

(** *** Reachable states *)

Lemma reachable_perform_all (history : list (Z * Call)) c :
  reachable c → reachable (perform_all fakeClient history c).
Proof.
  revert c. induction history as [|[now call] history IH]; intros c Hc; simpl; [done|].
  apply IH. by constructor.
Qed.

Lemma drawn_perform now call c : drawn c → drawn (perform fakeClient now call c).
Proof.
  intros Hdrawn name m' Hstored.
  pose proof (perform_draws now call c) as Hmono.
  apply perform_stored in Hstored
    as [Hold|[(text & vis & ttl & -> & -> & Hd)|[(vis & n & m & k & -> & Hm & _ & _ & ->)
           |(text & id & pop & vis & m & -> & Hm & _ & _ & ->)]]].
  - destruct (Hdrawn name m' Hold) as (k & Hk & Hid). exists k. split; [lia|done].
  - exists (FakeQueueClient.draws c). split; [lia|done].
  - destruct (Hdrawn name m Hm) as (k' & Hk' & Hid). exists k'. split; [lia|done].
  - destruct (Hdrawn name m Hm) as (k' & Hk' & Hid). exists k'. split; [lia|done].
Qed.

Lemma reachable_drawn c : reachable c → drawn c.
Proof.
  induction 1 as [|now call c _ IH]; [|by apply drawn_perform].
  intros name m (queue & Hq & _). cbn in Hq. by rewrite lookup_empty in Hq.
Qed.

Lemma described_perform now call c : described c → described (perform fakeClient now call c).
Proof.
  intros Hdesc name.
  destruct call as [name0 md|name0|name0 md|name0 text vis ttl|name0 vis n
                   |name0 id pop|name0 text id pop vis|marker pfx|name0]; simpl.
  - destruct (decide (name0 = name)) as [->|Hne].
    + by rewrite !lookup_insert_eq.
    + rewrite !lookup_insert_ne by done. apply Hdesc.
  - unfold FakeQueueClient.getMetadata.
    destruct (FakeQueueClient._queue _ _) as [[]|]; apply Hdesc.
  - unfold FakeQueueClient.setMetadata.
    destruct (FakeQueueClient._queue _ _) as [[? []]|]; simpl; try apply Hdesc.
    destruct (decide (name0 = name)) as [->|Hne].
    + by rewrite !lookup_insert_eq.
    + rewrite !lookup_insert_ne by done. apply Hdesc.
  - unfold FakeQueueClient.putMessage.
    destruct (FakeQueueClient._queue name0 c) as [[queue md]|] eqn:Hq0; [|apply Hdesc].
    apply _queue_Ok in Hq0. simpl.
    destruct (decide (name0 = name)) as [->|Hne].
    + rewrite lookup_insert_eq. intros _. apply Hdesc. by rewrite Hq0.
    + rewrite lookup_insert_ne by done. apply Hdesc.
  - unfold FakeQueueClient.getMessages.
    destruct (FakeQueueClient._queue name0 c) as [[queue md]|] eqn:Hq0; [|apply Hdesc].
    apply _queue_Ok in Hq0.
    destruct (FakeQueueClient.getMessages_loop _ _ _ _ _ _) as [[queue1 out] d'].
    simpl. destruct (decide (name0 = name)) as [->|Hne].
    + rewrite lookup_insert_eq. intros _. apply Hdesc. by rewrite Hq0.
    + rewrite lookup_insert_ne by done. apply Hdesc.
  - unfold FakeQueueClient.deleteMessage.
    destruct (FakeQueueClient._queue name0 c) as [[queue md]|] eqn:Hq0; [|apply Hdesc].
    apply _queue_Ok in Hq0.
    destruct (FakeQueueClient.deleteMessage_filter id pop queue); [|apply Hdesc].
    simpl. destruct (decide (name0 = name)) as [->|Hne].
    + rewrite lookup_insert_eq. intros _. apply Hdesc. by rewrite Hq0.
    + rewrite lookup_insert_ne by done. apply Hdesc.
  - unfold FakeQueueClient.updateMessage.
    destruct (FakeQueueClient._queue name0 c) as [[queue md]|] eqn:Hq0; [|apply Hdesc].
    apply _queue_Ok in Hq0.
    destruct (FakeQueueClient.updateMessage_forEach _ _ _ _ _) as [queue1 e].
    simpl. destruct (decide (name0 = name)) as [->|Hne].
    + rewrite lookup_insert_eq. intros _. apply Hdesc. by rewrite Hq0.
    + rewrite lookup_insert_ne by done. apply Hdesc.
  - apply Hdesc.
  - destruct (decide (name0 = name)) as [->|Hne].
    + rewrite lookup_delete_eq. by intros [? [=]].
    + rewrite !lookup_delete_ne by done. apply Hdesc.
Qed.

Lemma reachable_described c : reachable c → described c.
Proof.
  induction 1 as [|now call c _ IH]; [|by apply described_perform].
  intros name [queue Hq]. cbn in Hq. by rewrite lookup_empty in Hq.
Qed.

(** *** What a fetch returns *)

Lemma getMessages_fetched now name (vis n : Z) c fetched f :
  (FakeQueueClient.getMessages now name vis n c).1 = Ok fetched →
  f ∈ fetched →
  ∃ m k, stored c name m ∧ visible now m = true
         ∧ (FakeQueueClient.draws c ≤ k)%nat ∧ f = handed_out (slugid_v4 k) m.
Proof.
  unfold FakeQueueClient.getMessages.
  destruct (FakeQueueClient._queue name c) as [[queue md]|] eqn:Hq0; [|done].
  apply _queue_Ok in Hq0.
  destruct (FakeQueueClient.getMessages_loop _ _ _ _ _ _) as [[queue1 out] d'] eqn:Hloop.
  simpl. intros [= <-] Hin.
  apply getMessages_loop_spec in Hloop as (_ & new & -> & _ & Hnew).
  rewrite app_nil_l in Hin. rewrite Forall_forall in Hnew.
  destruct (Hnew f Hin) as (m & k & Hm & Hv & Hk & ->).
  exists m, k. split; [by exists queue|]. split; [done|]. split; [lia|done].
Qed.

(** *** Three invariants of a queue along a history of calls *)

Section Tokens.
Hypothesis slugid_v4_inj : Inj (=) (=) slugid_v4.

Lemma spent_perform (id : string) now call c :
  spent id c → spent id (perform fakeClient now call c).
Proof.
  intros (k & Hk & ->). exists k. split; [|done].
  pose proof (perform_draws now call c). lia.
Qed.


Lemma absent_perform (id : string) now call c name :
  spent id c → absent id c name → absent id (perform fakeClient now call c) name.
Proof.
  intros (k0 & Hk0 & ->) Habsent m' Hstored.
  apply perform_stored in Hstored
    as [Hold|[(text & vis & ttl & -> & -> & Hd)|[(vis & n & m & k & -> & Hm & _ & _ & ->)
           |(text & id' & pop & vis & m & -> & Hm & _ & _ & ->)]]].
  - by apply Habsent.
  - simpl. intros Heq. apply slugid_v4_inj in Heq. lia.
  - simpl. by apply Habsent.
  - simpl. by apply Habsent.
Qed.

Lemma absent_perform_all (id : string) (history : list (Z * Call)) c name :
  spent id c → absent id c name →
  absent id (perform_all fakeClient history c) name.
Proof.
  revert c. induction history as [|[now call] history IH]; intros c Hs Ha; [done|].
  simpl. apply IH; [by apply spent_perform | by apply absent_perform].
Qed.





End Tokens.

Lemma absent_not_fetched (id : string) now name (vis n : Z) c fetched f :
  absent id c name →
  (FakeQueueClient.getMessages now name vis n c).1 = Ok fetched →
  f ∈ fetched → messageId f ≠ id.
Proof.
  intros Habsent Hget Hin.
  destruct (getMessages_fetched _ _ _ _ _ _ _ Hget Hin) as (m & k & Hm & _ & _ & ->).
  simpl. by apply Habsent.
Qed.



(** *** [createQueue] *)

(** C10: [createQueue] of the in-memory client never fails, so it never
    reports [QueueAlreadyExists] and the [catch] around the
    [createQueue] of [_ensureQueueAndMetadata] never runs; on a queue
    that exists it leaves an empty queue in its place, all stored
    messages gone, with the meta-data given (or none). *)
Theorem createQueue_never_conflicts name (md : option Metadata) c :
  let created := FakeQueueClient.createQueue name md c in
  created.1 = Ok ()
  ∧ FakeQueueClient.queues created.2 !! name = Some []
  ∧ FakeQueueClient.metadata created.2 !! name = Some (default ∅ md)
  ∧ (∀ m, ¬ stored created.2 name m)
  ∧ (∀ now (w : World (S := FakeQueueClient.t)) err,
       (call (CreateQueue name md) (createQueue fakeClient now name md) w).1 ≠ Throw err)
  ∧ (∀ now provisionerId workerType (w : World (S := FakeQueueClient.t)) err,
       _ensureQueueAndMetadata_catch fakeClient now name provisionerId workerType err w
       = if bool_decide (err_code err ≠ Some "QueueNotFound")
            && bool_decide (err_statusCode err ≠ Some 404)
         then (Throw err, w)
         else call (CreateQueue name (Some (fresh_metadata now provisionerId workerType)))
                   (createQueue fakeClient now name
                      (Some (fresh_metadata now provisionerId workerType))) w).
Proof.
  intros created. subst created. unfold FakeQueueClient.createQueue.
  cbn [fst snd FakeQueueClient.queues FakeQueueClient.metadata].
  split; [done|]. split; [by rewrite lookup_insert_eq|].
  split; [by rewrite lookup_insert_eq|]. split; [|split].
  - intros m (queue & Hq & Hin). simpl in Hq. rewrite lookup_insert_eq in Hq.
    injection Hq as <-. by apply elem_of_nil in Hin.
  - intros now w err. by rewrite call_spec.
  - intros now provisionerId workerType w err.
    unfold _ensureQueueAndMetadata_catch. destruct (_ && _); [done|].
    unfold try_catch. by rewrite call_spec.
Qed.

(** *** [deleteUnusedWorkerQueues] *)

Lemma filter_marked_Ok (since : Z) (listed : list (string * option Metadata)) :
  Forall (λ x, is_Some x.2) listed →
  ∃ marked, filter_marked since listed = Ok marked
    ∧ (∀ name md, (name, md) ∈ marked →
         (name, Some md) ∈ listed ∧ marked_for_deletion since md = true)
    ∧ fst <$> marked `sublist_of` fst <$> listed.
Proof.
  induction 1 as [|[name [md|]] listed Hmd _ (marked & IH & Hin & Hsub)]; simpl.
  - exists []. split; [done|]. split; [|done]. intros ? ? Hin. by apply elem_of_nil in Hin.
  - rewrite IH. destruct (marked_for_deletion since md) eqn:Hmarked.
    + exists ((name, md) :: marked). split; [done|]. split; [|by constructor].
      intros name' md' Hin'. apply elem_of_cons in Hin' as [[= -> ->]|Hin'].
      * split; [by left|done].
      * destruct (Hin _ _ Hin'). split; [by right|done].
    + exists marked. split; [done|]. split; [|by constructor].
      intros name' md' Hin'. destruct (Hin _ _ Hin'). split; [by right|done].
  - by destruct Hmd.
Qed.

Lemma settle_getMetadata now (names : list string) (w : World (S := FakeQueueClient.t)) :
  Forall (λ name, is_Some (FakeQueueClient.queues (client_state w) !! name)) names →
  ∃ w', settle (getMetadata_call fakeClient now <$> names) w
        = ((λ name, Ok (reading (client_state w) name)) <$> names, w')
    ∧ client_state w' = client_state w.
Proof.
  intros Hnames. revert w Hnames.
  induction names as [|name names IH]; intros w Hnames; simpl.
  - by exists w.
  - apply Forall_cons in Hnames as [[queue Hq] Hnames].
    unfold getMetadata_call at 1. rewrite call_spec. simpl.
    unfold FakeQueueClient.getMetadata, FakeQueueClient._queue. rewrite Hq. simpl.
    destruct (IH (with_client (client_state w) (GetMetadata name) w)) as (w' & Hsettle & Hc);
      [done|].
    refold_fmap. rewrite Hsettle. exists w'. split; [|done].
    unfold reading. simpl. by rewrite Hq.
Qed.

Lemma zip_readings c (names : list string) :
  zip names ((λ name, Ok (reading c name)) <$> names)
  = (λ x : string * MetadataResult, (x.1, Ok x.2))
      <$> ((λ name, (name, reading c name)) <$> names).
Proof. induction names as [|name names IH]; simpl; [done|]. by f_equal. Qed.

Lemma delete_if_empty_fake now (counts : list (string * MetadataResult)) (deleted : Z)
    (w : World (S := FakeQueueClient.t)) :
  ∃ w', delete_if_empty fakeClient now ((λ x, (x.1, Ok x.2)) <$> counts) deleted w
        = (Ok (deleted + Z.of_nat (length (emptied counts))), w')
    ∧ FakeQueueClient.queues (client_state w')
      = foldl (λ acc name, delete name acc) (FakeQueueClient.queues (client_state w))
              (emptied counts)
    ∧ FakeQueueClient.metadata (client_state w')
      = foldl (λ acc name, delete name acc) (FakeQueueClient.metadata (client_state w))
              (emptied counts).
Proof.
  revert deleted w. induction counts as [|[name res] counts IH]; intros deleted w.
  - exists w. simpl. split; [f_equal; f_equal; lia|done].
  - unfold emptied. rewrite filter_cons. simpl.
    destruct (Z.gtb_spec (md_messageCount res) 0) as [Hpos|Hzero].
    + rewrite decide_False by (intros Hn; apply Hn; lia). apply IH.
    + rewrite decide_True by lia. refold_fmap.
      destruct (IH (deleted + 1)
                  (with_client (FakeQueueClient.deleteQueue name (client_state w)).2
                     (DeleteQueue name) w)) as (w' & Hrun & Hq & Hmd).
      exists w'. split; [|done]. etrans; [exact Hrun|].
      f_equal. f_equal. unfold emptied. rewrite fmap_cons, !length_cons. lia.
Qed.

Lemma lookup_foldl_delete {A} (m : gmap string A) (names : list string) (k : string) :
  foldl (λ acc name, delete name acc) m names !! k
  = if decide (k ∈ names) then None else m !! k.
Proof.
  revert m. induction names as [|name names IH]; intros m; cbn [foldl].
  - rewrite decide_False; [done|]. by intros ?%elem_of_nil.
  - rewrite IH. destruct (decide (k ∈ names)) as [Hin|Hnin].
    + rewrite decide_True; [done|]. by right.
    + destruct (decide (name = k)) as [->|Hne].
      * rewrite lookup_delete_eq. rewrite decide_True; [done|]. by left.
      * rewrite lookup_delete_ne by done. rewrite decide_False; [done|].
        intros [->|?]%elem_of_cons; done.
Qed.

Lemma size_foldl_delete {A} (m : gmap string A) (names : list string) :
  NoDup names → Forall (λ name, is_Some (m !! name)) names →
  size m = (size (foldl (λ acc name, delete name acc) m names) + length names)%nat.
Proof.
  intros Hnodup. revert m.
  induction Hnodup as [|name names Hnin _ IH]; intros m Hall; cbn [foldl length]; [lia|].
  apply Forall_cons in Hall as [[x Hx] Hall].
  assert (Forall (λ name', is_Some (delete name m !! name')) names) as Hall'.
  { apply Forall_forall. intros name' Hin.
    rewrite lookup_delete_ne by (intros ->; done).
    by apply (proj1 (Forall_forall _ _) Hall). }
  specialize (IH (delete name m) Hall').
  pose proof (map_size_delete name m) as Hsize. rewrite Hx in Hsize.
  assert (size m ≠ 0%nat); [|lia].
  intros Hempty%map_size_empty_iff. by rewrite Hempty, lookup_empty in Hx.
Qed.

Lemma in_use_not_marked now (md : Metadata) :
  in_use now md → marked_for_deletion (now - 10 * 24 * 60 * 60 * 1000) md = false.
Proof.
  intros (Hp & Hw & t & Ht & Hle). unfold marked_for_deletion.
  rewrite Hp, Hw, Ht. simpl. lia.
Qed.

(** C2, as the code has it: on every reachable state of the in-memory
    client and for every [now], [deleteUnusedWorkerQueues(now)] returns;
    it keeps every queue whose meta-data names both identifiers and a
    valid [last_used] not more than 10 days before [now], keeps every
    queue that holds a message, leaves the queues it keeps as they are,
    and returns the number of queues it has deleted. *)
Theorem deleteUnusedWorkerQueues_safe (pages : nat) now (w : World (S := FakeQueueClient.t)) :
  reachable (client_state w) →
  ∃ n w',
    deleteUnusedWorkerQueues fakeClient (Datatypes.S pages) now w = Some (Ok n, w')
    ∧ (∀ name queue md,
         FakeQueueClient.queues (client_state w) !! name = Some queue →
         FakeQueueClient.metadata (client_state w) !! name = Some md →
         in_use now md →
         FakeQueueClient.queues (client_state w') !! name = Some queue)
    ∧ (∀ name queue,
         FakeQueueClient.queues (client_state w) !! name = Some queue →
         queue ≠ [] →
         FakeQueueClient.queues (client_state w') !! name = Some queue)
    ∧ (∀ name,
         FakeQueueClient.queues (client_state w') !! name = None
         ∨ FakeQueueClient.queues (client_state w') !! name
           = FakeQueueClient.queues (client_state w) !! name)
    ∧ Z.of_nat (size (FakeQueueClient.queues (client_state w)))
      = Z.of_nat (size (FakeQueueClient.queues (client_state w'))) + n.
Proof.
  intros Hdesc%reachable_described.
  set (c := client_state w).
  set (since := now - 10 * 24 * 60 * 60 * 1000).
  set (listed := (λ kv : string * list Message, (kv.1, FakeQueueClient.metadata c !! kv.1))
                   <$> map_to_list (FakeQueueClient.queues c)).
  assert (Forall (λ x, is_Some x.2) listed) as Hlisted.
  { apply Forall_forall. intros [name md] Hin.
    apply list_elem_of_fmap in Hin as ([name' queue] & [= -> ->] & Hin).
    apply elem_of_map_to_list in Hin. apply Hdesc. by exists queue. }
  destruct (filter_marked_Ok since listed Hlisted) as (marked & Hfilter & Hmarked & Hsub).
  assert (fst <$> listed = fst <$> map_to_list (FakeQueueClient.queues c)) as Hnames.
  { unfold listed. rewrite <- list_fmap_compose. done. }
  assert (∀ name, name ∈ fst <$> marked → is_Some (FakeQueueClient.queues c !! name))
    as Hexist.
  { intros name Hin. eapply elem_of_sublist in Hin; [|exact Hsub].
    rewrite Hnames in Hin. apply list_elem_of_fmap in Hin as ([name' queue] & -> & Hin).
    apply elem_of_map_to_list in Hin. by exists queue. }
  set (w1 := with_client c (ListQueues None (prefix w +:+ "-")) w).
  destruct (settle_getMetadata now (fst <$> marked) w1) as (w2 & Hsettle & Hc2).
  { apply Forall_forall. intros name Hin. by apply Hexist. }
  set (counts := (λ name, (name, reading c name)) <$> (fst <$> marked)).
  destruct (delete_if_empty_fake now counts 0 w2) as (w3 & Hdelete & Hq3 & _).
  rewrite Hc2 in Hq3. change (client_state w1) with c in Hq3.
  assert (∀ name, name ∈ emptied counts →
            name ∈ fst <$> marked
            ∧ length (default [] (FakeQueueClient.queues c !! name)) = 0%nat) as Hemptied.
  { intros name Hin. unfold emptied in Hin.
    apply list_elem_of_fmap in Hin as ([name' res] & -> & Hin).
    apply list_elem_of_filter in Hin as [Hzero Hin]. unfold counts in Hin.
    apply list_elem_of_fmap in Hin as (name & [= -> ->] & Hin).
    split; [done|]. simpl in *. lia. }
  exists (0 + Z.of_nat (length (emptied counts))), w3.
  split; [|split; [|split; [|split]]].
  - unfold deleteUnusedWorkerQueues. cbn [deleteUnusedWorkerQueues_loop].
    fold since. unfold deleteUnusedWorkerQueues_page, bind, gets, lift.
    rewrite call_spec. cbn [listQueues fakeClient FakeQueueClient.listQueues fst snd].
    fold c listed w1. cbn [lr_queues lr_nextMarker]. rewrite Hfilter.
    assert ((λ q : string * Metadata, getMetadata_call fakeClient now q.1) <$> marked
            = getMetadata_call fakeClient now <$> (fst <$> marked)) as ->
      by (by rewrite <- list_fmap_compose).
    rewrite Hsettle.
    change (client_state w1) with c. rewrite zip_readings. fold counts.
    by rewrite Hdelete.
  - intros name queue md Hq Hmd Huse. rewrite Hq3, lookup_foldl_delete.
    rewrite decide_False; [done|]. intros Hin.
    destruct (Hemptied name Hin) as [Hin' _].
    apply list_elem_of_fmap in Hin' as ([name' md'] & -> & Hin').
    destruct (Hmarked _ _ Hin') as [Hl Hm]. unfold listed in Hl.
    apply list_elem_of_fmap in Hl as ([name queue'] & [= -> Hmd'] & _).
    simpl in *. rewrite Hmd in Hmd'. injection Hmd' as <-.
    apply in_use_not_marked in Huse. fold since in Huse. congruence.
  - intros name queue Hq Hne. rewrite Hq3, lookup_foldl_delete.
    rewrite decide_False; [done|]. intros Hin.
    destruct (Hemptied name Hin) as [_ Hlen]. rewrite Hq in Hlen. simpl in Hlen.
    by destruct queue.
  - intros name. rewrite Hq3, lookup_foldl_delete. destruct (decide _); auto.
  - rewrite Hq3.
    rewrite (size_foldl_delete (FakeQueueClient.queues c) (emptied counts)); [lia| |].
    + unfold emptied, counts.
      eapply sublist_NoDup; [apply (NoDup_fst_map_to_list (FakeQueueClient.queues c))|].
      rewrite <- Hnames. etrans; [|exact Hsub].
      etrans; [apply fmap_sublist, sublist_filter|].
      rewrite <- list_fmap_compose. simpl. by rewrite list_fmap_id.
    + apply Forall_forall. intros name Hin. apply Hexist. by apply Hemptied.
Qed.

(** *** Ids and receipts *)

Abbreviation ids queue := (FakeQueueClient.m_messageId <$> queue).

Lemma getMessages_loop_ids now vt n queue rv d queue' out d' :
  FakeQueueClient.getMessages_loop now vt n queue rv d = (queue', out, d') →
  ids queue' = ids queue.
Proof.
  intros (_ & new & _ & Hrel & _)%getMessages_loop_spec.
  induction Hrel as [|m m' queue queue' Hm _ IH]; [done|].
  rewrite !fmap_cons, IH. f_equal.
  by destruct Hm as [->|(_ & k & _ & -> & _)].
Qed.

Lemma updateMessage_forEach_ids (va : Z) (text id pop : string) queue queue' e :
  FakeQueueClient.updateMessage_forEach va text id pop queue = (queue', e) →
  ids queue' = ids queue.
Proof.
  intros Hrel%updateMessage_forEach_spec.
  induction Hrel as [|m m' queue queue' Hm _ IH]; [done|].
  rewrite !fmap_cons, IH. f_equal.
  by destruct Hm as [->|(_ & _ & ->)].
Qed.


Lemma unique_perform now call c :
  Inj (=) (=) slugid_v4 → drawn c → unique c → unique (perform fakeClient now call c).
Proof.
  intros Hinj Hdrawn Hunique name queue'.
  destruct call as [name0 md|name0|name0 md|name0 text vis ttl|name0 vis n
                   |name0 id pop|name0 text id pop vis|marker pfx|name0]; simpl.
  - destruct (decide (name0 = name)) as [->|Hne].
    + rewrite lookup_insert_eq. intros [= <-]. constructor.
    + rewrite lookup_insert_ne by done. apply Hunique.
  - unfold FakeQueueClient.getMetadata.
    destruct (FakeQueueClient._queue _ _) as [[]|]; apply Hunique.
  - unfold FakeQueueClient.setMetadata.
    destruct (FakeQueueClient._queue _ _) as [[? []]|]; apply Hunique.
  - unfold FakeQueueClient.putMessage.
    destruct (FakeQueueClient._queue name0 c) as [[queue md]|] eqn:Hq0; [|apply Hunique].
    apply _queue_Ok in Hq0. simpl.
    destruct (decide (name0 = name)) as [->|Hne]; [|rewrite lookup_insert_ne by done;
                                                     apply Hunique].
    rewrite lookup_insert_eq. intros [= <-]. rewrite fmap_app. simpl.
    apply NoDup_app. split; [by eapply Hunique|]. split; [|apply NoDup_singleton].
    intros id Hin ->%list_elem_of_singleton.
    apply list_elem_of_fmap in Hin as (m & Hid & Hin).
    destruct (Hdrawn name m) as (k & Hk & Hid'); [by exists queue|].
    rewrite Hid' in Hid. apply Hinj in Hid. lia.
  - unfold FakeQueueClient.getMessages.
    destruct (FakeQueueClient._queue name0 c) as [[queue md]|] eqn:Hq0; [|apply Hunique].
    apply _queue_Ok in Hq0.
    destruct (FakeQueueClient.getMessages_loop _ _ _ _ _ _) as [[queue1 out] d'] eqn:Hloop.
    simpl. destruct (decide (name0 = name)) as [->|Hne];
      [|rewrite lookup_insert_ne by done; apply Hunique].
    rewrite lookup_insert_eq. intros [= <-].
    rewrite (getMessages_loop_ids _ _ _ _ _ _ _ _ _ Hloop). by eapply Hunique.
  - unfold FakeQueueClient.deleteMessage.
    destruct (FakeQueueClient._queue name0 c) as [[queue md]|] eqn:Hq0; [|apply Hunique].
    apply _queue_Ok in Hq0.
    destruct (FakeQueueClient.deleteMessage_filter id pop queue) as [queue1|e] eqn:Hdel;
      [|apply Hunique].
    apply deleteMessage_filter_Ok in Hdel as ->. simpl.
    destruct (decide (name0 = name)) as [->|Hne];
      [|rewrite lookup_insert_ne by done; apply Hunique].
    rewrite lookup_insert_eq. intros [= <-].
    eapply sublist_NoDup; [by eapply Hunique|]. apply fmap_sublist, sublist_filter.
  - unfold FakeQueueClient.updateMessage.
    destruct (FakeQueueClient._queue name0 c) as [[queue md]|] eqn:Hq0; [|apply Hunique].
    apply _queue_Ok in Hq0.
    destruct (FakeQueueClient.updateMessage_forEach _ _ _ _ _) as [queue1 e] eqn:Hupd.
    simpl. destruct (decide (name0 = name)) as [->|Hne];
      [|rewrite lookup_insert_ne by done; apply Hunique].
    rewrite lookup_insert_eq. intros [= <-].
    rewrite (updateMessage_forEach_ids _ _ _ _ _ _ _ Hupd). by eapply Hunique.
  - apply Hunique.
  - destruct (decide (name0 = name)) as [->|Hne].
    + by rewrite lookup_delete_eq.
    + rewrite lookup_delete_ne by done. apply Hunique.
Qed.

Lemma reachable_unique c : Inj (=) (=) slugid_v4 → reachable c → unique c.
Proof.
  intros Hinj. induction 1 as [|now call c Hc IH].
  - intros name queue Hq. cbn in Hq. by rewrite lookup_empty in Hq.
  - apply unique_perform; [done|by apply reachable_drawn|done].
Qed.


Lemma getMessages_spent now name (vis n : Z) c fetched f :
  drawn c →
  (FakeQueueClient.getMessages now name vis n c).1 = Ok fetched →
  f ∈ fetched →
  spent (messageId f) (FakeQueueClient.getMessages now name vis n c).2.
Proof.
  intros Hdrawn Hget Hf.
  destruct (getMessages_fetched _ _ _ _ _ _ _ Hget Hf) as (m & k & Hm & _ & _ & ->).
  destruct (Hdrawn _ _ Hm) as (k' & Hk' & Hid). exists k'. split; [|done].
  pose proof (perform_draws now (GetMessages name vis n) c) as Hmono. simpl in Hmono. lia.
Qed.

(** [deleteMessage] with the receipt the messages hold removes every
    message with the id. *)
Lemma deleteMessage_current name (f : FetchedMessage) c :
  is_Some (FakeQueueClient.queues c !! name) → holds_receipt f c name →
  (FakeQueueClient.deleteMessage name (messageId f) (popReceipt f) c).1 = Ok ()
  ∧ absent (messageId f)
      (FakeQueueClient.deleteMessage name (messageId f) (popReceipt f) c).2 name.
Proof.
  intros [queue Hq] Hholds. unfold FakeQueueClient.deleteMessage, FakeQueueClient._queue.
  rewrite Hq.
  destruct (deleteMessage_filter_total (messageId f) (popReceipt f) queue)
    as [[_ ->]|[(m & Hin & Hid & Hpop) _]].
  - split; [done|]. intros m (queue' & Hq' & Hin). simpl in Hq'.
    rewrite lookup_insert_eq in Hq'. injection Hq' as <-.
    by apply list_elem_of_filter in Hin as [Hid _].
  - exfalso. apply Hpop. apply Hholds; [by exists queue|done].
Qed.



(** A visible message with fewer visible messages before it than the
    limit is handed out. *)
Lemma getMessages_delivers now name (vis n : Z) c pre m post :
  FakeQueueClient.queues c !! name = Some (pre ++ m :: post) →
  visible now m = true →
  Z.of_nat (length (filter (λ m, visible now m) pre)) < n →
  ∃ fetched k, (FakeQueueClient.getMessages now name vis n c).1 = Ok fetched
    ∧ handed_out (slugid_v4 k) m ∈ fetched.
Proof.
  intros Hq Hvis Hlimit.
  unfold FakeQueueClient.getMessages, FakeQueueClient._queue. rewrite Hq.
  destruct (getMessages_loop_delivers now (fromNow now vis) n pre m post []
              (FakeQueueClient.draws c) Hvis) as (k & Hin & _); [simpl; lia|].
  destruct (FakeQueueClient.getMessages_loop _ _ _ _ _ _) as [[queue1 out] d'].
  simpl in *. by exists out, k.
Qed.

(** *** [pendingQueues] *)

(** C5, as the code has it: once the queue family is ensured,
    [pendingQueues] returns seven poll functions, that of the queue of
    highest priority first and that of lowest last; every [poll(count)],
    over any client, is one [getMessages] call asking for
    [min(count, 32)] messages with a visibility timeout of 300 seconds,
    and presents each message of the answer as task id, run id, hint id,
    [remove] and [release]; over the in-memory client a [poll(count)]
    with [count] at least one returns at most [min(count, 32)]
    messages. *)
Theorem pendingQueues_polls {S} (client : QueueClient S) now provisionerId workerType
    (w : World (S := S)) names w1 :
  ensurePendingQueue client now provisionerId workerType w = (Ok names, w1) →
  pendingQueues client now provisionerId workerType w
  = (Ok ((λ pr, poll client (names_get names pr))
           <$> [highest; very_high; high; medium; low; very_low; lowest]), w1)
  ∧ (∀ name t count (w' : World (S := S)),
       let got := getMessages client t name 300 (Z.min count 32) (client_state w') in
       let done := poll client name t count w' in
       done.2 = with_client got.2 (GetMessages name 300 (Z.min count 32)) w'
       ∧ (∀ e, got.1 = Throw e → done.1 = Throw e)
       ∧ (∀ msgs, done.1 = Ok msgs →
            ∃ fetched, got.1 = Ok fetched ∧ Forall2 (presents client name) fetched msgs))
  ∧ (∀ name t count (w' : World (S := FakeQueueClient.t)) msgs,
       1 ≤ count →
       (poll fakeClient name t count w').1 = Ok msgs →
       Z.of_nat (length msgs) ≤ Z.min count 32).
Proof.
  intros Hensure. split; [|split].
  - unfold pendingQueues, bind, ret. rewrite Hensure.
    by rewrite <- list_fmap_compose.
  - intros name t count w'. apply poll_spec.
  - intros name t count w' msgs Hcount Hpoll.
    destruct (poll_spec fakeClient name t count w') as (_ & _ & Hspec).
    destruct (Hspec msgs Hpoll) as (fetched & Hget & Hrel).
    rewrite <- (Forall2_length _ _ _ Hrel).
    revert Hget. cbn [getMessages fakeClient]. unfold FakeQueueClient.getMessages.
    destruct (FakeQueueClient._queue name (client_state w')) as [[q md]|]; [|done].
    pose proof (getMessages_loop_bound t (fromNow t 300) (Z.min count 32) q []
                  (FakeQueueClient.draws (client_state w'))) as Hbound.
    destruct (FakeQueueClient.getMessages_loop _ _ _ _ _ _) as [[q' out] d'].
    simpl in *. intros [= <-]. apply Hbound. lia.
Qed.

(** *** A message from [putMessage] to [getMessages] *)

Lemma putMessage_Ok now name (text : string) (vis ttl : Z) c :
  (FakeQueueClient.putMessage now name text vis ttl c).1 = Ok () →
  ∃ queue, FakeQueueClient.queues c !! name = Some queue
    ∧ FakeQueueClient.queues (FakeQueueClient.putMessage now name text vis ttl c).2 !! name
      = Some (queue ++ [put_message now text vis ttl c])
    ∧ FakeQueueClient.draws (FakeQueueClient.putMessage now name text vis ttl c).2
      = Datatypes.S (FakeQueueClient.draws c).
Proof.
  unfold FakeQueueClient.putMessage, FakeQueueClient._queue.
  destruct (FakeQueueClient.queues c !! name) as [queue|]; [|done].
  intros _. exists queue. simpl. by rewrite lookup_insert_eq.
Qed.

(** The message just put has a new id; it is the only message of the
    queue with that id, and it is invisible until its visibility time
    and never handed out so far. *)
Lemma putMessage_invariants now name (text : string) (vis ttl : Z) c :
  Inj (=) (=) slugid_v4 → drawn c →
  (FakeQueueClient.putMessage now name text vis ttl c).1 = Ok () →
  let c1 := (FakeQueueClient.putMessage now name text vis ttl c).2 in
  let id := slugid_v4 (FakeQueueClient.draws c) in
  spent id c1 ∧ gated id (fromNow now vis) c1 name ∧ carries id text c1 name.
Proof.
  intros Hinj Hdrawn Hok c1 id.
  destruct (putMessage_Ok _ _ _ _ _ _ Hok) as (queue & Hq & Hq1 & Hd1).
  fold c1 in Hq1, Hd1.
  assert (∀ m, stored c1 name m →
               FakeQueueClient.m_messageId m = id → m = put_message now text vis ttl c)
    as Honly.
  { intros m (queue1 & Hq1' & Hin) Hid. rewrite Hq1 in Hq1'. injection Hq1' as <-.
    apply elem_of_app in Hin as [Hin|Hin%list_elem_of_singleton]; [|done].
    destruct (Hdrawn name m) as (k & Hk & Hid'); [by exists queue|].
    rewrite Hid' in Hid. apply Hinj in Hid. lia. }
  split; [|split].
  - exists (FakeQueueClient.draws c). split; [lia|done].
  - intros m Hm Hid. rewrite (Honly m Hm Hid). simpl. split; [lia|done].
  - intros m Hm Hid. by rewrite (Honly m Hm Hid).
Qed.



(** *** Messages that wait for a date *)





End Fake.

(** ** Further properties of the service *)

(** X1: for two dates that are not further apart than the code's
    arithmetic on numbers is exact for, [secondsTo(target, relativeTo)]
    is the least whole number of seconds, one at least, that reaches
    from [relativeTo] to [target] or beyond. *)
Theorem secondsTo_least (target relativeTo : Z) :
  valid_date target → valid_date relativeTo → exact_difference target relativeTo →
  let s := secondsTo target relativeTo in
  1 ≤ s
  ∧ target - relativeTo ≤ s * 1000
  ∧ ∀ s', 1 ≤ s' → target - relativeTo ≤ s' * 1000 → s ≤ s'.
Proof.
  intros _ _ _ s. subst s. unfold secondsTo.
  pose proof (ceil_div_spec (target - relativeTo)) as [Hle Hlt].
  split; [lia|]. split; [lia|]. intros s' Hs' Hreach. lia.
Qed.

(** A string that has a character somewhere does not pass a test that
    the character fails. *)
Lemma string_forall_app (f : ascii → bool) (s1 s2 : string) :
  string_forall f (s1 +:+ s2) = string_forall f s1 && string_forall f s2.
Proof.
  induction s1 as [|c s1 IH]; [done|].
  change (String c s1 +:+ s2) with (String c (s1 +:+ s2)).
  simpl. by rewrite IH, andb_assoc.
Qed.

Lemma is_identifier_no_slash (s : string) :
  is_identifier s = true →
  string_forall (λ c, negb (bool_decide (c = "/"%char))) s = true.
Proof.
  unfold is_identifier. intros [_ Hchars]%andb_prop. revert Hchars.
  induction s as [|c s IH]; simpl; [done|].
  intros [Hc Hs]%andb_prop. rewrite IH by done. rewrite andb_true_r.
  apply negb_true_iff, bool_decide_eq_false. intros ->. by vm_compute in Hc.
Qed.

Lemma key_split (p t p' t' : string) :
  string_forall (λ c, negb (bool_decide (c = "/"%char))) p = true →
  string_forall (λ c, negb (bool_decide (c = "/"%char))) t = true →
  p +:+ "/" +:+ t = p' +:+ "/" +:+ t' → p' = p ∧ t' = t.
Proof.
  revert p'. induction p as [|a p IH]; intros p' Hp Ht Heq.
  - destruct p' as [|a' p'].
    + change (String "/" t = String "/" t') in Heq. injection Heq as Heq. by subst.
    + change (String "/" t = String a' (p' +:+ String "/" t')) in Heq.
      injection Heq as Ha Heq. subst a' t.
      rewrite string_forall_app in Ht. simpl in Ht.
      by rewrite andb_false_r in Ht.
  - simpl in Hp. apply andb_prop in Hp as [Ha Hp].
    destruct p' as [|a' p'].
    + change (String a (p +:+ "/" +:+ t) = String "/" t') in Heq.
      injection Heq as Heq _. subst a. by vm_compute in Ha.
    + change (String a (p +:+ "/" +:+ t) = String a' (p' +:+ "/" +:+ t')) in Heq.
      injection Heq as Heq' Heq. subst a'. destruct (IH p' Hp Ht Heq) as [-> ->]. done.
Qed.

(** X18: the key [provisionerId + '/' + workerType] of the two caches
    names one pair only: a pair of identifiers and any other pair of
    strings with the same key are the same pair (a slash cannot be used
    in an identifier). *)
Theorem cache_key_unambiguous (provisionerId workerType provisionerId' workerType' : string) :
  is_identifier provisionerId = true → is_identifier workerType = true →
  provisionerId +:+ "/" +:+ workerType = provisionerId' +:+ "/" +:+ workerType' →
  provisionerId' = provisionerId ∧ workerType' = workerType.
Proof.
  intros Hp Ht. apply key_split; by apply is_identifier_no_slash.
Qed.

Section More.
Context `{Runtime} {S : Type} (client : QueueClient S).

Implicit Types (w : World (S := S)) (now : Z).

(** X2: each of [ensureClaimQueue], [ensureResolvedQueue] and
    [ensureDeadlineQueue] returns the promise its field holds when there
    is one, and touches nothing.  Otherwise it is the client's
    [createQueue] for its queue: the call settles to what [createQueue]
    settles to and leaves the client as that call does; when the call
    succeeded the field keeps the promise and every later call returns
    from it; when it failed the field is [null] again, and the next call
    is the client's [createQueue] once more. *)
Theorem ensureQueue_caches_success now w :
  let claim := ensureClaimQueue client now w in
  let resolved := ensureResolvedQueue client now w in
  let deadline := ensureDeadlineQueue client now w in
  ((∀ ready, claimQueueReady w = Some ready → claim = (ready, w))
   ∧ (claimQueueReady w = None →
      let created := createQueue client now (claimQueue w) None (client_state w) in
      claim.1 = created.1 ∧ client_state claim.2 = created.2
      ∧ claimQueueReady claim.2 = (if is_ok created.1 then Some (Ok ()) else None)
      ∧ (is_ok created.1 = true →
           ∀ now', ensureClaimQueue client now' claim.2 = (Ok (), claim.2))
      ∧ (is_ok created.1 = false →
           ∀ now',
             let again := createQueue client now' (claimQueue w) None created.2 in
             (ensureClaimQueue client now' claim.2).1 = again.1
             ∧ client_state (ensureClaimQueue client now' claim.2).2 = again.2)))
  ∧ ((∀ ready, resolvedQueueReady w = Some ready → resolved = (ready, w))
     ∧ (resolvedQueueReady w = None →
        let created := createQueue client now (resolvedQueue w) None (client_state w) in
        resolved.1 = created.1 ∧ client_state resolved.2 = created.2
        ∧ resolvedQueueReady resolved.2 = (if is_ok created.1 then Some (Ok ()) else None)
        ∧ (is_ok created.1 = true →
             ∀ now', ensureResolvedQueue client now' resolved.2 = (Ok (), resolved.2))
        ∧ (is_ok created.1 = false →
             ∀ now',
               let again := createQueue client now' (resolvedQueue w) None created.2 in
               (ensureResolvedQueue client now' resolved.2).1 = again.1
               ∧ client_state (ensureResolvedQueue client now' resolved.2).2 = again.2)))
  ∧ ((∀ ready, deadlineQueueReady w = Some ready → deadline = (ready, w))
     ∧ (deadlineQueueReady w = None →
        let created := createQueue client now (deadlineQueue w) None (client_state w) in
        deadline.1 = created.1 ∧ client_state deadline.2 = created.2
        ∧ deadlineQueueReady deadline.2 = (if is_ok created.1 then Some (Ok ()) else None)
        ∧ (is_ok created.1 = true →
             ∀ now', ensureDeadlineQueue client now' deadline.2 = (Ok (), deadline.2))
        ∧ (is_ok created.1 = false →
             ∀ now',
               let again := createQueue client now' (deadlineQueue w) None created.2 in
               (ensureDeadlineQueue client now' deadline.2).1 = again.1
               ∧ client_state (ensureDeadlineQueue client now' deadline.2).2 = again.2))).
Proof.
  cbv zeta. split; [|split].
  - unfold ensureClaimQueue.
    destruct (claimQueueReady w) as [ready|] eqn:Hready.
    + split; [by intros ? [= <-]|done].
    + split; [done|]. intros _. rewrite call_spec.
      destruct (createQueue client now (claimQueue w) None (client_state w)) as [[[]|e] s];
        cbn [fst snd is_ok claimQueueReady with_ready with_client claimQueue client_state].
      * do 4 (split; [done|]). intros [=].
      * do 4 (split; [done|]). intros _ now'. rewrite call_spec.
        cbn [fst snd claimQueueReady with_ready with_client claimQueue client_state].
        by destruct (createQueue client now' (claimQueue w) None s) as [[[]|e'] s'].
  - unfold ensureResolvedQueue.
    destruct (resolvedQueueReady w) as [ready|] eqn:Hready.
    + split; [by intros ? [= <-]|done].
    + split; [done|]. intros _. rewrite call_spec.
      destruct (createQueue client now (resolvedQueue w) None (client_state w)) as [[[]|e] s];
        cbn [fst snd is_ok resolvedQueueReady with_ready with_client resolvedQueue client_state].
      * do 4 (split; [done|]). intros [=].
      * do 4 (split; [done|]). intros _ now'. rewrite call_spec.
        cbn [fst snd resolvedQueueReady with_ready with_client resolvedQueue client_state].
        by destruct (createQueue client now' (resolvedQueue w) None s) as [[[]|e'] s'].
  - unfold ensureDeadlineQueue.
    destruct (deadlineQueueReady w) as [ready|] eqn:Hready.
    + split; [by intros ? [= <-]|done].
    + split; [done|]. intros _. rewrite call_spec.
      destruct (createQueue client now (deadlineQueue w) None (client_state w)) as [[[]|e] s];
        cbn [fst snd is_ok deadlineQueueReady with_ready with_client deadlineQueue client_state].
      * do 4 (split; [done|]). intros [=].
      * do 4 (split; [done|]). intros _ now'. rewrite call_spec.
        cbn [fst snd deadlineQueueReady with_ready with_client deadlineQueue client_state].
        by destruct (createQueue client now' (deadlineQueue w) None s) as [[[]|e'] s'].
Qed.

(** X3: [putClaimMessage], [putDeadlineMessage] and [putResolvedMessage]
    called with an empty task id (for the last two also with an empty
    task group id or scheduler id) throw an assertion error before
    anything else happens: no client call is made and the service is as
    it was. *)
Theorem putMessage_requires_ids now w :
  (∀ runId takenUntil,
     putClaimMessage client now "" runId takenUntil w
     = (Throw (AssertionError "taskId must be given"), w))
  ∧ (∀ taskId taskGroupId schedulerId deadline,
       taskId = "" ∨ taskGroupId = "" ∨ schedulerId = "" →
       ∃ msg, putDeadlineMessage client now taskId taskGroupId schedulerId deadline w
              = (Throw (AssertionError msg), w))
  ∧ (∀ taskId taskGroupId schedulerId resolution,
       taskId = "" ∨ taskGroupId = "" ∨ schedulerId = "" →
       ∃ msg, putResolvedMessage client now taskId taskGroupId schedulerId resolution w
              = (Throw (AssertionError msg), w)).
Proof.
  split; [done|]. split.
  - intros taskId taskGroupId schedulerId deadline Hmissing.
    unfold putDeadlineMessage, bind, assert, truthy, throw, ret.
    destruct (decide (taskId = "")) as [->|Ht]; [simpl; eauto|].
    rewrite (bool_decide_eq_false_2 _ Ht).
    destruct (decide (taskGroupId = "")) as [->|Hg]; [simpl; eauto|].
    rewrite (bool_decide_eq_false_2 _ Hg).
    destruct (decide (schedulerId = "")) as [->|Hs]; [simpl; eauto|].
    by destruct Hmissing as [?|[?|?]].
  - intros taskId taskGroupId schedulerId resolution Hmissing.
    unfold putResolvedMessage, bind, assert, truthy, throw, ret.
    destruct (decide (taskId = "")) as [->|Ht]; [simpl; eauto|].
    rewrite (bool_decide_eq_false_2 _ Ht).
    destruct (decide (taskGroupId = "")) as [->|Hg]; [simpl; eauto|].
    rewrite (bool_decide_eq_false_2 _ Hg).
    destruct (decide (schedulerId = "")) as [->|Hs]; [simpl; eauto|].
    by destruct Hmissing as [?|[?|?]].
Qed.

(** X16: [_getMessages] makes its one [getMessages] call and then
    decodes the whole batch or nothing: when every message text of the
    batch parses as JSON the result has one element per message, in
    order, with the parsed payload; when one text does not parse the
    method throws and returns no message, although the client has handed
    out, and leased, the whole batch. *)
Theorem getMessages_decodes_all_or_nothing now queue (visibility count : Z) w fetched :
  (getMessages client now queue visibility count (client_state w)).1 = Ok fetched →
  let done := _getMessages client now queue visibility count w in
  done.2 = with_client (getMessages client now queue visibility count (client_state w)).2
             (GetMessages queue visibility count) w
  ∧ (Forall (λ f, is_Some (JSON_parse (base64_decode (messageText f)))) fetched →
     ∃ msgs, done.1 = Ok msgs
       ∧ Forall2 (λ f rm, JSON_parse (base64_decode (messageText f)) = Some (payload rm))
           fetched msgs)
  ∧ (Exists (λ f, JSON_parse (base64_decode (messageText f)) = None) fetched →
     ∃ err, done.1 = Throw err).
Proof.
  intros Hget done. subst done. unfold _getMessages, bind, lift.
  rewrite call_spec, Hget. cbn [fst snd]. clear Hget. split; [done|]. split.
  - intros Hall. induction Hall as [|f fetched' [p Hp] _ (msgs & Hmsgs & Hrel)].
    + exists []. by split.
    + cbn [map_result]. unfold received at 1. rewrite Hp, Hmsgs. eexists. split; [done|].
      constructor; [done|exact Hrel].
  - intros Hbad. exists SyntaxError.
    induction Hbad as [f fetched' Hf|f fetched' _ IH].
    + cbn [map_result]. unfold received at 1. by rewrite Hf.
    + cbn [map_result]. rewrite IH. unfold received.
      by destruct (JSON_parse (base64_decode (messageText f))).
Qed.

End More.

(** ** Further properties of the in-memory client *)

Section MoreFake.
Context `{Runtime}.

Implicit Types (c : FakeQueueClient.t) (now : Z) (name : string)
  (queue : list FakeQueueClient.Message).




Lemma unknown_id_untouched (va : Z) (text id pop : string) queue :
  Forall (λ m, FakeQueueClient.m_messageId m ≠ id) queue →
  FakeQueueClient.deleteMessage_filter id pop queue = Ok queue
  ∧ FakeQueueClient.updateMessage_forEach va text id pop queue = (queue, None).
Proof.
  induction 1 as [|m queue Hm _ [IHd IHu]]; [done|].
  cbn [FakeQueueClient.deleteMessage_filter FakeQueueClient.updateMessage_forEach].
  rewrite (bool_decide_eq_false_2 _ Hm), (bool_decide_eq_true_2 _ Hm), IHd, IHu. done.
Qed.

Lemma insert_same_queue name queue c :
  FakeQueueClient.queues c !! name = Some queue →
  {| FakeQueueClient.queues := <[name := queue]> (FakeQueueClient.queues c);
     FakeQueueClient.metadata := FakeQueueClient.metadata c;
     FakeQueueClient.draws := FakeQueueClient.draws c |} = c.
Proof. intros Hq. destruct c as [qs mds d]. simpl in *. by rewrite insert_id. Qed.

(** X13: [deleteMessage] and [updateMessage] for a message id that no
    message of the queue has succeed and change nothing; so a second
    [deleteMessage] with the id and receipt of a message just deleted
    succeeds as well. *)
Theorem unknown_message_ignored now name (id pop text : string) (vis : Z) c :
  is_Some (FakeQueueClient.queues c !! name) →
  (absent id c name →
   FakeQueueClient.deleteMessage name id pop c = (Ok (), c)
   ∧ FakeQueueClient.updateMessage now name text id pop vis c = (Ok (), c))
  ∧ (∀ f : FetchedMessage,
       holds_receipt f c name →
       let once := FakeQueueClient.deleteMessage name (messageId f) (popReceipt f) c in
       once.1 = Ok ()
       ∧ FakeQueueClient.deleteMessage name (messageId f) (popReceipt f) once.2
         = (Ok (), once.2)).
Proof.
  assert (∀ id' pop' c',
            is_Some (FakeQueueClient.queues c' !! name) → absent id' c' name →
            FakeQueueClient.deleteMessage name id' pop' c' = (Ok (), c')
            ∧ FakeQueueClient.updateMessage now name text id' pop' vis c' = (Ok (), c'))
    as Hunknown.
  { intros id' pop' c' [queue Hq] Habsent.
    assert (Forall (λ m, FakeQueueClient.m_messageId m ≠ id') queue) as Hall.
    { apply Forall_forall. intros m Hm. apply Habsent. by exists queue. }
    destruct (unknown_id_untouched (fromNow now vis) text id' pop' queue Hall) as [Hd Hu].
    unfold FakeQueueClient.deleteMessage, FakeQueueClient.updateMessage,
      FakeQueueClient._queue.
    rewrite Hq, Hd, Hu. by rewrite (insert_same_queue _ _ _ Hq). }
  intros Hsome. split; [by apply Hunknown|].
  intros f Hholds once. subst once.
  destruct (deleteMessage_current name f c Hsome Hholds) as [Hok Habsent].
  split; [done|]. apply Hunknown; [|done].
  revert Hok. unfold FakeQueueClient.deleteMessage, FakeQueueClient._queue.
  destruct Hsome as [queue Hq]. rewrite Hq.
  destruct (FakeQueueClient.deleteMessage_filter _ _ queue); [|done].
  intros _. cbn [snd FakeQueueClient.queues]. rewrite lookup_insert_eq. by eexists.
Qed.

Lemma getMessages_loop_out now (vt n : Z) queue (rv : list FetchedMessage) (d : nat) :
  Z.of_nat (length rv) < n →
  (FakeQueueClient.getMessages_loop now vt n queue rv d).1.2
  = rv ++ imap (λ i m, FakeQueueClient.handed_out (slugid_v4 (d + i)) m)
            (take (Z.to_nat n - length rv)
                  (filter (λ m, FakeQueueClient.visible now m) queue)).
Proof.
  revert rv d. induction queue as [|msg rest IH]; intros rv d Hroom.
  - cbn. by rewrite take_nil, app_nil_r.
  - cbn [FakeQueueClient.getMessages_loop].
    destruct (FakeQueueClient.visible now msg) eqn:Hv.
    + rewrite filter_cons_True by (by rewrite Hv).
      destruct (Z.to_nat n - length rv)%nat as [|room] eqn:Hsub; [lia|].
      cbn [take imap]. rewrite Nat.add_0_r.
      destruct (Z.eqb_spec (Z.of_nat (length (rv ++ [FakeQueueClient.handed_out
                                                     (slugid_v4 d) msg]))) n) as [Hfull|Hmore].
      * cbn [fst snd]. rewrite length_app in Hfull. simpl in Hfull.
        assert (room = 0%nat) as -> by lia. by rewrite take_0.
      * rewrite length_app in Hmore. simpl in Hmore.
        specialize (IH (rv ++ [FakeQueueClient.handed_out (slugid_v4 d) msg]) (Datatypes.S d)).
        rewrite length_app in IH. simpl in IH.
        destruct (FakeQueueClient.getMessages_loop now vt n rest _ _) as [[rest' out] d'].
        cbn [fst snd] in *. rewrite IH by lia. rewrite <- app_assoc. cbn [app].
        do 2 f_equal. replace (Z.to_nat n - (length rv + 1))%nat with room by lia.
        apply imap_ext. intros i m _. simpl. do 2 f_equal. lia.
    + rewrite filter_cons_False by (rewrite Hv; intros []).
      specialize (IH rv d Hroom).
      destruct (FakeQueueClient.getMessages_loop now vt n rest rv d) as [[rest' out] d'].
      exact IH.
Qed.

(** X14: asked for [n] messages, one at least, [getMessages] hands out
    the first [n] messages of the queue that are visible at the clock
    reading (later than their visibility time, not later than their
    expiry), in the order of the queue, or all of them when they are
    fewer, each with a receipt drawn for it; it removes nothing, so that
    [getMetadata] counts the same number of messages as before. *)
Theorem getMessages_first_visible now name (vis n : Z) queue c :
  FakeQueueClient.queues c !! name = Some queue →
  1 ≤ n →
  let done := FakeQueueClient.getMessages now name vis n c in
  done.1
  = Ok (imap (λ i m, FakeQueueClient.handed_out (slugid_v4 (FakeQueueClient.draws c + i)) m)
             (take (Z.to_nat n) (filter (λ m, FakeQueueClient.visible now m) queue)))
  ∧ (FakeQueueClient.getMetadata name done.2).1 = (FakeQueueClient.getMetadata name c).1.
Proof.
  intros Hq Hn done. subst done.
  pose proof (getMessages_loop_out now (fromNow now vis) n queue [] (FakeQueueClient.draws c))
    as Hout.
  pose proof (getMessages_loop_ids now (fromNow now vis) n queue [] (FakeQueueClient.draws c))
    as Hids.
  unfold FakeQueueClient.getMessages, FakeQueueClient.getMetadata, FakeQueueClient._queue.
  rewrite Hq.
  destruct (FakeQueueClient.getMessages_loop now (fromNow now vis) n queue []
              (FakeQueueClient.draws c)) as [[queue' out] d'].
  cbn [fst snd FakeQueueClient.queues FakeQueueClient.metadata] in *.
  rewrite Hout by (simpl; lia). cbn [app length]. rewrite Nat.sub_0_r.
  split; [done|]. rewrite lookup_insert_eq.
  specialize (Hids _ _ _ eq_refl).
  apply (f_equal length) in Hids. rewrite !length_fmap in Hids. by rewrite Hids.
Qed.

End MoreFake.

(** ** The pending queues over the in-memory client *)

Section PendingFake.
Context `{Runtime}.

Implicit Types (c : FakeQueueClient.t) (w : World (S := FakeQueueClient.t)) (now : Z).

Lemma fresh_metadata_lookup now (provisionerId workerType : string) :
  fresh_metadata now provisionerId workerType !! "provisioner_id" = Some provisionerId
  ∧ fresh_metadata now provisionerId workerType !! "worker_type" = Some workerType
  ∧ fresh_metadata now provisionerId workerType !! "last_used" = Some (Date_toJSON now).
Proof.
  unfold fresh_metadata, fromNowJSON.
  rewrite lookup_insert_eq.
  rewrite (lookup_insert_ne _ "provisioner_id" "worker_type") by done.
  rewrite lookup_insert_eq.
  rewrite (lookup_insert_ne _ "provisioner_id" "last_used") by done.
  rewrite (lookup_insert_ne _ "worker_type" "last_used") by done.
  by rewrite lookup_insert_eq.
Qed.

Lemma fresh_over_current now (provisionerId workerType : string) (md : Metadata) (n : Z) :
  Date_new (Some (JStr (Date_toJSON now))) = Some now →
  metadata_current now provisionerId workerType
    (Ok {| md_metadata := Some (fresh_metadata now provisionerId workerType ∪ md);
           md_messageCount := n |}).
Proof.
  intros Hdate.
  destruct (fresh_metadata_lookup now provisionerId workerType) as (Hp & Ht & Hl).
  eexists _, _, now. split; [done|]. split; [done|].
  rewrite (lookup_union_Some_l _ _ _ _ Hp), (lookup_union_Some_l _ _ _ _ Ht),
    (lookup_union_Some_l _ _ _ _ Hl).
  repeat split; [done|lia].
Qed.

Lemma getMetadata_answer (q : string) c :
  (FakeQueueClient.getMetadata q c).1
  = match FakeQueueClient.queues c !! q with
    | Some queue => Ok {| md_metadata := FakeQueueClient.metadata c !! q;
                          md_messageCount := Z.of_nat (length queue) |}
    | None => Throw FakeQueueClient.QueueNotFound
    end.
Proof.
  unfold FakeQueueClient.getMetadata, FakeQueueClient._queue.
  by destruct (FakeQueueClient.queues c !! q).
Qed.

(** One shard of [ensurePendingQueue], from its settled [getMetadata]
    on, when the client has not touched the queue since. *)
Lemma resume_fake now (q provisionerId workerType : string) c0 w :
  described c0 → reachable (client_state w) →
  FakeQueueClient.queues (client_state w) !! q = FakeQueueClient.queues c0 !! q →
  FakeQueueClient.metadata (client_state w) !! q = FakeQueueClient.metadata c0 !! q →
  ∃ w1,
    _ensureQueueAndMetadata_resume fakeClient now q provisionerId workerType
      (FakeQueueClient.getMetadata q c0).1 w = (Ok (), w1)
    ∧ reachable (client_state w1)
    ∧ FakeQueueClient.draws (client_state w1) = FakeQueueClient.draws (client_state w)
    ∧ reported w1 = reported w
    ∧ FakeQueueClient.queues (client_state w1) !! q
      = Some (default [] (FakeQueueClient.queues (client_state w) !! q))
    ∧ (∀ q', q' ≠ q →
         FakeQueueClient.queues (client_state w1) !! q'
         = FakeQueueClient.queues (client_state w) !! q'
         ∧ FakeQueueClient.metadata (client_state w1) !! q'
           = FakeQueueClient.metadata (client_state w) !! q')
    ∧ (Date_new (Some (JStr (Date_toJSON now))) = Some now →
       metadata_current now provisionerId workerType
         (FakeQueueClient.getMetadata q (client_state w1)).1).
Proof.
  intros Hdesc Hreach Hq Hmd.
  unfold FakeQueueClient.getMetadata at 1. unfold FakeQueueClient._queue.
  destruct (FakeQueueClient.queues c0 !! q) as [queue|] eqn:Hq0.
  - destruct (Hdesc q) as [md Hmd0]; [by rewrite Hq0|]. rewrite Hmd0 in Hmd |- *.
    cbn [fst _ensureQueueAndMetadata_resume md_metadata].
    destruct (up_to_date now provisionerId workerType md) eqn:Hup.
    + exists w. unfold ret. rewrite Hq. cbn [default].
      repeat (split; [done|]). intros _.
      unfold FakeQueueClient.getMetadata, FakeQueueClient._queue. rewrite Hq, Hmd.
      apply up_to_date_spec in Hup as (Hp & Ht & t & Hdate & Hfresh).
      by eexists _, md, t.
    + rewrite call_spec. cbn [setMetadata fakeClient].
      unfold FakeQueueClient.setMetadata, FakeQueueClient._queue. rewrite Hq, Hmd.
      cbn [fst snd]. eexists. split; [done|].
      cbn [client_state with_client reported FakeQueueClient.queues FakeQueueClient.metadata
           FakeQueueClient.draws].
      split.
      { pose proof (reachable_perform now
                      (SetMetadata q (fresh_metadata now provisionerId workerType))
                      _ Hreach) as Hstep.
        cbn [perform setMetadata fakeClient] in Hstep.
        unfold FakeQueueClient.setMetadata, FakeQueueClient._queue in Hstep.
        by rewrite Hq, Hmd in Hstep. }
      split; [done|]. split; [done|]. rewrite Hq. split; [done|]. split.
      { intros q' Hne. by rewrite lookup_insert_ne. }
      intros Hdate. unfold FakeQueueClient.getMetadata, FakeQueueClient._queue.
      cbn [FakeQueueClient.queues FakeQueueClient.metadata]. rewrite Hq, lookup_insert_eq.
      by apply fresh_over_current.
  - cbn [fst _ensureQueueAndMetadata_resume]. unfold _ensureQueueAndMetadata_catch.
    rewrite (bool_decide_eq_false_2 (err_code FakeQueueClient.QueueNotFound ≠ _))
      by (intros Hne; by apply Hne).
    cbn [andb]. unfold try_catch. rewrite call_spec.
    cbn [fst snd createQueue fakeClient FakeQueueClient.createQueue].
    eexists. split; [done|].
    cbn [client_state with_client reported FakeQueueClient.queues FakeQueueClient.metadata
         FakeQueueClient.draws default].
    split.
    { apply (reachable_perform now
               (CreateQueue q (Some (fresh_metadata now provisionerId workerType)))
               _ Hreach). }
    split; [done|]. split; [done|]. rewrite Hq, lookup_insert_eq. split; [done|]. split.
    { intros q' Hne. by rewrite !lookup_insert_ne. }
    intros Hdate. unfold FakeQueueClient.getMetadata, FakeQueueClient._queue.
    cbn [FakeQueueClient.queues FakeQueueClient.metadata]. rewrite !lookup_insert_eq.
    rewrite <- (right_id_L ∅ (∪) (fresh_metadata now provisionerId workerType)).
    by apply fresh_over_current.
Qed.

(** The continuations of the shards, one after the other. *)
Lemma resume_all_fake now (provisionerId workerType : string) c0 (rest : list string) w :
  described c0 → NoDup rest → reachable (client_state w) →
  (∀ q, q ∈ rest →
     FakeQueueClient.queues (client_state w) !! q = FakeQueueClient.queues c0 !! q
     ∧ FakeQueueClient.metadata (client_state w) !! q = FakeQueueClient.metadata c0 !! q) →
  ∃ w',
    settle ((λ q, _ensureQueueAndMetadata_resume fakeClient now q provisionerId workerType
                    (FakeQueueClient.getMetadata q c0).1) <$> rest) w
    = ((λ _, Ok ()) <$> rest, w')
    ∧ reachable (client_state w')
    ∧ FakeQueueClient.draws (client_state w') = FakeQueueClient.draws (client_state w)
    ∧ reported w' = reported w
    ∧ (∀ q, q ∈ rest →
         FakeQueueClient.queues (client_state w') !! q
         = Some (default [] (FakeQueueClient.queues (client_state w) !! q))
         ∧ (Date_new (Some (JStr (Date_toJSON now))) = Some now →
            metadata_current now provisionerId workerType
              (FakeQueueClient.getMetadata q (client_state w')).1))
    ∧ (∀ q, q ∉ rest →
         FakeQueueClient.queues (client_state w') !! q
         = FakeQueueClient.queues (client_state w) !! q
         ∧ FakeQueueClient.metadata (client_state w') !! q
           = FakeQueueClient.metadata (client_state w) !! q).
Proof.
  intros Hdesc Hnodup. revert w.
  induction Hnodup as [|q rest Hfresh Hnodup IH]; intros w Hreach Hsame.
  - exists w. repeat (split; [done|]). split; [|done]. intros q Hin.
    by apply elem_of_nil in Hin.
  - destruct (Hsame q) as [Hq Hmd]; [by left|].
    destruct (resume_fake now q provisionerId workerType c0 w Hdesc Hreach Hq Hmd)
      as (w1 & Hrun & Hreach1 & Hdraws1 & Hrep1 & Hq1 & Hother1 & Hcur1).
    destruct (IH w1 Hreach1) as (w' & Hrest & Hreach' & Hdraws' & Hrep' & Hin' & Hout').
    { intros q' Hin'. destruct (Hother1 q') as [-> ->]; [by intros ->|].
      apply Hsame. by right. }
    exists w'. cbn [fmap list_fmap settle]. rewrite Hrun.
    change (list_fmap _ _ ?f rest) with (f <$> rest). rewrite Hrest.
    split; [done|]. split; [done|]. split; [congruence|]. split; [congruence|]. split.
    + intros q' [->|Hin]%elem_of_cons.
      * destruct (Hout' q Hfresh) as [Hsameq Hsamemd]. rewrite Hsameq. split; [done|].
        intros Hdate. specialize (Hcur1 Hdate). revert Hcur1.
        by rewrite !getMetadata_answer, Hsameq, Hsamemd.
      * destruct (Hin' q' Hin) as [Hq' Hcur']. split; [|done].
        rewrite Hq'. destruct (Hother1 q') as [-> _]; [by intros ->|done].
    + intros q' Hnotin. apply not_elem_of_cons in Hnotin as [Hne Hnotin].
      destruct (Hout' q' Hnotin) as [-> ->]. by apply Hother1.
Qed.

(** The [getMetadata] calls of a [Promise.all], all made before any
    answer is looked at: the client answers each from the same state. *)
Lemma settle_getMetadata_calls now (names : list string) w :
  ∃ w1,
    settle (getMetadata_call fakeClient now <$> names) w
    = ((λ q, (FakeQueueClient.getMetadata q (client_state w)).1) <$> names, w1)
    ∧ client_state w1 = client_state w ∧ reported w1 = reported w.
Proof.
  revert w. induction names as [|q names IH]; intros w.
  - by exists w.
  - cbn [fmap list_fmap settle]. unfold getMetadata_call at 1. rewrite call_spec.
    cbn [getMetadata fakeClient fst snd].
    assert ((FakeQueueClient.getMetadata q (client_state w)).2 = client_state w) as Hsame.
    { unfold FakeQueueClient.getMetadata. by destruct (FakeQueueClient._queue _ _) as [[]|]. }
    rewrite Hsame.
    destruct (IH (with_client (client_state w) (GetMetadata q) w)) as (w1 & Hrest & Hc & Hr).
    change (list_fmap _ _ ?f names) with (f <$> names). rewrite Hrest.
    exists w1. done.
Qed.

Lemma shards_resume now (provisionerId workerType : string) c0 (names : Names) :
  zip_with (λ (mb : M MetadataResult * (result MetadataResult → M ())) r, mb.2 r)
    (shards fakeClient now provisionerId workerType names)
    ((λ q, (FakeQueueClient.getMetadata q c0).1) <$> (snd <$> names))
  = (λ q, _ensureQueueAndMetadata_resume fakeClient now q provisionerId workerType
            (FakeQueueClient.getMetadata q c0).1) <$> (snd <$> names).
Proof.
  unfold shards. induction names as [|kv names IH]; [done|].
  cbn [fmap list_fmap zip_with snd]. f_equal. exact IH.
Qed.

Lemma first_rejection_all_Ok {A} (l : list A) :
  first_rejection (Ok <$> l) = Ok l.
Proof.
  induction l as [|a l IH]; [done|]. cbn [fmap list_fmap first_rejection].
  change (list_fmap _ _ ?f l) with (f <$> l). by rewrite IH.
Qed.

Lemma queue_names_NoDup (prefix provisionerId workerType : string) :
  NoDup (snd <$> queue_names prefix provisionerId workerType).
Proof.
  unfold queue_names. rewrite <- list_fmap_compose.
  change (NoDup ((λ k : string, namePrefix prefix provisionerId workerType +:+ k)
                   <$> (snd <$> PRIORITY_TO_CONSTANT))).
  apply NoDup_fmap_2; [apply _|].
  apply (bool_decide_unpack _). vm_compute. exact I.
Qed.

(** [ensurePendingQueue] over the in-memory client, on a key that is not
    in the cache. *)
Lemma ensurePendingQueue_fake now (provisionerId workerType : string) w :
  reachable (client_state w) →
  is_identifier provisionerId = true → is_identifier workerType = true →
  ¬ cached w (provisionerId +:+ "/" +:+ workerType) →
  let names := queue_names (prefix w) provisionerId workerType in
  ∃ w',
    ensurePendingQueue fakeClient now provisionerId workerType w = (Ok names, w')
    ∧ reachable (client_state w')
    ∧ FakeQueueClient.draws (client_state w') = FakeQueueClient.draws (client_state w)
    ∧ reported w' = reported w
    ∧ (∀ q, q ∈ snd <$> names →
         FakeQueueClient.queues (client_state w') !! q
         = Some (default [] (FakeQueueClient.queues (client_state w) !! q))
         ∧ (Date_new (Some (JStr (Date_toJSON now))) = Some now →
            metadata_current now provisionerId workerType
              (FakeQueueClient.getMetadata q (client_state w')).1))
    ∧ (∀ q, q ∉ snd <$> names →
         FakeQueueClient.queues (client_state w') !! q
         = FakeQueueClient.queues (client_state w) !! q
         ∧ FakeQueueClient.metadata (client_state w') !! q
           = FakeQueueClient.metadata (client_state w) !! q).
Proof.
  intros Hreach Hp Ht Hmiss names.
  rewrite (ensurePendingQueue_miss _ _ _ _ _ Hmiss).
  rewrite (ensurePendingQueue_create_eq _ _ _ _ _ Hp Ht). cbv zeta. fold names.
  pose proof (settle_async_length (shards fakeClient now provisionerId workerType names) w)
    as Hlen.
  rewrite <- (settled_at_length (shards fakeClient now provisionerId workerType names)
                (_ensureQueueAndMetadata_jobs now provisionerId workerType) w) in Hlen.
  revert Hlen. generalize (settled_at (shards fakeClient now provisionerId workerType names)
                             (_ensureQueueAndMetadata_jobs now provisionerId workerType) w).
  intros times. unfold settle_async.
  assert (fst <$> shards fakeClient now provisionerId workerType names
          = getMetadata_call fakeClient now <$> (snd <$> names)) as ->.
  { unfold shards. rewrite <- !list_fmap_compose. done. }
  destruct (settle_getMetadata_calls now (snd <$> names) w) as (w1 & -> & Hc1 & Hr1).
  rewrite shards_resume.
  destruct (resume_all_fake now provisionerId workerType (client_state w) (snd <$> names) w1)
    as (w' & -> & Hreach' & Hdraws' & Hrep' & Hin' & Hout').
  { by apply reachable_described. }
  { apply queue_names_NoDup. }
  { by rewrite Hc1. }
  { intros q _. by rewrite Hc1. }
  cbn [fst snd].
  change ((λ _ : string, Ok ()) <$> (snd <$> names))
    with ((λ q : string, Ok ((λ _, ()) q)) <$> (snd <$> names)).
  rewrite (list_fmap_compose (λ _ : string, ()) Ok). intros Hlen.
  rewrite (first_rejection_in_time_Ok _ _ _ (eq_sym Hlen) (first_rejection_all_Ok _)).
  eexists. split; [done|]. cbn [client_state with_queues reported].
  rewrite Hdraws', Hrep', Hc1, Hr1. split; [done|]. split; [done|]. split; [done|].
  split.
  - intros q Hq. destruct (Hin' q Hq) as [Hqueue Hcur]. by rewrite Hc1 in Hqueue.
  - intros q Hq. destruct (Hout' q Hq) as [Hqueue Hmd]. by rewrite Hc1 in Hqueue, Hmd.
Qed.

Lemma names_get_listed (prefix provisionerId workerType : string) (pr : Priority) :
  names_get (queue_names prefix provisionerId workerType) pr
  ∈ snd <$> queue_names prefix provisionerId workerType.
Proof.
  assert (∃ k, (pr, k) ∈ PRIORITY_TO_CONSTANT) as [k Hk].
  { unfold PRIORITY_TO_CONSTANT. destruct pr; eexists; repeat constructor. }
  destruct (queue_names_full prefix provisionerId workerType) as [_ Hget].
  rewrite (Hget pr k Hk). apply list_elem_of_fmap.
  exists (pr, namePrefix prefix provisionerId workerType +:+ k). split; [done|].
  unfold queue_names. apply list_elem_of_fmap. by exists (pr, k).
Qed.

(** A successful [ensurePendingQueue] leaves the client in a reachable
    state, draws no token and keeps every queue with its messages. *)
Lemma ensurePendingQueue_keeps now (provisionerId workerType : string) w names w0 :
  reachable (client_state w) →
  ensurePendingQueue fakeClient now provisionerId workerType w = (Ok names, w0) →
  reachable (client_state w0)
  ∧ FakeQueueClient.draws (client_state w0) = FakeQueueClient.draws (client_state w)
  ∧ (∀ q queue, FakeQueueClient.queues (client_state w) !! q = Some queue →
                FakeQueueClient.queues (client_state w0) !! q = Some queue)
  ∧ (cached w (provisionerId +:+ "/" +:+ workerType)
     ∨ names = queue_names (prefix w) provisionerId workerType
       ∧ ∀ q, q ∈ snd <$> names → is_Some (FakeQueueClient.queues (client_state w0) !! q)).
Proof.
  intros Hreach Hrun.
  destruct (queues w !! (provisionerId +:+ "/" +:+ workerType)) as [[names'|]|] eqn:Hc.
  { unfold ensurePendingQueue in Hrun. rewrite Hc in Hrun. injection Hrun as -> <-.
    repeat (split; [done|]). left. by eexists. }
  all: assert (¬ cached w (provisionerId +:+ "/" +:+ workerType)) as Hmiss
         by (intros [names' Hn]; congruence).
  all: destruct (is_identifier provisionerId) eqn:Hp;
         [destruct (is_identifier workerType) eqn:Ht|].
  all: try (rewrite (ensurePendingQueue_miss _ _ _ _ _ Hmiss) in Hrun;
            unfold ensurePendingQueue_create, bind, assert, throw, ret in Hrun;
            rewrite Hp, ?Ht in Hrun; discriminate Hrun).
  all: destruct (ensurePendingQueue_fake now provisionerId workerType w Hreach Hp Ht Hmiss)
         as (w' & Hrun' & Hreach' & Hdraws' & _ & Hin' & Hout');
       rewrite Hrun' in Hrun; injection Hrun as <- <-.
  all: split; [done|]; split; [done|]; split.
  1,3: intros q queue Hq;
       destruct (decide (q ∈ snd <$> queue_names (prefix w) provisionerId workerType))
         as [Hin|Hnotin];
       [destruct (Hin' q Hin) as [-> _]; by rewrite Hq
       |destruct (Hout' q Hnotin) as [-> _]; done].
  all: right; split; [done|]; intros q Hin; destruct (Hin' q Hin) as [-> _]; by eexists.
Qed.

(** X7: over the in-memory client, from any state the client can be
    in, [ensurePendingQueue] for a pair of identifiers that is not in
    the cache succeeds and reports nothing; afterwards each of the seven
    queues of the pair exists and [getMetadata] answers for it with
    current meta-data (both identifiers, [last_used] less than 23 hours
    old), given that the clock reading survives [toJSON] and [new Date];
    every queue that was there, of the pair or not, still holds the
    messages it held, and the queues that are not of the pair keep their
    meta-data. *)
Theorem ensurePendingQueue_settles_family now (provisionerId workerType : string) w :
  reachable (client_state w) →
  is_identifier provisionerId = true → is_identifier workerType = true →
  ¬ cached w (provisionerId +:+ "/" +:+ workerType) →
  Date_new (Some (JStr (Date_toJSON now))) = Some now →
  let names := queue_names (prefix w) provisionerId workerType in
  ∃ w',
    ensurePendingQueue fakeClient now provisionerId workerType w = (Ok names, w')
    ∧ reported w' = reported w
    ∧ (∀ pr, metadata_current now provisionerId workerType
               (FakeQueueClient.getMetadata (names_get names pr) (client_state w')).1)
    ∧ (∀ q queue, FakeQueueClient.queues (client_state w) !! q = Some queue →
                  FakeQueueClient.queues (client_state w') !! q = Some queue)
    ∧ (∀ q, q ∉ snd <$> names →
         FakeQueueClient.queues (client_state w') !! q
         = FakeQueueClient.queues (client_state w) !! q
         ∧ FakeQueueClient.metadata (client_state w') !! q
           = FakeQueueClient.metadata (client_state w) !! q).
Proof.
  intros Hreach Hp Ht Hmiss Hdate names.
  destruct (ensurePendingQueue_fake now provisionerId workerType w Hreach Hp Ht Hmiss)
    as (w' & Hrun & _ & _ & Hrep & Hin & Hout).
  fold names in Hrun, Hin, Hout.
  exists w'. split; [done|]. split; [done|]. split; [|split; [|done]].
  - intros pr. destruct (Hin (names_get names pr)) as [_ Hcur]; [|by apply Hcur].
    apply names_get_listed.
  - intros q queue Hq. destruct (decide (q ∈ snd <$> names)) as [Hq'|Hq'].
    + destruct (Hin q Hq') as [-> _]. by rewrite Hq.
    + destruct (Hout q Hq') as [-> _]. done.
Qed.

(** X15: over the in-memory client, a call of [countPendingMessages]
    that refreshes the count (the entry of the pair is more than 20
    seconds old or missing) for a pair of identifiers whose queues are
    not in the cache returns the number of messages stored in the seven
    queues of the pair, none for a queue that did not exist; it counts
    every stored message, whether visible, leased or expired. *)
Theorem countPendingMessages_counts_stored now (provisionerId workerType : string) w :
  reachable (client_state w) →
  is_identifier provisionerId = true → is_identifier workerType = true →
  ¬ cached w (provisionerId +:+ "/" +:+ workerType) →
  20 * 1000 < now - lastUpdated (default {| count := Ok 0; lastUpdated := 0 |}
                                   (countPendingCache w
                                      !! (provisionerId +:+ "/" +:+ workerType))) →
  (countPendingMessages fakeClient now provisionerId workerType w).1
  = Ok (foldr Z.add 0
          ((λ q, Z.of_nat (length (default [] (FakeQueueClient.queues (client_state w) !! q))))
             <$> (snd <$> queue_names (prefix w) provisionerId workerType))).
Proof.
  intros Hreach Hp Ht Hmiss Hstale. unfold countPendingMessages.
  apply Z.gtb_lt in Hstale. rewrite Hstale.
  set (w0 := with_countPendingCache _ w).
  destruct (ensurePendingQueue_fake now provisionerId workerType w0 Hreach Hp Ht Hmiss)
    as (w' & Hrun & _ & _ & _ & Hin & _).
  cbn [prefix with_countPendingCache client_state w0] in Hrun, Hin. fold w0 in Hrun.
  set (names := queue_names (prefix w) provisionerId workerType) in *.
  destruct (settle_getMetadata_calls now (snd <$> names) w') as (w2 & Hsettle & _ & _).
  set (results := (λ q, {| md_metadata := FakeQueueClient.metadata (client_state w') !! q;
                           md_messageCount :=
                             Z.of_nat (length (default [] (FakeQueueClient.queues
                                                             (client_state w) !! q))) |})
                    <$> (snd <$> names)).
  assert (Promise_all ((λ kv : Priority * string, getMetadata_call fakeClient now kv.2)
                         <$> names) w' = (Ok results, w2)) as Hall.
  { unfold Promise_all.
    assert ((λ kv : Priority * string, getMetadata_call fakeClient now kv.2) <$> names
            = getMetadata_call fakeClient now <$> (snd <$> names)) as ->
      by (by rewrite <- list_fmap_compose).
    rewrite Hsettle. cbv beta iota zeta.
    f_equal. rewrite <- (first_rejection_all_Ok results). f_equal. unfold results.
    clear Hsettle results. revert Hin. generalize (snd <$> names). intros qs Hin.
    rewrite <- list_fmap_compose. apply Forall_fmap_ext_1, Forall_forall.
    intros q Hq. destruct (Hin q Hq) as [Hqueue _]. cbn [compose].
    rewrite getMetadata_answer, Hqueue. done. }
  rewrite (count_refresh_sum _ _ _ _ _ _ _ _ _ Hrun Hall). cbn [fst].
  unfold results. by rewrite <- list_fmap_compose.
Qed.

End PendingFake.

(** ** Leases, expiry and delivery over the in-memory client *)

Section Delivery.
Context `{Runtime}.

Abbreviation Message := FakeQueueClient.Message.
Abbreviation visible := FakeQueueClient.visible.
Abbreviation leased := FakeQueueClient.leased.
Abbreviation handed_out := FakeQueueClient.handed_out.
Abbreviation ids queue := (FakeQueueClient.m_messageId <$> queue).

Implicit Types (c : FakeQueueClient.t) (m : Message) (queue : list Message)
  (now : Z) (name : string) (w : World (S := FakeQueueClient.t)).

(** After the loop every message of the queue that has the id of a
    message handed out is invisible until the visibility time of the
    call. *)
Lemma getMessages_loop_leases now vt n queue rv d queue' out d' :
  NoDup (ids queue) →
  FakeQueueClient.getMessages_loop now vt n queue rv d = (queue', out, d') →
  ∀ f m', f ∈ drop (length rv) out → m' ∈ queue' →
    FakeQueueClient.m_messageId m' = messageId f →
    FakeQueueClient._visibleAfter m' = vt.
Proof.
  revert rv d queue' out d'.
  induction queue as [|m queue IH]; intros rv d queue' out d' Hnodup; simpl.
  - intros [= <- <- <-] f m' _ Hin. by apply elem_of_nil in Hin.
  - rewrite fmap_cons in Hnodup. apply NoDup_cons in Hnodup as [Hfresh Hnodup].
    destruct (visible now m) eqn:Hvis.
    + destruct (Z.of_nat (length (rv ++ [handed_out (slugid_v4 d) m])) =? n).
      * intros [= <- <- <-] f m'. rewrite drop_app_length.
        intros ->%list_elem_of_singleton [->|Hin]%elem_of_cons; [done|].
        simpl. intros Hid. exfalso. apply Hfresh. rewrite <- Hid.
        by apply list_elem_of_fmap_2.
      * destruct (FakeQueueClient.getMessages_loop now vt n queue _ (S d))
          as [[rest' out'] d''] eqn:Hloop.
        intros [= <- <- <-] f m' Hf Hm' Hid.
        pose proof (getMessages_loop_ids _ _ _ _ _ _ _ _ _ Hloop) as Hids.
        pose proof Hloop as (_ & new & -> & _ & Hnew)%getMessages_loop_spec.
        rewrite <- app_assoc, drop_app_length in Hf. simpl in Hf.
        apply elem_of_cons in Hf as [->|Hf].
        -- apply elem_of_cons in Hm' as [->|Hm']; [done|].
           exfalso. apply Hfresh. simpl in Hid. rewrite <- Hid, <- Hids.
           by apply list_elem_of_fmap_2.
        -- apply elem_of_cons in Hm' as [->|Hm'].
           ++ exfalso. apply Hfresh. simpl in Hid. rewrite Hid.
              rewrite Forall_forall in Hnew.
              destruct (Hnew f Hf) as (m1 & k & Hm1 & _ & _ & ->). simpl.
              by apply list_elem_of_fmap_2.
           ++ eapply (IH _ _ _ _ _ Hnodup Hloop); [|done..].
              by rewrite drop_app_length.
    + destruct (FakeQueueClient.getMessages_loop now vt n queue rv d)
        as [[rest' out'] d''] eqn:Hloop.
      intros [= <- <- <-] f m' Hf Hm' Hid.
      pose proof Hloop as (_ & new & -> & _ & Hnew)%getMessages_loop_spec.
      apply elem_of_cons in Hm' as [->|Hm'].
      * exfalso. apply Hfresh. rewrite Hid. rewrite drop_app_length in Hf.
        rewrite Forall_forall in Hnew.
        destruct (Hnew f Hf) as (m1 & k & Hm1 & _ & _ & ->). simpl.
        by apply list_elem_of_fmap_2.
      * by eapply (IH _ _ _ _ _ Hnodup Hloop).
Qed.

(** Right after a fetch, every message handed out is hidden until the
    end of its lease. *)
Lemma getMessages_hides now name (vis n : Z) c fetched c' (f : FetchedMessage) :
  unique c →
  FakeQueueClient.getMessages now name vis n c = (Ok fetched, c') →
  f ∈ fetched → hidden (messageId f) (fromNow now vis) c' name.
Proof.
  intros Hunique. unfold FakeQueueClient.getMessages.
  destruct (FakeQueueClient._queue name c) as [[queue md]|] eqn:Hq0; [|done].
  apply _queue_Ok in Hq0.
  destruct (FakeQueueClient.getMessages_loop _ _ _ _ _ _) as [[queue1 out] d'] eqn:Hloop.
  intros [= <- <-] Hf m' (queue' & Hq' & Hm') Hid. simpl in Hq'.
  rewrite lookup_insert_eq in Hq'. injection Hq' as <-.
  rewrite (getMessages_loop_leases _ _ _ _ _ _ _ _ _ (Hunique _ _ Hq0) Hloop f m'); done.
Qed.

Lemma hidden_perform (id : string) (gate : Z) now (call : Call) c name :
  Inj (=) (=) slugid_v4 →
  now ≤ gate → keeps_lease id call → spent id c → hidden id gate c name →
  hidden id gate (perform fakeClient now call c) name.
Proof.
  intros Hinj Hnow Hkeeps (k0 & Hk0 & ->) Hhidden m' Hstored.
  apply perform_stored in Hstored
    as [Hold|[(text & vis & ttl & -> & -> & Hd)|[(vis & n & m & k & -> & Hm & Hv & _ & ->)
           |(text & id' & pop & vis & m & -> & Hm & Hid & Hpop & ->)]]].
  - by apply Hhidden.
  - simpl. intros Heq. apply Hinj in Heq. lia.
  - simpl. intros Hid. pose proof (Hhidden m Hm Hid) as Hgate.
    unfold FakeQueueClient.visible in Hv. lia.
  - simpl. intros Hid'. simpl in Hkeeps. congruence.
Qed.

Lemma hidden_perform_all (id : string) (gate : Z) (history : list (Z * Call)) c name :
  Inj (=) (=) slugid_v4 →
  Forall (λ tc, tc.1 ≤ gate ∧ keeps_lease id tc.2) history → spent id c →
  hidden id gate c name →
  hidden id gate (perform_all fakeClient history c) name.
Proof.
  intros Hinj Hhist. revert c.
  induction Hhist as [|[now call] history [Hnow Hkeeps] _ IH]; intros c Hs Hh; [done|].
  simpl. apply IH; [by apply spent_perform | by apply hidden_perform].
Qed.

Lemma hidden_not_fetched (id : string) (gate : Z) now name (vis n : Z) c fetched
    (f : FetchedMessage) :
  now ≤ gate → hidden id gate c name →
  (FakeQueueClient.getMessages now name vis n c).1 = Ok fetched →
  f ∈ fetched → messageId f ≠ id.
Proof.
  intros Hnow Hhidden Hget Hf Hid.
  destruct (getMessages_fetched _ _ _ _ _ _ _ Hget Hf) as (m & k & Hm & Hv & _ & ->).
  pose proof (Hhidden m Hm Hid) as Hgate. unfold FakeQueueClient.visible in Hv. lia.
Qed.

(** X12: over the in-memory client with tokens that never repeat, a
    message handed out by [getMessages] with a visibility timeout is not
    handed out again up to the end of that time: whatever calls follow
    at clock readings up to then, unless one is an [updateMessage] for
    the id of the message, no [getMessages] up to then returns a message
    with that id. *)
Theorem lease_is_exclusive now name (vis n : Z) c fetched c' (f : FetchedMessage) :
  Inj (=) (=) slugid_v4 → reachable c →
  FakeQueueClient.getMessages now name vis n c = (Ok fetched, c') →
  f ∈ fetched →
  ∀ (history : list (Z * Call)) t (vis' n' : Z) fetched' (f' : FetchedMessage),
    Forall (λ tc, tc.1 ≤ fromNow now vis ∧ keeps_lease (messageId f) tc.2) history →
    t ≤ fromNow now vis →
    (FakeQueueClient.getMessages t name vis' n' (perform_all fakeClient history c')).1
      = Ok fetched' →
    f' ∈ fetched' → messageId f' ≠ messageId f.
Proof.
  intros Hinj Hreach Hget Hf history t vis' n' fetched' f' Hhist Ht Hget' Hf'.
  eapply (hidden_not_fetched _ (fromNow now vis)); [exact Ht| |exact Hget'|exact Hf'].
  apply hidden_perform_all; [done|done| |].
  - pose proof (getMessages_spent now name vis n c fetched f (reachable_drawn _ Hreach))
      as Hspent.
    rewrite Hget in Hspent. by apply Hspent.
  - eapply getMessages_hides; [|exact Hget|exact Hf]. by apply reachable_unique.
Qed.

Lemma expires_perform (id : string) (expiry : Z) now (call : Call) c name :
  Inj (=) (=) slugid_v4 → spent id c → expires id expiry c name →
  expires id expiry (perform fakeClient now call c) name.
Proof.
  intros Hinj (k0 & Hk0 & ->) Hexp m' Hstored.
  apply perform_stored in Hstored
    as [Hold|[(text & vis & ttl & -> & -> & Hd)|[(vis & n & m & k & -> & Hm & _ & _ & ->)
           |(text & id' & pop & vis & m & -> & Hm & _ & _ & ->)]]].
  - by apply Hexp.
  - simpl. intros Heq. apply Hinj in Heq. lia.
  - simpl. by apply Hexp.
  - simpl. by apply Hexp.
Qed.

Lemma expires_perform_all (id : string) (expiry : Z) (history : list (Z * Call)) c name :
  Inj (=) (=) slugid_v4 → spent id c → expires id expiry c name →
  expires id expiry (perform_all fakeClient history c) name.
Proof.
  intros Hinj. revert c.
  induction history as [|[now call] history IH]; intros c Hs He; [done|].
  simpl. apply IH; [by apply spent_perform | by apply expires_perform].
Qed.

Lemma expires_not_fetched (id : string) (expiry : Z) now name (vis n : Z) c fetched
    (f : FetchedMessage) :
  expiry < now → expires id expiry c name →
  (FakeQueueClient.getMessages now name vis n c).1 = Ok fetched →
  f ∈ fetched → messageId f ≠ id.
Proof.
  intros Hnow Hexp Hget Hf Hid.
  destruct (getMessages_fetched _ _ _ _ _ _ _ Hget Hf) as (m & k & Hm & Hv & _ & ->).
  pose proof (Hexp m Hm Hid) as Hexpiry. unfold FakeQueueClient.visible in Hv. lia.
Qed.

(** The message that a successful [putMessage] adds: the only one with
    its id, in the queue named and in no other. *)
Lemma putMessage_only now name (text : string) (vis ttl : Z) c :
  Inj (=) (=) slugid_v4 → drawn c →
  (FakeQueueClient.putMessage now name text vis ttl c).1 = Ok () →
  let c1 := (FakeQueueClient.putMessage now name text vis ttl c).2 in
  let id := slugid_v4 (FakeQueueClient.draws c) in
  stored c1 name (put_message now text vis ttl c)
  ∧ spent id c1
  ∧ expires id (fromNow now ttl) c1 name
  ∧ ∀ other, other ≠ name → absent id c1 other.
Proof.
  intros Hinj Hdrawn Hok c1 id.
  destruct (putMessage_Ok _ _ _ _ _ _ Hok) as (queue & Hq & Hq1 & Hd1).
  fold c1 in Hq1, Hd1.
  split; [|split; [|split]].
  - exists (queue ++ [put_message now text vis ttl c]). split; [done|].
    apply elem_of_app. right. by left.
  - exists (FakeQueueClient.draws c). split; [lia|done].
  - intros m (queue1 & Hq1' & Hin) Hid. rewrite Hq1 in Hq1'. injection Hq1' as <-.
    apply elem_of_app in Hin as [Hin|Hin%list_elem_of_singleton]; [|by subst].
    destruct (Hdrawn name m) as (k & Hk & Hid'); [by exists queue|].
    rewrite Hid' in Hid. apply Hinj in Hid. lia.
  - intros other Hne m (queue1 & Hq1' & Hin) Hid.
    assert (FakeQueueClient.queues c !! other = Some queue1) as Hother.
    { revert Hq1'. unfold c1, FakeQueueClient.putMessage, FakeQueueClient._queue.
      rewrite Hq. cbn [snd FakeQueueClient.queues]. by rewrite lookup_insert_ne. }
    destruct (Hdrawn other m) as (k & Hk & Hid'); [by exists queue1|].
    rewrite Hid' in Hid. apply Hinj in Hid. lia.
Qed.

(** What [putPendingMessage] does to the in-memory client when it
    succeeds. *)
Lemma putPendingMessage_fake now (task : Task) (runId : Z) w names w0 w1 :
  ensurePendingQueue fakeClient now (task_provisionerId task) (task_workerType task) w
    = (Ok names, w0) →
  putPendingMessage fakeClient now task runId w = (Ok (), w1) →
  ∃ text,
    (FakeQueueClient.putMessage now (names_get names (task_priority task)) text 0
       (secondsTo (task_deadline task) now) (client_state w0)).1 = Ok ()
    ∧ client_state w1
      = (FakeQueueClient.putMessage now (names_get names (task_priority task)) text 0
           (secondsTo (task_deadline task) now) (client_state w0)).2.
Proof.
  intros Hensure. rewrite (putPendingMessage_publishes _ _ _ _ _ _ _ Hensure).
  unfold _putMessage. rewrite call_spec.
  cbn [putMessage fakeClient client_state with_slug_drawn with_client].
  intros [= Hok <-]. eexists. split; [exact Hok|done].
Qed.

(** X5: over the in-memory client with tokens that never repeat, the
    message that [putPendingMessage] puts for a task whose deadline is
    still ahead is in the queue of the task's priority, visible from
    the next clock reading on, and expires at the deadline or less than
    a second after it; whatever calls follow, no [getMessages] at a
    clock reading after that expiry returns it. *)
Theorem pending_message_lifetime now (task : Task) (runId : Z) w names w0 w1 :
  Inj (=) (=) slugid_v4 → reachable (client_state w) →
  now < task_deadline task →
  ensurePendingQueue fakeClient now (task_provisionerId task) (task_workerType task) w
    = (Ok names, w0) →
  putPendingMessage fakeClient now task runId w = (Ok (), w1) →
  let name := names_get names (task_priority task) in
  let id := slugid_v4 (FakeQueueClient.draws (client_state w)) in
  ∃ m, stored (client_state w1) name m
    ∧ FakeQueueClient.m_messageId m = id
    ∧ FakeQueueClient._visibleAfter m = now
    ∧ task_deadline task ≤ FakeQueueClient._expiresAfter m < task_deadline task + 1000
    ∧ ∀ (history : list (Z * Call)) t (vis n : Z) fetched (f : FetchedMessage),
        FakeQueueClient._expiresAfter m < t →
        (FakeQueueClient.getMessages t name vis n
           (perform_all fakeClient history (client_state w1))).1 = Ok fetched →
        f ∈ fetched → messageId f ≠ id.
Proof.
  intros Hinj Hreach Hfuture Hensure Hput name id.
  destruct (ensurePendingQueue_keeps _ _ _ _ _ _ Hreach Hensure) as (Hreach0 & Hdraws & _).
  destruct (putPendingMessage_fake _ _ _ _ _ _ _ Hensure Hput) as (text & Hok & Hc1).
  fold name in Hok, Hc1.
  destruct (putMessage_only now name text 0 (secondsTo (task_deadline task) now)
              (client_state w0) Hinj (reachable_drawn _ Hreach0) Hok)
    as (Hstored & Hspent & Hexp & _).
  rewrite <- Hc1, Hdraws in *. fold id in Hspent, Hexp.
  exists (put_message now text 0 (secondsTo (task_deadline task) now) (client_state w0)).
  split; [done|]. split; [unfold put_message; simpl; by rewrite Hdraws|].
  pose proof (secondsTo_covers (task_deadline task) now) as Hcovers.
  pose proof (secondsTo_margin (task_deadline task) now Hfuture) as Hmargin.
  unfold put_message. cbn [FakeQueueClient._visibleAfter FakeQueueClient._expiresAfter].
  split; [unfold fromNow; lia|]. split; [lia|].
  intros history t vis n fetched f Hlate Hget Hf.
  eapply (expires_not_fetched id); [exact Hlate| |exact Hget|exact Hf].
  by apply expires_perform_all.
Qed.

Lemma names_get_constant (prefix provisionerId workerType : string) (pr : Priority) :
  names_get (queue_names prefix provisionerId workerType) pr
  = namePrefix prefix provisionerId workerType
    +:+ match pr with
        | highest => "7" | very_high => "6" | high => "5" | medium => "4"
        | low => "3" | very_low => "2" | lowest => "1"
        end.
Proof.
  destruct (queue_names_full prefix provisionerId workerType) as [_ Hget].
  destruct pr; apply Hget; unfold PRIORITY_TO_CONSTANT; repeat constructor.
Qed.

(** X6: the seven queues of a pair of identifiers have seven different
    names, and over the in-memory client with tokens that never repeat
    the message that [putPendingMessage] puts for a task is in the
    queue of the task's priority and in no other: whatever calls
    follow, no [getMessages] on the queue of another priority returns
    it.  The cache is taken to hold, for the pair, nothing but the names
    that [ensurePendingQueue] stores. *)
Theorem pending_message_routed now (task : Task) (runId : Z) w w1 :
  Inj (=) (=) slugid_v4 → reachable (client_state w) →
  (∀ names', queues w !! (task_provisionerId task +:+ "/" +:+ task_workerType task)
             = Some (Some (Ok names')) →
             names' = queue_names (prefix w) (task_provisionerId task)
                        (task_workerType task)) →
  putPendingMessage fakeClient now task runId w = (Ok (), w1) →
  let names := queue_names (prefix w) (task_provisionerId task) (task_workerType task) in
  let id := slugid_v4 (FakeQueueClient.draws (client_state w)) in
  (∃ m, stored (client_state w1) (names_get names (task_priority task)) m
        ∧ FakeQueueClient.m_messageId m = id)
  ∧ ∀ pr, pr ≠ task_priority task →
      names_get names pr ≠ names_get names (task_priority task)
      ∧ ∀ (history : list (Z * Call)) t (vis n : Z) fetched (f : FetchedMessage),
          (FakeQueueClient.getMessages t (names_get names pr) vis n
             (perform_all fakeClient history (client_state w1))).1 = Ok fetched →
          f ∈ fetched → messageId f ≠ id.
Proof.
  intros Hinj Hreach Hcache Hput names id.
  destruct (ensurePendingQueue fakeClient now (task_provisionerId task)
              (task_workerType task) w) as [[names'|e] w0] eqn:Hensure.
  2: { unfold putPendingMessage, bind in Hput. by rewrite Hensure in Hput. }
  destruct (ensurePendingQueue_keeps _ _ _ _ _ _ Hreach Hensure)
    as (Hreach0 & Hdraws & _ & Hnames).
  assert (names' = names) as ->.
  { destruct Hnames as [[promise Hc]|[-> _]]; [|done].
    revert Hensure. unfold ensurePendingQueue. rewrite Hc. intros [= -> _].
    by apply Hcache. }
  destruct (putPendingMessage_fake _ _ _ _ _ _ _ Hensure Hput) as (text & Hok & Hc1).
  destruct (putMessage_only now (names_get names (task_priority task)) text 0
              (secondsTo (task_deadline task) now)
              (client_state w0) Hinj (reachable_drawn _ Hreach0) Hok)
    as (Hstored & Hspent & _ & Habsent).
  rewrite <- Hc1, Hdraws in *. fold id in Hspent, Habsent.
  split.
  { eexists. split; [exact Hstored|]. unfold put_message. simpl. by rewrite Hdraws. }
  intros pr Hpr.
  assert (names_get names pr ≠ names_get names (task_priority task)) as Hne.
  { unfold names. rewrite !names_get_constant. intros Heq.
    apply (inj (String.append _)) in Heq.
    by destruct pr, (task_priority task). }
  split; [done|].
  intros history t vis n fetched f Hget Hf.
  eapply (absent_not_fetched id); [|exact Hget|exact Hf].
  apply (absent_perform_all Hinj); [done|]. by apply Habsent.
Qed.

End Delivery.

(** ** The resolved queue *)

Section Resolved.
Context `{Runtime} {S : Type} (client : QueueClient S).

Implicit Types (w : World (S := S)) (now : Z).

(** A resolved message fetched makes it into what [pollResolvedQueue]
    returns, when that poll returns. *)
Lemma pollResolvedQueue_presents now w (taskId taskGroupId schedulerId resolution : string)
    (f : FetchedMessage) fetched msgs :
  resolvedQueueReady w = Some (Ok ()) →
  (getMessages client now (resolvedQueue w) 600 32 (client_state w)).1 = Ok fetched →
  f ∈ fetched →
  JSON_parse (base64_decode (messageText f))
    = Some (JObj [("taskId", JStr taskId); ("taskGroupId", JStr taskGroupId);
                  ("schedulerId", JStr schedulerId); ("resolution", JStr resolution)]) →
  (pollResolvedQueue client now w).1 = Ok msgs →
  ∃ rm, rm ∈ msgs ∧ rm_taskId rm = Some (JStr taskId)
        ∧ rm_taskGroupId rm = Some (JStr taskGroupId)
        ∧ rm_schedulerId rm = Some (JStr schedulerId)
        ∧ rm_resolution rm = Some (JStr resolution)
        ∧ rm_remove rm
          = (λ now', call (DeleteMessage (resolvedQueue w) (messageId f) (popReceipt f))
                          (deleteMessage client now' (resolvedQueue w) (messageId f)
                             (popReceipt f))).
Proof.
  intros Hready Hget Hf Hparse.
  unfold pollResolvedQueue, bind, ensureResolvedQueue, gets, lift. rewrite Hready.
  change (10 * 60) with 600.
  destruct (_getMessages_spec client (resolvedQueue w) now 600 32 w) as [_ Hspec].
  destruct (_getMessages client now (resolvedQueue w) 600 32 w) as [[rms|e] w']; [|done].
  destruct (Hspec rms eq_refl) as (fetched' & Hget' & Hrms).
  rewrite Hget in Hget'. injection Hget' as <-.
  destruct (map_result _ rms) as [out|e] eqn:Hout; [|done].
  cbn [fst]. intros [= <-]. apply map_result_Forall2 in Hout.
  destruct (Forall2_elem_of_l _ _ _ _ Hrms Hf) as (rm & Hrm & Hrec).
  destruct (Forall2_elem_of_l _ _ _ _ Hout Hrm) as (res & Hres & Hconv).
  exists res. split; [done|].
  apply received_payload in Hrec as (Hp & Hremove & _).
  rewrite Hparse in Hp. injection Hp as Hp.
  rewrite <- Hp in Hconv. simpl in Hconv. injection Hconv as <-. simpl.
  by rewrite Hremove.
Qed.

End Resolved.

Section ResolvedFake.
Context `{Runtime}.

Implicit Types (c : FakeQueueClient.t) (w : World (S := FakeQueueClient.t)) (now : Z).

Lemma ensureResolvedQueue_fake now w :
  let done := ensureResolvedQueue fakeClient now w in
  ((∀ e, resolvedQueueReady w ≠ Some (Throw e)) → done.1 = Ok ())
  ∧ (done.1 = Ok () → resolvedQueueReady done.2 = Some (Ok ()))
  ∧ resolvedQueue done.2 = resolvedQueue w
  ∧ FakeQueueClient.draws (client_state done.2) = FakeQueueClient.draws (client_state w)
  ∧ (reachable (client_state w) → reachable (client_state done.2)).
Proof.
  unfold ensureResolvedQueue. destruct (resolvedQueueReady w) as [[[]|e]|] eqn:Hready.
  1,2: cbn [fst snd]; repeat split; try done; intros Hnone; by destruct (Hnone e).
  rewrite call_spec. cbn [fst snd createQueue fakeClient FakeQueueClient.createQueue].
  repeat split. intros Hreach.
  apply (reachable_perform now (CreateQueue (resolvedQueue w) None)), Hreach.
Qed.


(** A message that was never handed out stays so, and invisible, while
    the clock is not past its visibility time. *)
Lemma gated_at (id : string) (gate : Z) (history : list (Z * Call)) c (name : string) :
  Inj (=) (=) slugid_v4 →
  Forall (λ tc : Z * Call, tc.1 ≤ gate) history → spent id c → gated id gate c name →
  gated id gate (perform_all fakeClient history c) name.
Proof.
  intros Hinj Hhist. revert c.
  induction Hhist as [|[now call] history Hnow _ IH]; intros c Hs Hg; [done|].
  simpl. apply IH; [by apply spent_perform|]. clear IH.
  destruct Hs as (k0 & Hk0 & ->). intros m' Hstored.
  apply perform_stored in Hstored
    as [Hold|[(text & vis & ttl & -> & -> & Hd)|[(vis & n & m & k & -> & Hm & Hv & _ & ->)
           |(text & id' & pop & vis & m & -> & Hm & Hid & Hpop & ->)]]].
  - by apply Hg.
  - simpl. intros Heq. apply Hinj in Heq. lia.
  - simpl. intros Hid. destruct (Hg m Hm Hid) as [Hgate _].
    unfold FakeQueueClient.visible in Hv. simpl in Hnow. lia.
  - simpl. intros Hid'. destruct (Hg m Hm Hid') as [_ Hnone]. congruence.
Qed.

(** X4: over the in-memory client with tokens that never repeat, the
    message of a successful [putResolvedMessage] at time T is in the
    resolved queue with a TTL of 7 days; no [getMessages] at a clock
    reading up to T returns it (a message is visible only after its
    visibility time), and a [pollResolvedQueue] at a later clock reading
    within the TTL, with fewer than 32 visible messages before it in the
    queue, presents it, when it returns, with its task id, task group
    id, scheduler id and resolution and with a [remove] that deletes it
    by the id and receipt handed out. *)
Theorem resolved_round_trip (T : Z) (taskId taskGroupId schedulerId resolution : string)
    w w1 :
  Inj (=) (=) slugid_v4 → reachable (client_state w) →
  putResolvedMessage fakeClient T taskId taskGroupId schedulerId resolution w = (Ok (), w1) →
  let X := JObj [("taskId", JStr taskId); ("taskGroupId", JStr taskGroupId);
                 ("schedulerId", JStr schedulerId); ("resolution", JStr resolution)] in
  let id := slugid_v4 (FakeQueueClient.draws (client_state w)) in
  resolvedQueueReady w1 = Some (Ok ()) ∧ resolvedQueue w1 = resolvedQueue w
  ∧ ∃ m, stored (client_state w1) (resolvedQueue w) m
      ∧ FakeQueueClient.m_messageId m = id
      ∧ FakeQueueClient.m_messageText m = base64_encode (JSON_stringify X)
      ∧ FakeQueueClient._visibleAfter m = T
      ∧ FakeQueueClient._expiresAfter m = T + 7 * 24 * 60 * 60 * 1000
      ∧ (∀ (history : list (Z * Call)) t (vis n : Z) fetched (f : FetchedMessage),
           Forall (λ tc, tc.1 ≤ T) history → t ≤ T →
           (FakeQueueClient.getMessages t (resolvedQueue w) vis n
              (perform_all fakeClient history (client_state w1))).1 = Ok fetched →
           f ∈ fetched → messageId f ≠ id)
      ∧ (∀ (wa : World (S := FakeQueueClient.t)) t pre post msgs,
           JSON_parse (base64_decode (base64_encode (JSON_stringify X))) = Some X →
           resolvedQueueReady wa = Some (Ok ()) → resolvedQueue wa = resolvedQueue w →
           FakeQueueClient.queues (client_state wa) !! resolvedQueue w
             = Some (pre ++ m :: post) →
           T < t → t ≤ T + 7 * 24 * 60 * 60 * 1000 →
           Z.of_nat (length (filter (λ m0, FakeQueueClient.visible t m0) pre)) < 32 →
           (pollResolvedQueue fakeClient t wa).1 = Ok msgs →
           ∃ rm k, rm ∈ msgs ∧ rm_taskId rm = Some (JStr taskId)
             ∧ rm_taskGroupId rm = Some (JStr taskGroupId)
             ∧ rm_schedulerId rm = Some (JStr schedulerId)
             ∧ rm_resolution rm = Some (JStr resolution)
             ∧ rm_remove rm
               = (λ now', call (DeleteMessage (resolvedQueue w) id (slugid_v4 k))
                               (deleteMessage fakeClient now' (resolvedQueue w) id
                                  (slugid_v4 k)))).
Proof.
  intros Hinj Hreach Hput X id.
  unfold putResolvedMessage, bind, assert, gets in Hput.
  destruct (truthy taskId); [|done]. cbn [ret] in Hput.
  destruct (truthy taskGroupId); [|done]. cbn [ret] in Hput.
  destruct (truthy schedulerId); [|done]. cbn [ret] in Hput.
  destruct (_ || _); [|done]. cbn [ret] in Hput.
  destruct (ensureResolvedQueue_fake T w) as (Hok & Hready & Hname & Hdraws & Hreach0).
  destruct (ensureResolvedQueue fakeClient T w) as [[[]|e] w0]; [|done].
  cbn [fst snd] in *. specialize (Hready eq_refl). unfold _putMessage in Hput. rewrite call_spec in Hput.
  fold X in Hput. cbn [putMessage fakeClient] in Hput.
  injection Hput as Hput Hw1. rewrite Hname in Hput, Hw1.
  change (7 * 24 * 60 * 60) with 604800 in *.
  set (text := base64_encode (JSON_stringify X)) in *.
  pose proof (reachable_drawn _ (Hreach0 Hreach)) as Hdrawn.
  destruct (putMessage_invariants T (resolvedQueue w) text 0 604800 (client_state w0)
              Hinj Hdrawn Hput) as (Hspent & Hgated & _).
  destruct (putMessage_Ok _ _ _ _ _ _ Hput) as (queue & Hq & Hq1 & _).
  rewrite Hdraws in Hspent, Hgated. fold id in Hspent, Hgated.
  rewrite <- Hw1. cbn [resolvedQueueReady resolvedQueue client_state with_client].
  split; [done|]. split; [done|].
  exists (put_message T text 0 604800 (client_state w0)).
  split; [|split; [|split; [|split; [|split; [|split]]]]].
  - eexists. split; [exact Hq1|]. apply elem_of_app. right. by left.
  - unfold put_message. simpl. by rewrite Hdraws.
  - done.
  - unfold put_message, fromNow. simpl. lia.
  - unfold put_message, fromNow. simpl. lia.
  - intros history t vis n fetched f Hhist Ht Hget Hf Hid.
    pose proof (gated_at id T history _ (resolvedQueue w) Hinj Hhist Hspent) as Hlater.
    destruct (getMessages_fetched _ _ _ _ _ _ _ Hget Hf) as (m & k & Hm & Hv & _ & ->).
    destruct (Hlater) with (m := m) as [Hgate _]; [|done|done|].
    { intros m0 Hm0 Hid0. destruct (Hgated m0 Hm0 Hid0) as [Hvis Hnone].
      unfold fromNow in Hvis. split; [lia|done]. }
    unfold FakeQueueClient.visible in Hv. lia.
  - intros wa t pre post msgs Hcodec Hreadya Hnamea Hqa Hafter Hbefore Hroom Hpoll.
    destruct (getMessages_delivers t (resolvedQueue w) 600 32 (client_state wa) pre
                (put_message T text 0 604800 (client_state w0)) post Hqa)
      as (fetched & k & Hget & Hin); [|done|].
    { unfold FakeQueueClient.visible, put_message, fromNow. simpl.
      apply andb_true_iff. split; [apply Z.gtb_lt|apply Z.leb_le]; lia. }
    rewrite <- Hnamea in Hget.
    destruct (pollResolvedQueue_presents fakeClient t wa taskId taskGroupId schedulerId
                resolution _ fetched msgs Hreadya Hget Hin Hcodec Hpoll)
      as (rm & Hrm & Htask & Hgroup & Hsched & Hres & Hremove).
    exists rm, k. repeat (split; [done|]).
    rewrite Hremove, Hnamea. unfold put_message. simpl. by rewrite Hdraws.
Qed.

Lemma filter_marked_complete (since : Z) (listed : list (string * option Metadata)) marked
    (name : string) (md : Metadata) :
  filter_marked since listed = Ok marked →
  (name, Some md) ∈ listed → marked_for_deletion since md = true →
  (name, md) ∈ marked.
Proof.
  revert marked. induction listed as [|[name' [md'|]] listed IH]; intros marked; simpl.
  - intros _ Hin. by apply elem_of_nil in Hin.
  - destruct (filter_marked since listed) as [rest|e]; [|done].
    intros Hrun [[= -> ->]|Hin]%elem_of_cons Hmarked.
    + rewrite Hmarked in Hrun. injection Hrun as <-. by left.
    + destruct (marked_for_deletion since md'); injection Hrun as <-.
      * right. by apply IH.
      * by apply IH.
  - done.
Qed.

Lemma not_marked_in_use now (md : Metadata) :
  marked_for_deletion (now - 10 * 24 * 60 * 60 * 1000) md = false → in_use now md.
Proof.
  unfold marked_for_deletion, in_use.
  destruct (falsy (md !! "provisioner_id")); [done|].
  destruct (falsy (md !! "worker_type")); [done|].
  destruct (Date_new _) as [t|]; [|done]. simpl.
  intros Hlt%Z.ltb_ge. repeat (split; [done|]). exists t. split; [done|lia].
Qed.

(** X8: over the in-memory client, from any state the client can be
    in, [deleteUnusedWorkerQueues] deletes every queue that holds no
    message and is not in use, that is, whose meta-data lacks the
    provisioner id or the worker type or has a [last_used] that is no
    valid date or is more than 10 days before [now]; the meta-data of a
    deleted queue goes with it.  The in-memory [listQueues] ignoring
    the prefix, this holds for queues of any name. *)
Theorem deleteUnusedWorkerQueues_complete (pages : nat) now w :
  reachable (client_state w) →
  ∃ n w',
    deleteUnusedWorkerQueues fakeClient (Datatypes.S pages) now w = Some (Ok n, w')
    ∧ ∀ (name : string) (md : Metadata),
        FakeQueueClient.queues (client_state w) !! name = Some [] →
        FakeQueueClient.metadata (client_state w) !! name = Some md →
        ¬ in_use now md →
        FakeQueueClient.queues (client_state w') !! name = None
        ∧ FakeQueueClient.metadata (client_state w') !! name = None.
Proof.
  intros Hdesc%reachable_described.
  set (c := client_state w).
  set (since := now - 10 * 24 * 60 * 60 * 1000).
  set (listed := (λ kv : string * list FakeQueueClient.Message,
                    (kv.1, FakeQueueClient.metadata c !! kv.1))
                   <$> map_to_list (FakeQueueClient.queues c)).
  assert (Forall (λ x, is_Some x.2) listed) as Hlisted.
  { apply Forall_forall. intros [name md] Hin.
    apply list_elem_of_fmap in Hin as ([name' queue] & [= -> ->] & Hin).
    apply elem_of_map_to_list in Hin. apply Hdesc. by exists queue. }
  destruct (filter_marked_Ok since listed Hlisted) as (marked & Hfilter & Hmarked & Hsub).
  assert (∀ name, name ∈ fst <$> marked → is_Some (FakeQueueClient.queues c !! name))
    as Hexist.
  { intros name Hin. eapply elem_of_sublist in Hin; [|exact Hsub].
    unfold listed in Hin. rewrite <- list_fmap_compose in Hin.
    apply list_elem_of_fmap in Hin as ([name' queue] & -> & Hin).
    apply elem_of_map_to_list in Hin. by exists queue. }
  set (w1 := with_client c (ListQueues None (prefix w +:+ "-")) w).
  destruct (settle_getMetadata now (fst <$> marked) w1) as (w2 & Hsettle & Hc2).
  { apply Forall_forall. intros name Hin. by apply Hexist. }
  set (counts := (λ name, (name, reading c name)) <$> (fst <$> marked)).
  destruct (delete_if_empty_fake now counts 0 w2) as (w3 & Hdelete & Hq3 & Hmd3).
  rewrite Hc2 in Hq3, Hmd3. change (client_state w1) with c in Hq3, Hmd3.
  exists (0 + Z.of_nat (length (emptied counts))), w3. split.
  - unfold deleteUnusedWorkerQueues. cbn [deleteUnusedWorkerQueues_loop].
    fold since. unfold deleteUnusedWorkerQueues_page, bind, gets, lift.
    rewrite call_spec. cbn [listQueues fakeClient FakeQueueClient.listQueues fst snd].
    fold c listed w1. cbn [lr_queues lr_nextMarker]. rewrite Hfilter.
    assert ((λ q : string * Metadata, getMetadata_call fakeClient now q.1) <$> marked
            = getMetadata_call fakeClient now <$> (fst <$> marked)) as ->
      by (by rewrite <- list_fmap_compose).
    rewrite Hsettle.
    change (client_state w1) with c. rewrite zip_readings. fold counts.
    by rewrite Hdelete.
  - intros name md Hq Hmd Hunused.
    assert (name ∈ emptied counts) as Hin.
    { assert (marked_for_deletion since md = true) as Hmark.
      { destruct (marked_for_deletion since md) eqn:Hm; [done|].
        exfalso. apply Hunused. by apply not_marked_in_use. }
      assert ((name, md) ∈ marked) as Hin.
      { eapply filter_marked_complete; [exact Hfilter| |exact Hmark].
        unfold listed. apply list_elem_of_fmap. exists (name, []).
        split; [simpl; by rewrite Hmd|]. by apply elem_of_map_to_list. }
      unfold emptied. apply list_elem_of_fmap. exists (name, reading c name).
      split; [done|]. apply list_elem_of_filter. split.
      - unfold reading. simpl. rewrite Hq. simpl. lia.
      - unfold counts. apply list_elem_of_fmap. exists name. split; [done|].
        apply list_elem_of_fmap. by exists (name, md). }
    rewrite Hq3, Hmd3, !lookup_foldl_delete. by rewrite !decide_True.
Qed.

End ResolvedFake.

(** ** Errors and remembered results *)

Section Errors.
Context `{Runtime} {S : Type} (client : QueueClient S).

Implicit Types (w : World (S := S)) (now : Z).

(** X17: the failures of [_ensureQueueAndMetadata].  An error of
    [getMetadata] that is not "queue not found" is thrown on as it is,
    with no further client call and nothing reported, and so is the
    type error raised when the answer carries no meta-data; an error of
    the [createQueue] that follows a "queue not found", other than
    [QueueAlreadyExists], gets the queue name and the two identifiers
    attached, is reported once and thrown. *)
Theorem ensureQueueAndMetadata_errors now (queue provisionerId workerType : string) w :
  let fresh := fresh_metadata now provisionerId workerType in
  let got := getMetadata_call client now queue w in
  let done := _ensureQueueAndMetadata client now queue provisionerId workerType w in
  got.2 = with_client (getMetadata client now queue (client_state w)).2 (GetMetadata queue) w
  ∧ (∀ err, got.1 = Throw err → ¬ not_found err → done = (Throw err, got.2))
  ∧ (∀ res, got.1 = Ok res → md_metadata res = None →
       ∃ err, done = (Throw err, got.2) ∧ ¬ not_found err)
  ∧ (∀ err, got.1 = Throw err → not_found err →
       let created :=
         call (CreateQueue queue (Some fresh)) (createQueue client now queue (Some fresh))
              got.2 in
       ∀ err', created.1 = Throw err' → err_code err' ≠ Some "QueueAlreadyExists" →
         done.1 = Throw (annotate queue provisionerId workerType err')
         ∧ reported done.2 = reported w ++ [annotate queue provisionerId workerType err']
         ∧ calls done.2 = calls w ++ [GetMetadata queue; CreateQueue queue (Some fresh)]).
Proof.
  intros fresh got done. subst done got fresh.
  unfold _ensureQueueAndMetadata, getMetadata_call. rewrite call_spec. cbn [fst snd].
  split; [done|]. split; [|split].
  - intros err -> Hother. cbn [_ensureQueueAndMetadata_resume].
    unfold _ensureQueueAndMetadata_catch.
    destruct (bool_decide _ && bool_decide _) eqn:Htest; [done|].
    apply not_found_test in Htest. done.
  - intros res -> Hnone. cbn [_ensureQueueAndMetadata_resume]. rewrite Hnone.
    eexists. split; [reflexivity|]. by intros [[=]|[=]].
  - intros err -> Hmissing err' Hfail Hcode.
    cbn [_ensureQueueAndMetadata_resume]. unfold _ensureQueueAndMetadata_catch.
    apply not_found_test in Hmissing. rewrite Hmissing.
    unfold try_catch. revert Hfail. rewrite call_spec. cbn [fst snd].
    intros ->. rewrite (bool_decide_eq_true_2 _ Hcode).
    unfold bind, reportError, throw.
    cbn [fst snd reported calls with_reported with_client]. rewrite <- app_assoc. done.
Qed.

(** X19: [ensurePendingQueue] for a pair that is not in the cache checks
    the two identifiers before anything else: when one of them is not an
    identifier it throws an assertion error, makes no client call,
    reports nothing and leaves the cache as it was; [putPendingMessage]
    and [pendingQueues] fail in the same way. *)
Theorem ensurePendingQueue_rejects_invalid now (provisionerId workerType : string) w :
  ¬ cached w (provisionerId +:+ "/" +:+ workerType) →
  is_identifier provisionerId = false ∨ is_identifier workerType = false →
  ∃ msg,
    ensurePendingQueue client now provisionerId workerType w
    = (Throw (AssertionError msg), w)
    ∧ pendingQueues client now provisionerId workerType w = (Throw (AssertionError msg), w)
    ∧ ∀ (task : Task) (runId : Z),
        task_provisionerId task = provisionerId → task_workerType task = workerType →
        putPendingMessage client now task runId w = (Throw (AssertionError msg), w).
Proof.
  intros Hmiss Hbad.
  assert (∃ msg, ensurePendingQueue client now provisionerId workerType w
                 = (Throw (AssertionError msg), w)) as [msg Hrun].
  { rewrite (ensurePendingQueue_miss _ _ _ _ _ Hmiss).
    unfold ensurePendingQueue_create, bind, assert, throw, ret.
    destruct (is_identifier provisionerId); [|by eexists].
    destruct (is_identifier workerType); [|by eexists].
    by destruct Hbad. }
  exists msg. split; [done|]. split.
  - unfold pendingQueues, bind. by rewrite Hrun.
  - intros task runId Hp Ht. unfold putPendingMessage, bind. by rewrite Hp, Ht, Hrun.
Qed.

(** X21: [countPendingMessages] remembers a refresh that failed just as
    one that succeeded: when a call that refreshes the count (its entry
    is more than 20 seconds old or missing) rejects, every call for the
    pair in the 20 seconds after it rejects with the same error,
    without touching the client. *)
Theorem countPendingMessages_remembers_failure now (provisionerId workerType : string) w err :
  20 * 1000 < now - lastUpdated (default {| count := Ok 0; lastUpdated := 0 |}
                                   (countPendingCache w
                                      !! (provisionerId +:+ "/" +:+ workerType))) →
  (countPendingMessages client now provisionerId workerType w).1 = Throw err →
  ∀ now', now' - now ≤ 20 * 1000 →
    let w1 := (countPendingMessages client now provisionerId workerType w).2 in
    let again := countPendingMessages client now' provisionerId workerType w1 in
    again.1 = Throw err
    ∧ calls again.2 = calls w1
    ∧ client_state again.2 = client_state w1.
Proof.
  intros Hstale. unfold countPendingMessages at 1 2.
  apply Z.gtb_lt in Hstale. rewrite Hstale.
  destruct (count_refresh client now provisionerId workerType _) as [r w'].
  cbn [fst snd]. intros -> now' Hsoon. unfold countPendingMessages.
  cbn [countPendingCache with_countPendingCache]. rewrite lookup_insert_eq.
  cbn [default from_option id lastUpdated count].
  destruct (Z.gtb_spec (now' - now) (20 * 1000)) as [Hlate|_]; [lia|done].
Qed.

(** A successful [ensurePendingQueue] leaves the names it returns in the
    cache. *)
Lemma ensurePendingQueue_Ok_cached now (provisionerId workerType : string) w names w0 :
  ensurePendingQueue client now provisionerId workerType w = (Ok names, w0) →
  queues w0 !! (provisionerId +:+ "/" +:+ workerType) = Some (Some (Ok names)).
Proof.
  unfold ensurePendingQueue.
  destruct (queues w !! _) as [[promise|]|] eqn:Hc; [by intros [= -> <-]|..].
  all: unfold ensurePendingQueue_create, bind, assert, throw, ret, gets.
  all: destruct (is_identifier provisionerId); [|done].
  all: destruct (is_identifier workerType); [|done].
  all: cbv beta iota zeta.
  all: destruct (Promise_all_async _ _ _) as [[l|e] w']; [|done].
  all: intros [= <- <-]; cbn [queues with_queues]; by rewrite lookup_insert_eq.
Qed.

End Errors.

Section PendingRoundTrip.
Context `{Runtime}.

Implicit Types (c : FakeQueueClient.t) (w : World (S := FakeQueueClient.t)) (now : Z).

(** X20: over the in-memory client with tokens that never repeat, a
    task put with [putPendingMessage] before its deadline is obtained by
    polling: after the put, [pendingQueues] returns from the cache the
    poll functions of the seven queues of the pair, from the highest
    priority to the lowest, and the poll function of the task's
    priority, called after the time of the put and not after the
    deadline with a count that leaves room for the message behind the
    visible messages before it, presents the message, when it returns,
    with the task id, the run id and the hint id that were put (the
    payload is taken to survive the JSON and base64 coding). *)
Theorem pending_round_trip now (task : Task) (runId : Z) w names w0 w1 :
  Inj (=) (=) slugid_v4 → reachable (client_state w) →
  now < task_deadline task →
  ensurePendingQueue fakeClient now (task_provisionerId task) (task_workerType task) w
    = (Ok names, w0) →
  putPendingMessage fakeClient now task runId w = (Ok (), w1) →
  let name := names_get names (task_priority task) in
  let hintId := slugid_v4 (slugs w0) in
  let X := JObj [("taskId", JStr (task_taskId task)); ("runId", JNum runId);
                 ("hintId", JStr hintId)] in
  JSON_parse (base64_decode (base64_encode (JSON_stringify X))) = Some X →
  (∀ t, pendingQueues fakeClient t (task_provisionerId task) (task_workerType task) w1
        = (Ok (poll fakeClient <$> (names_get names <$> PRIORITIES)), w1))
  ∧ ∃ m, stored (client_state w1) name m
      ∧ ∀ (wa : World (S := FakeQueueClient.t)) t (count : Z) pre post msgs,
          FakeQueueClient.queues (client_state wa) !! name = Some (pre ++ m :: post) →
          now < t → t ≤ task_deadline task →
          Z.of_nat (length (filter (λ m0, FakeQueueClient.visible t m0) pre))
            < Z.min count 32 →
          (poll fakeClient name t count wa).1 = Ok msgs →
          ∃ pm, pm ∈ msgs ∧ pm_taskId pm = Some (JStr (task_taskId task))
                ∧ pm_runId pm = Some (JNum runId)
                ∧ pm_hintId pm = Some (JStr hintId).
Proof.
  intros Hinj Hreach Hfuture Hensure Hput name hintId X Hcodec.
  destruct (ensurePendingQueue_keeps _ _ _ _ _ _ Hreach Hensure) as (Hreach0 & Hdraws & _).
  pose proof (ensurePendingQueue_Ok_cached _ _ _ _ _ _ _ Hensure) as Hcached.
  pose proof Hput as Hput'.
  rewrite (putPendingMessage_publishes _ _ _ _ _ _ _ Hensure) in Hput'.
  fold hintId X in Hput'. unfold _putMessage in Hput'. rewrite call_spec in Hput'.
  cbn [putMessage fakeClient client_state with_slug_drawn with_client] in Hput'.
  injection Hput' as Hok Hw1. fold name in Hok, Hw1.
  set (text := base64_encode (JSON_stringify X)) in *.
  set (ttl := secondsTo (task_deadline task) now) in *.
  split.
  { intros t. unfold pendingQueues, bind, ensurePendingQueue.
    rewrite <- Hw1. cbn [queues with_client with_slug_drawn]. by rewrite Hcached. }
  destruct (putMessage_Ok _ _ _ _ _ _ Hok) as (queue & Hq & Hq1 & _).
  exists (put_message now text 0 ttl (client_state w0)). split.
  { rewrite <- Hw1. cbn [client_state with_client].
    eexists. split; [exact Hq1|]. apply elem_of_app. right. by left. }
  intros wa t count pre post msgs Hqa Hafter Hbefore Hroom Hpoll.
  destruct (getMessages_delivers t name 300 (Z.min count 32) (client_state wa) pre
              (put_message now text 0 ttl (client_state w0)) post Hqa)
    as (fetched & k & Hget & Hin); [|done|].
  { pose proof (secondsTo_covers (task_deadline task) now) as Hcovers.
    unfold FakeQueueClient.visible, put_message. simpl. fold ttl in Hcovers.
    unfold fromNow in *.
    apply andb_true_iff. split; [apply Z.gtb_lt|apply Z.leb_le]; lia. }
  destruct (poll_spec fakeClient name t count wa) as (_ & _ & Hspec).
  destruct (Hspec msgs Hpoll) as (fetched' & Hget' & Hpresents).
  cbn [getMessages fakeClient] in Hget'. rewrite Hget in Hget'. injection Hget' as <-.
  destruct (Forall2_elem_of_l _ _ _ _ Hpresents Hin) as (pm & Hpm & Hshown).
  exists pm. split; [done|].
  destruct Hshown as (payload & Hparse & Htask & Hrun & Hhint & _).
  cbn [messageText FakeQueueClient.handed_out put_message FakeQueueClient.m_messageText]
    in Hparse.
  rewrite Hcodec in Hparse. injection Hparse as <-.
  rewrite Htask, Hrun, Hhint. done.
Qed.

End PendingRoundTrip.

(** ** Messages are kept *)

Section Kept.
Context `{Runtime}.

Implicit Types (c : FakeQueueClient.t) (now : Z) (name : string)
  (queue : list FakeQueueClient.Message).

Lemma deleteMessage_filter_keeps (id id' pop : string) queue queue' :
  FakeQueueClient.deleteMessage_filter id' pop queue = Ok queue' →
  id' ≠ id →
  ∀ m, m ∈ queue → FakeQueueClient.m_messageId m = id → m ∈ queue'.
Proof.
  intros Hrun Hne m Hm Hid. apply deleteMessage_filter_Ok in Hrun as ->.
  apply list_elem_of_filter. split; [congruence|done].
Qed.

Lemma same_id_stays (f : FakeQueueClient.Message → FakeQueueClient.Message → Prop)
    queue queue' (m : FakeQueueClient.Message) :
  Forall2 f queue queue' →
  (∀ m0 m1, f m0 m1 →
     FakeQueueClient.m_messageId m1 = FakeQueueClient.m_messageId m0
     ∧ FakeQueueClient._expiresAfter m1 = FakeQueueClient._expiresAfter m0) →
  m ∈ queue →
  ∃ m', m' ∈ queue'
    ∧ FakeQueueClient.m_messageId m' = FakeQueueClient.m_messageId m
    ∧ FakeQueueClient._expiresAfter m' = FakeQueueClient._expiresAfter m.
Proof.
  intros Hrel Hkeeps Hm.
  destruct (Forall2_elem_of_l _ _ _ _ Hrel Hm) as (m' & Hm' & Hf).
  exists m'. split; [done|]. by apply Hkeeps.
Qed.

(** X22: the in-memory client never drops a message on its own: after
    any call other than a [deleteMessage] for its id on its queue, a
    [deleteQueue] or a [createQueue] of its queue, a message with the
    same id and the same expiry is in the queue still; so a message stays
    in its queue, and is counted by [getMetadata], also after it has
    expired. *)
Theorem message_kept now (call : Call) c name (m : FakeQueueClient.Message) :
  stored c name m →
  keeps_message name (FakeQueueClient.m_messageId m) call →
  ∃ m', stored (perform fakeClient now call c) name m'
    ∧ FakeQueueClient.m_messageId m' = FakeQueueClient.m_messageId m
    ∧ FakeQueueClient._expiresAfter m' = FakeQueueClient._expiresAfter m.
Proof.
  intros (queue & Hq & Hm) Hkeeps.
  assert (∀ c' queue',
            FakeQueueClient.queues c' !! name = Some queue' →
            (∃ m', m' ∈ queue'
               ∧ FakeQueueClient.m_messageId m' = FakeQueueClient.m_messageId m
               ∧ FakeQueueClient._expiresAfter m' = FakeQueueClient._expiresAfter m) →
            ∃ m', stored c' name m'
              ∧ FakeQueueClient.m_messageId m' = FakeQueueClient.m_messageId m
              ∧ FakeQueueClient._expiresAfter m' = FakeQueueClient._expiresAfter m)
    as Hfinish.
  { intros c' queue' Hq' (m' & Hm' & Hsame). exists m'. split; [by exists queue'|done]. }
  assert (∃ m', m' ∈ queue
            ∧ FakeQueueClient.m_messageId m' = FakeQueueClient.m_messageId m
            ∧ FakeQueueClient._expiresAfter m' = FakeQueueClient._expiresAfter m)
    as Hsame by (by exists m).
  destruct call as [name0 md|name0|name0 md|name0 text vis ttl|name0 vis n
                   |name0 id pop|name0 text id pop vis|marker pfx|name0];
    cbn [perform createQueue getMetadata setMetadata putMessage getMessages deleteMessage
         updateMessage listQueues deleteQueue fakeClient keeps_message] in *.
  - apply (Hfinish _ queue); [|done].
    unfold FakeQueueClient.createQueue. cbn [snd FakeQueueClient.queues].
    by rewrite lookup_insert_ne.
  - apply (Hfinish _ queue); [|done].
    unfold FakeQueueClient.getMetadata. by destruct (FakeQueueClient._queue _ _) as [[]|].
  - apply (Hfinish _ queue); [|done].
    unfold FakeQueueClient.setMetadata.
    by destruct (FakeQueueClient._queue _ _) as [[? []]|].
  - unfold FakeQueueClient.putMessage, FakeQueueClient._queue.
    destruct (FakeQueueClient.queues c !! name0) as [queue0|] eqn:Hq0;
      [|by apply (Hfinish _ queue)].
    cbn [snd]. destruct (decide (name0 = name)) as [->|Hne].
    + rewrite Hq in Hq0. injection Hq0 as <-.
      eapply Hfinish; [cbn [FakeQueueClient.queues]; by rewrite lookup_insert_eq|].
      exists m. split; [|done]. apply elem_of_app. by left.
    + apply (Hfinish _ queue); [|done].
      cbn [FakeQueueClient.queues]. by rewrite lookup_insert_ne.
  - unfold FakeQueueClient.getMessages, FakeQueueClient._queue.
    destruct (FakeQueueClient.queues c !! name0) as [queue0|] eqn:Hq0;
      [|by apply (Hfinish _ queue)].
    destruct (FakeQueueClient.getMessages_loop _ _ _ _ _ _) as [[queue1 out] d'] eqn:Hloop.
    cbn [snd]. destruct (decide (name0 = name)) as [->|Hne].
    + rewrite Hq in Hq0. injection Hq0 as <-.
      eapply Hfinish; [cbn [FakeQueueClient.queues]; by rewrite lookup_insert_eq|].
      apply getMessages_loop_spec in Hloop as (_ & new & _ & Hrel & _).
      eapply same_id_stays; [exact Hrel| |exact Hm].
      intros m0 m1 [->|(_ & k & _ & -> & _)]; done.
    + apply (Hfinish _ queue); [|done].
      cbn [FakeQueueClient.queues]. by rewrite lookup_insert_ne.
  - unfold FakeQueueClient.deleteMessage, FakeQueueClient._queue.
    destruct (FakeQueueClient.queues c !! name0) as [queue0|] eqn:Hq0;
      [|by apply (Hfinish _ queue)].
    destruct (FakeQueueClient.deleteMessage_filter id pop queue0) as [queue1|e] eqn:Hfilter;
      [|by apply (Hfinish _ queue)].
    cbn [snd]. destruct (decide (name0 = name)) as [->|Hne].
    + rewrite Hq in Hq0. injection Hq0 as <-.
      eapply Hfinish; [cbn [FakeQueueClient.queues]; by rewrite lookup_insert_eq|].
      exists m. split; [|done].
      eapply deleteMessage_filter_keeps; [exact Hfilter| |exact Hm|done].
      by destruct Hkeeps.
    + apply (Hfinish _ queue); [|done].
      cbn [FakeQueueClient.queues]. by rewrite lookup_insert_ne.
  - unfold FakeQueueClient.updateMessage, FakeQueueClient._queue.
    destruct (FakeQueueClient.queues c !! name0) as [queue0|] eqn:Hq0;
      [|by apply (Hfinish _ queue)].
    destruct (FakeQueueClient.updateMessage_forEach _ _ _ _ _) as [queue1 e] eqn:Hloop.
    cbn [snd]. destruct (decide (name0 = name)) as [->|Hne].
    + rewrite Hq in Hq0. injection Hq0 as <-.
      eapply Hfinish; [cbn [FakeQueueClient.queues]; by rewrite lookup_insert_eq|].
      apply updateMessage_forEach_spec in Hloop.
      eapply same_id_stays; [exact Hloop| |exact Hm].
      intros m0 m1 [->|(_ & _ & ->)]; done.
    + apply (Hfinish _ queue); [|done].
      cbn [FakeQueueClient.queues]. by rewrite lookup_insert_ne.
  - by apply (Hfinish _ queue).
  - apply (Hfinish _ queue); [|done].
    unfold FakeQueueClient.deleteQueue. cbn [snd FakeQueueClient.queues].
    by rewrite lookup_delete_ne.
Qed.

End Kept.

(** ** The properties on the example worlds *)

Import Examples.

Lemma example_tokens_inj : Inj (=) (=) (slugid_v4 (Runtime := ExampleRuntime.runtime)).
Proof.
  intros n1 n2 Heq. simpl in Heq.
  apply (inj (String.append "slug")) in Heq. by apply (inj pretty) in Heq.
Qed.

Lemma reachable_history (history : list (Z * Call)) c :
  c = perform_all fakeClient history FakeQueueClient._reset → reachable c.
Proof. intros ->. apply reachable_perform_all, reachable_reset. Qed.

(** C1 at a task whose deadline (1000) is four seconds before the clock
    reading (5000): a message with a TTL of one second is put. *)
Lemma putPendingMessage_after_deadline_witness :
  (∃ text,
     calls (putPendingMessage fakeClient 5000 (task1 1000) 0 world0).2
     = calls (ensurePendingQueue fakeClient 5000 "prov1" "wt1" world0).2
       ++ [PutMessage (names_get (queue_names "wq" "prov1" "wt1") medium) text 0 1])
  ∧ console (putPendingMessage fakeClient 5000 (task1 1000) 0 world0).2
    = console (ensurePendingQueue fakeClient 5000 "prov1" "wt1" world0).2.
Proof.
  apply (putPendingMessage_after_deadline_publishes fakeClient 5000 (task1 1000) 0 world0
           (queue_names "wq" "prov1" "wt1")
           (ensurePendingQueue fakeClient 5000 "prov1" "wt1" world0).2).
  - simpl. lia.
  - vm_compute. reflexivity.
Defined.

(** At that input the call succeeds, the medium queue holds the message
    until one second after the clock reading, and nothing is logged. *)
Example putPendingMessage_after_deadline_stores :
  (putPendingMessage fakeClient 5000 (task1 1000) 0 world0).1 = Ok ()
  ∧ (λ m, (FakeQueueClient._visibleAfter m, FakeQueueClient._expiresAfter m))
      <$> default [] (FakeQueueClient.queues
                        (client_state (putPendingMessage fakeClient 5000 (task1 1000) 0
                                         world0).2) !! medium_queue)
    = [(5000, 6000)]
  ∧ console (putPendingMessage fakeClient 5000 (task1 1000) 0 world0).2 = [].
Proof. evaluate. Qed.

Lemma world_unnamed_reachable : reachable (client_state world_unnamed).
Proof. apply (reachable_history history_unnamed). evaluate. Qed.

(** C2 on a state with a single, empty queue. *)
Lemma deleteUnusedWorkerQueues_safe_witness :
  ∃ n w',
    deleteUnusedWorkerQueues fakeClient 1 2000000 world_unnamed = Some (Ok n, w')
    ∧ Z.of_nat (size (FakeQueueClient.queues (client_state world_unnamed)))
      = Z.of_nat (size (FakeQueueClient.queues (client_state w'))) + n.
Proof.
  destruct (deleteUnusedWorkerQueues_safe 0 2000000 world_unnamed
              world_unnamed_reachable)
    as (n & w' & Hrun & _ & _ & _ & Hcount).
  exists n, w'. split; [exact Hrun|exact Hcount].
Defined.

(** C2 as stated fails: the queue "wq-x" is reachable through
    [createQueue], its [last_used] (1000000) is 1000 seconds before [now]
    (2000000), and [deleteUnusedWorkerQueues(now)] deletes it, because
    its meta-data names no provisioner. *)
Lemma deleteUnusedWorkerQueues_deletes_recent :
  reachable (client_state world_unnamed)
  ∧ (FakeQueueClient.metadata (client_state world_unnamed) !! "wq-x"
       ≫= λ md, Date_new (JStr <$> md !! "last_used")) = Some 1000000
  ∧ 2000000 - 10 * 24 * 60 * 60 * 1000 ≤ 1000000 ≤ 2000000
  ∧ (deleteUnusedWorkerQueues fakeClient 1 2000000 world_unnamed
       ≫= λ r, Some (r.1, FakeQueueClient.queues (client_state r.2) !! "wq-x"))
    = Some (Ok 1, None).
Proof.
  split; [exact world_unnamed_reachable|].
  split; [evaluate|]. split; [lia|]. evaluate.
Qed.



(** C4: up-to-date meta-data, a read that fails, meta-data without the
    identifiers, and a lost race. *)
Lemma ensureQueueAndMetadata_cases_witness :
  _ensureQueueAndMetadata fakeClient 3700000 medium_queue "prov1" "wt1" world_family
    = (Ok (), (getMetadata_call fakeClient 3700000 medium_queue world_family).2)
  ∧ _ensureQueueAndMetadata failingClient 2000 "q" "prov1" "wt1" world_failing
    = (Throw overloaded, (getMetadata_call failingClient 2000 "q" world_failing).2)
  ∧ _ensureQueueAndMetadata fakeClient 2000 "claim-queue" "prov1" "wt1" (claims 1)
    = call (SetMetadata "claim-queue" (fresh_metadata 2000 "prov1" "wt1"))
           (setMetadata fakeClient 2000 "claim-queue" (fresh_metadata 2000 "prov1" "wt1"))
           (getMetadata_call fakeClient 2000 "claim-queue" (claims 1)).2
  ∧ (_ensureQueueAndMetadata racingClient 2000 "q" "prov1" "wt1" (world_on ())).1 = Ok ()
  ∧ reported (_ensureQueueAndMetadata racingClient 2000 "q" "prov1" "wt1" (world_on ())).2
    = reported (world_on ()).
Proof.
  split; [|split; [|split]].
  - destruct (ensureQueueAndMetadata_cases fakeClient 3700000 medium_queue "prov1" "wt1"
                world_family) as (_ & _ & Hcurrent & _).
    apply Hcurrent.
    exists (reading (client_state world_family) medium_queue),
           (fresh_metadata 100000 "prov1" "wt1"), 100000.
    normalise.
  - destruct (ensureQueueAndMetadata_cases failingClient 2000 "q" "prov1" "wt1"
                world_failing) as (_ & _ & _ & Hthrown & _).
    apply (Hthrown overloaded).
    + left. normalise.
    + intros [Hcode|Hstatus]; [discriminate Hcode|discriminate Hstatus].
  - destruct (ensureQueueAndMetadata_cases fakeClient 2000 "claim-queue" "prov1" "wt1"
                (claims 1)) as (_ & _ & _ & _ & Hstale & _).
    apply (Hstale (reading (client_state (claims 1)) "claim-queue") ∅).
    + normalise.
    + normalise.
    + intros (res & md & t & Hres & Hmd & Hp & _).
      vm_compute in Hres. injection Hres as <-.
      vm_compute in Hmd. injection Hmd as <-. vm_compute in Hp. discriminate Hp.
  - destruct (ensureQueueAndMetadata_cases racingClient 2000 "q" "prov1" "wt1"
                (world_on ())) as (_ & _ & _ & _ & _ & Hmissing).
    destruct (Hmissing (plainError "" None (Some 404))) as (_ & _ & Hrace & _).
    + left. normalise.
    + right. normalise.
    + destruct (Hrace (plainError "The specified queue already exists"
                         (Some "QueueAlreadyExists") (Some 409)))
        as [Hdone Hreported]; [normalise|normalise|].
      split; [exact (f_equal fst Hdone)|exact Hreported].
Defined.

(** C4 as stated fails.  When [getMetadata] fails with an error that is
    no "queue not found" condition there is no current meta-data, and
    still the method writes nothing: it throws that error after the one
    call.  And meta-data with a [last_used] that lies in the future, not
    within the last 23 hours, is current to the method: it writes
    nothing either. *)
Lemma ensureQueueAndMetadata_leaves_unknown_unwritten :
  (getMetadata_call failingClient 2000 "q" world_failing).1 = Throw overloaded
  ∧ ¬ metadata_current 2000 "prov1" "wt1"
        (getMetadata_call failingClient 2000 "q" world_failing).1
  ∧ (_ensureQueueAndMetadata failingClient 2000 "q" "prov1" "wt1" world_failing).1
    = Throw overloaded
  ∧ calls (_ensureQueueAndMetadata failingClient 2000 "q" "prov1" "wt1" world_failing).2
    = [GetMetadata "q"]
  ∧ FakeQueueClient.metadata (client_state world_ahead) !! "q"
    = Some (fresh_metadata 5000000000 "prov1" "wt1")
  ∧ Date_new (JStr <$> fresh_metadata 5000000000 "prov1" "wt1" !! "last_used")
    = Some 5000000000
  ∧ 1000000 < 5000000000
  ∧ (_ensureQueueAndMetadata fakeClient 1000000 "q" "prov1" "wt1" world_ahead).1 = Ok ()
  ∧ calls (_ensureQueueAndMetadata fakeClient 1000000 "q" "prov1" "wt1" world_ahead).2
    = calls world_ahead ++ [GetMetadata "q"].
Proof.
  split; [normalise|]. split; [|normalise].
  intros (res & md & t & Hres & _). vm_compute in Hres. discriminate Hres.
Qed.

(** C5 on the queue family of the example. *)
Lemma pendingQueues_polls_witness :
  pendingQueues fakeClient 102000 "prov1" "wt1" world_pending
  = (Ok ((λ pr, poll fakeClient (names_get (queue_names "wq" "prov1" "wt1") pr))
           <$> [highest; very_high; high; medium; low; very_low; lowest]), world_pending).
Proof.
  apply (pendingQueues_polls fakeClient 102000 "prov1" "wt1" world_pending
           (queue_names "wq" "prov1" "wt1") world_pending).
  evaluate.
Defined.

(** C5 as stated fails at [count = 0]: the in-memory client compares the
    length of its result with the limit after each push, so with the
    limit 0 it never stops, and [poll(0)] returns the pending message. *)
Lemma poll_zero_returns_a_message :
  pm_taskId <$> returned [] (poll fakeClient medium_queue 102000 0 world_pending)
    = [Some (JStr "task-1")]
  ∧ Z.min 0 32 = 0.
Proof. evaluate. Qed.





(** C8: over the client that fails every call the call fails with the
    error of a shard, noted, and the key is left with [undefined]; over
    the in-memory client the call returns the seven names and the cache
    holds them, and nothing else. *)
Lemma ensurePendingQueue_cache_witness :
  (∃ e, (ensurePendingQueue failingClient 0 "prov1" "wt1" world_failing).1
        = Throw (with_note "Failed to ensure azure queue in queueservice.js" e)
        ∧ queues (ensurePendingQueue failingClient 0 "prov1" "wt1" world_failing).2
          = <["prov1" +:+ "/" +:+ "wt1" := None]> (queues world_failing))
  ∧ ((ensurePendingQueue fakeClient 0 "prov1" "wt1" world0).1
     = Ok (queue_names (prefix world0) "prov1" "wt1")
     ∧ queues (ensurePendingQueue fakeClient 0 "prov1" "wt1" world0).2
       = <["prov1" +:+ "/" +:+ "wt1"
           := Some (Ok (queue_names (prefix world0) "prov1" "wt1"))]> (queues world0))
  ∧ cache_sound (ensurePendingQueue fakeClient 0 "prov1" "wt1" world0).2.
Proof.
  split; [|split].
  - destruct (ensurePendingQueue_cache failingClient 0 "prov1" "wt1" world_failing)
      as (_ & _ & Hmiss).
    destruct Hmiss as (Hfail & _).
    + intros [promise Hc]. vm_compute in Hc. discriminate Hc.
    + normalise.
    + normalise.
    + destruct Hfail as (i & t & e & _ & Hthrown & _ & _ & Hevicted & _).
      * exists overloaded.
        match goal with
        | |- _ ∈ ?l => replace l with (replicate 7 (Throw (A := ()) overloaded)) by normalise
        end.
        apply elem_of_replicate. split; [reflexivity|discriminate].
      * exists e. split; [exact Hthrown|exact Hevicted].
  - destruct (ensurePendingQueue_cache fakeClient 0 "prov1" "wt1" world0)
      as (_ & _ & Hmiss).
    destruct Hmiss as (_ & Hok).
    + intros [promise Hc]. vm_compute in Hc. discriminate Hc.
    + normalise.
    + normalise.
    + destruct Hok as (Hreturned & _ & _ & Hcached & _).
      * intros e He.
        match type of He with
        | _ ∈ ?l => replace l with (replicate 7 (Ok (A := ()) ())) in He by normalise
        end.
        apply elem_of_replicate in He as [He _]. discriminate He.
      * split; [exact Hreturned|exact Hcached].
  - destruct (ensurePendingQueue_cache fakeClient 0 "prov1" "wt1" world0)
      as (_ & Hsound & _).
    destruct Hsound as [Hsound _]; [|exact Hsound].
    intros id promise Hc.
    replace (queues world0) with (∅ : gmap string (option (result Names))) in Hc
      by normalise.
    rewrite lookup_empty in Hc. discriminate Hc.
Defined.

(** The order in time on an example: the shard of highest priority,
    first of the list, fails when its [createQueue] does, one job after
    the other shards have thrown what their [getMetadata] failed with.
    The error the call throws is that of the second shard. *)
Example ensurePendingQueue_throws_first_in_time :
  (settle_async
     (shards stagedClient 0 "prov1" "wt1" (queue_names (prefix world_failing) "prov1" "wt1"))
     world_failing).1
  = Throw (annotate "wq-hprov1-hwt1-7" "prov1" "wt1" beingDeleted)
    :: replicate 6 (Throw overloaded)
  ∧ settled_at
      (shards stagedClient 0 "prov1" "wt1" (queue_names (prefix world_failing) "prov1" "wt1"))
      (_ensureQueueAndMetadata_jobs 0 "prov1" "wt1") world_failing
    = [1; 0; 0; 0; 0; 0; 0]%nat
  ∧ (ensurePendingQueue stagedClient 0 "prov1" "wt1" world_failing).1
    = Throw (with_note "Failed to ensure azure queue in queueservice.js" overloaded)
  ∧ reported (ensurePendingQueue stagedClient 0 "prov1" "wt1" world_failing).2
    = [annotate "wq-hprov1-hwt1-7" "prov1" "wt1" beingDeleted;
       with_note "Failed to ensure azure queue in queueservice.js" overloaded].
Proof. normalise. Qed.



(** ** The further properties on the example worlds *)

Lemma world0_reachable : reachable (client_state world0).
Proof. apply (reachable_history []). normalise. Qed.

Lemma world_put_reachable : reachable (client_state world_put).
Proof.
  apply (reachable_history
           (history_queue
            ++ [(1000, PutMessage "q" (base64_encode (JSON_stringify payload1)) 0 3600)])).
  normalise.
Qed.

Lemma world0_miss : ¬ cached world0 ("prov1" +:+ "/" +:+ "wt1").
Proof. intros [names Hc]. vm_compute in Hc. discriminate Hc. Qed.

(** X1: from 1000 to 5500 it takes five seconds; seven reach as well,
    and are not fewer. *)
Lemma secondsTo_least_witness : secondsTo 5500 1000 ≤ 7.
Proof.
  destruct (secondsTo_least 5500 1000) as (_ & _ & Hleast).
  - unfold valid_date. lia.
  - unfold valid_date. lia.
  - unfold exact_difference. lia.
  - apply Hleast; lia.
Defined.

(** X2: on a fresh service over the in-memory client the first call
    creates the claim queue and the second returns from the field; over
    the client whose first [createQueue] fails the field is [null] after
    the first call, and the second call is [createQueue] again, which
    succeeds. *)
Lemma ensureQueue_caches_success_witness :
  ensureClaimQueue fakeClient 2000 (ensureClaimQueue fakeClient 1000 world0).2
  = (Ok (), (ensureClaimQueue fakeClient 1000 world0).2)
  ∧ (ensureClaimQueue recoveringClient 1000 world_recovering).1 = Throw overloaded
  ∧ claimQueueReady (ensureClaimQueue recoveringClient 1000 world_recovering).2 = None
  ∧ (ensureClaimQueue recoveringClient 2000
       (ensureClaimQueue recoveringClient 1000 world_recovering).2).1 = Ok ().
Proof.
  split; [|split; [|split]].
  - destruct (ensureQueue_caches_success fakeClient 1000 world0) as ((_ & Hmiss) & _).
    destruct Hmiss as (_ & _ & _ & Hok & _); [normalise|].
    apply Hok. normalise.
  - destruct (ensureQueue_caches_success recoveringClient 1000 world_recovering)
      as ((_ & Hmiss) & _).
    destruct Hmiss as (Hresult & _); [normalise|]. exact Hresult.
  - destruct (ensureQueue_caches_success recoveringClient 1000 world_recovering)
      as ((_ & Hmiss) & _).
    destruct Hmiss as (_ & _ & Hfield & _); [normalise|]. exact Hfield.
  - destruct (ensureQueue_caches_success recoveringClient 1000 world_recovering)
      as ((_ & Hmiss) & _).
    destruct Hmiss as (_ & _ & _ & _ & Hagain); [normalise|].
    destruct (Hagain eq_refl 2000) as [Hresult _]. exact Hresult.
Defined.

(** X3: a deadline message without task group id. *)
Lemma putMessage_requires_ids_witness :
  ∃ msg, putDeadlineMessage fakeClient 1000 "task-1" "" "sched-1" 5000 world0
         = (Throw (AssertionError msg), world0).
Proof.
  destruct (putMessage_requires_ids fakeClient 1000 world0) as (_ & Hdeadline & _).
  apply Hdeadline. right. left. reflexivity.
Defined.

(** X4: the resolved message of the example. *)
Lemma resolved_round_trip_witness :
  resolvedQueueReady world_resolved = Some (Ok ())
  ∧ ∃ m, stored (client_state world_resolved) (resolvedQueue world0) m
      ∧ FakeQueueClient._visibleAfter m = 1000
      ∧ FakeQueueClient._expiresAfter m = 1000 + 7 * 24 * 60 * 60 * 1000.
Proof.
  destruct (resolved_round_trip 1000 "task-1" "group-1" "sched-1" "completed" world0
              world_resolved example_tokens_inj world0_reachable)
    as (Hready & _ & m & Hstored & _ & _ & Hvisible & Hexpiry & _).
  - normalise.
  - split; [exact Hready|]. exists m. split; [exact Hstored|].
    split; [exact Hvisible|exact Hexpiry].
Defined.

(** X5: the pending message of the example, put at time 100000 for a
    deadline at 900000. *)
Lemma pending_message_lifetime_witness :
  ∃ m, stored (client_state world_task) medium_queue m
    ∧ FakeQueueClient._visibleAfter m = 100000
    ∧ 900000 ≤ FakeQueueClient._expiresAfter m < 900000 + 1000.
Proof.
  destruct (pending_message_lifetime 100000 (task1 900000) 0 world0
              (queue_names "wq" "prov1" "wt1") world_ensured world_task
              example_tokens_inj world0_reachable)
    as (m & Hstored & _ & Hvisible & Hexpiry & _).
  - simpl. lia.
  - normalise.
  - normalise.
  - exists m. split; [exact Hstored|]. split; [exact Hvisible|exact Hexpiry].
Defined.

(** X6: the pending message of the example is in the medium queue and
    not in the queue of the highest priority. *)
Lemma pending_message_routed_witness :
  names_get (queue_names "wq" "prov1" "wt1") highest
  ≠ names_get (queue_names "wq" "prov1" "wt1") medium.
Proof.
  destruct (pending_message_routed 100000 (task1 900000) 0 world0 world_task
              example_tokens_inj world0_reachable)
    as (_ & Hothers).
  - intros names'. normalise.
  - normalise.
  - destruct (Hothers highest) as [Hne _]; [discriminate|exact Hne].
Defined.

(** X7: the queue family of the example on a fresh service. *)
Lemma ensurePendingQueue_settles_family_witness :
  ∃ w',
    ensurePendingQueue fakeClient 100000 "prov1" "wt1" world0
    = (Ok (queue_names "wq" "prov1" "wt1"), w')
    ∧ metadata_current 100000 "prov1" "wt1"
        (FakeQueueClient.getMetadata medium_queue (client_state w')).1.
Proof.
  destruct (ensurePendingQueue_settles_family 100000 "prov1" "wt1" world0
              world0_reachable)
    as (w' & Hrun & _ & Hcurrent & _).
  - normalise.
  - normalise.
  - exact world0_miss.
  - normalise.
  - exists w'. split; [exact Hrun|]. exact (Hcurrent medium).
Defined.

(** X8: the empty queue "wq-x", whose meta-data names no identifier, is
    deleted. *)
Lemma deleteUnusedWorkerQueues_complete_witness :
  ∃ n w',
    deleteUnusedWorkerQueues fakeClient 1 2000000 world_unnamed = Some (Ok n, w')
    ∧ FakeQueueClient.queues (client_state w') !! "wq-x" = None.
Proof.
  destruct (deleteUnusedWorkerQueues_complete 0 2000000 world_unnamed
              world_unnamed_reachable)
    as (n & w' & Hrun & Hdeleted).
  exists n, w'. split; [exact Hrun|].
  destruct (Hdeleted "wq-x" (<["last_used" := Date_toJSON 1000000]> ∅)) as [Hgone _].
  - normalise.
  - normalise.
  - intros (Hp & _). vm_compute in Hp. discriminate Hp.
  - exact Hgone.
Defined.



(** X12: the message of the example queue, handed out at time 2000 for
    300 seconds, is not handed out at time 302000. *)
Lemma lease_is_exclusive_witness :
  ∃ fetched',
    (FakeQueueClient.getMessages 302000 "q" 300 1 lease_fetch.2).1 = Ok fetched'
    ∧ ∀ f', f' ∈ fetched' → messageId f' ≠ messageId leased_first.
Proof.
  eexists. split; [normalise|]. intros f' Hf'.
  apply (lease_is_exclusive 2000 "q" 300 1 (client_state world_put) [leased_first]
           lease_fetch.2 leased_first example_tokens_inj world_put_reachable)
    with (history := []) (t := 302000) (vis' := 300) (n' := 1) (fetched' := []).
  - normalise.
  - left.
  - constructor.
  - normalise.
  - normalise.
  - exact Hf'.
Defined.

(** X13: a message id that the example queue does not hold. *)
Lemma unknown_message_ignored_witness :
  FakeQueueClient.deleteMessage "q" "no-such-id" "receipt" (client_state world_put)
  = (Ok (), client_state world_put).
Proof.
  destruct (unknown_message_ignored 2000 "q" "no-such-id" "receipt" "text" 0
              (client_state world_put)) as [Hunknown _].
  - exists [stored_first]. normalise.
  - destruct Hunknown as [Hdelete _]; [|exact Hdelete].
    intros m (queue & Hq & Hm) Hid.
    assert (queue = [stored_first]) as ->.
    { assert (FakeQueueClient.queues (client_state world_put) !! "q"
              = Some [stored_first]) as Hq' by normalise.
      rewrite Hq' in Hq. by injection Hq. }
    apply list_elem_of_singleton in Hm as ->. vm_compute in Hid. discriminate Hid.
Defined.

(** X14: one message asked of the example queue at time 2000. *)
Lemma getMessages_first_visible_witness :
  lease_fetch.1
  = Ok (imap (λ i m, FakeQueueClient.handed_out
                       (slugid_v4 (FakeQueueClient.draws (client_state world_put) + i)) m)
             (take (Z.to_nat 1)
                   (filter (λ m, FakeQueueClient.visible 2000 m) [stored_first]))).
Proof.
  destruct (getMessages_first_visible 2000 "q" 300 1 [stored_first]
              (client_state world_put)) as [Hout _].
  - normalise.
  - lia.
  - exact Hout.
Defined.

(** X15: the count of the example pair on a fresh service. *)
Lemma countPendingMessages_counts_stored_witness :
  (countPendingMessages fakeClient 100000 "prov1" "wt1" world0).1
  = Ok (foldr Z.add 0
          ((λ q, Z.of_nat (length (default [] (FakeQueueClient.queues (client_state world0)
                                                 !! q))))
             <$> (snd <$> queue_names (prefix world0) "prov1" "wt1"))).
Proof.
  apply (countPendingMessages_counts_stored 100000 "prov1" "wt1" world0 world0_reachable).
  - normalise.
  - normalise.
  - exact world0_miss.
  - normalise.
Defined.

(** X16: the batch of the example queue decodes. *)
Lemma getMessages_decodes_all_or_nothing_witness :
  ∃ msgs, (_getMessages fakeClient 2000 "q" 300 1 world_put).1 = Ok msgs.
Proof.
  destruct (getMessages_decodes_all_or_nothing fakeClient 2000 "q" 300 1 world_put
              [leased_first]) as (_ & Hall & _).
  - normalise.
  - destruct Hall as (msgs & Hmsgs & _).
    + constructor; [|constructor]. exists payload1. normalise.
    + exists msgs. exact Hmsgs.
Defined.

(** X17: the client that fails every call: the error of [getMetadata]
    is thrown on. *)
Lemma ensureQueueAndMetadata_errors_witness :
  (_ensureQueueAndMetadata failingClient 1000 "q" "prov1" "wt1" world_failing).1
  = Throw overloaded.
Proof.
  destruct (ensureQueueAndMetadata_errors failingClient 1000 "q" "prov1" "wt1" world_failing)
    as (_ & Hother & _).
  rewrite (Hother overloaded); [reflexivity|normalise|].
  intros [Hcode|Hstatus]; [vm_compute in Hcode; discriminate Hcode
                          |vm_compute in Hstatus; discriminate Hstatus].
Defined.

(** X18: the key of the example pair. *)
Lemma cache_key_unambiguous_witness : "prov1" = "prov1" ∧ "wt1" = "wt1".
Proof.
  apply (cache_key_unambiguous "prov1" "wt1" "prov1" "wt1"); normalise.
Defined.

(** X19: a provisioner id with a slash. *)
Lemma ensurePendingQueue_rejects_invalid_witness :
  ∃ msg, ensurePendingQueue fakeClient 1000 "prov/1" "wt1" world0
         = (Throw (AssertionError msg), world0).
Proof.
  destruct (ensurePendingQueue_rejects_invalid fakeClient 1000 "prov/1" "wt1" world0)
    as (msg & Hrun & _).
  - intros [names Hc]. vm_compute in Hc. discriminate Hc.
  - left. normalise.
  - exists msg. exact Hrun.
Defined.

(** X20: after the put of the example, the poll functions come from the
    cache. *)
Lemma pending_round_trip_witness :
  pendingQueues fakeClient 200000 "prov1" "wt1" world_task
  = (Ok (poll fakeClient <$> (names_get (queue_names "wq" "prov1" "wt1") <$> PRIORITIES)),
     world_task).
Proof.
  destruct (pending_round_trip 100000 (task1 900000) 0 world0
              (queue_names "wq" "prov1" "wt1") world_ensured world_task
              example_tokens_inj world0_reachable)
    as (Hpolls & _).
  - simpl. lia.
  - normalise.
  - normalise.
  - normalise.
  - apply (Hpolls 200000).
Defined.

(** X21: over the client that fails every call, the count fails at time
    100000 and again, from the cache, ten seconds later. *)
Lemma countPendingMessages_remembers_failure_witness :
  (countPendingMessages failingClient 110000 "prov1" "wt1"
     (countPendingMessages failingClient 100000 "prov1" "wt1" world_failing).2).1
  = Throw (with_note "Failed to ensure azure queue in queueservice.js" overloaded).
Proof.
  apply (countPendingMessages_remembers_failure failingClient 100000 "prov1" "wt1"
           world_failing
           (with_note "Failed to ensure azure queue in queueservice.js" overloaded)).
  - normalise.
  - normalise.
  - lia.
Defined.

(** X22: the message of the example queue is there after a fetch. *)
Lemma message_kept_witness :
  ∃ m', stored lease_fetch.2 "q" m'
    ∧ FakeQueueClient.m_messageId m' = FakeQueueClient.m_messageId stored_first.
Proof.
  destruct (message_kept 2000 (GetMessages "q" 300 1) (client_state world_put) "q"
              stored_first) as (m' & Hstored & Hid & _).
  - exists [stored_first]. split; [normalise|left].
  - exact I.
  - exists m'. split; [exact Hstored|exact Hid].
Defined.
